(** * Deployment orchestrator: routes/deployments.js and the cloud service

    A shallow embedding of the deployment routes (create, rollback, delete and
    the two background jobs processDeployment and processRollback) and of the
    CloudService methods they call (deployInfrastructure, rollbackDeployment,
    getCostEstimate, validateInfrastructure and their helpers).

    Asynchronous functions are programs of a small free monad: every awaited
    or environment-dependent operation is an effect node, [try]/[catch] is a
    transformer of programs, and an interpreter answers the effects from a
    world (the Deployment collection, the terraform directory tree) and an
    environment (what subprocesses print, what the clock shows). *)

From stdpp Require Import gmap strings list pretty.
From Stdlib Require Import ZArith.

Local Open Scope string_scope.
Local Open Scope Z_scope.
Local Open Scope list_scope.

(** ** Data model (deploymentSchema, deployments.js lines 22-44) *)

(** ObjectIds are numbered in the order in which they are generated. *)
Definition ObjectId := nat.

Inductive Status :=
| pending | deploying | deployed | failed | rolling_back | rolled_back.

Inductive LogType := info | success | error | warning.

#[global] Instance Status_eq_dec : EqDecision Status.
Proof. solve_decision. Defined.
#[global] Instance LogType_eq_dec : EqDecision LogType.
Proof. solve_decision. Defined.

Record LogEntry := mkLog {
  message : string;
  type : LogType;
  timestamp : Z
}.

(** Parsed JSON, as stored in [outputs]. Numbers keep their literal text. *)
#[local] Unset Elimination Schemes.
Inductive Json :=
| JNull
| JBool (b : bool)
| JNum (literal : string)
| JStr (s : string)
| JArr (items : list Json)
| JObj (members : list (string * Json)).
#[local] Set Elimination Schemes.

(** What getCostEstimate returns and what [costEstimate] then holds. *)
Inductive CostEstimate :=
| CostBreakdown (monthlyEstimate : string)
                (breakdown : list (string * string)) (currency : string)
| CostError (error_message : string).

(** A Deployment document without its [_id], which is the key under which the
    collection holds it and is never assigned by the code. *)
Record Deployment := mkDeployment {
  projectId : ObjectId;
  userId : ObjectId;
  name : string;
  provider : string;
  terraformCode : string;
  status : Status;
  outputs : Json;
  logs : list LogEntry;
  costEstimate : option CostEstimate;
  deploymentTime : option Z;
  createdAt : Z;
  deployedAt : option Z;
  rolledBackAt : option Z
}.

Definition set_status (s : Status) (d : Deployment) : Deployment :=
  mkDeployment (projectId d) (userId d) (name d) (provider d) (terraformCode d)
    s (outputs d) (logs d) (costEstimate d) (deploymentTime d) (createdAt d)
    (deployedAt d) (rolledBackAt d).

Definition set_outputs (o : Json) (d : Deployment) : Deployment :=
  mkDeployment (projectId d) (userId d) (name d) (provider d) (terraformCode d)
    (status d) o (logs d) (costEstimate d) (deploymentTime d) (createdAt d)
    (deployedAt d) (rolledBackAt d).

Definition set_logs (l : list LogEntry) (d : Deployment) : Deployment :=
  mkDeployment (projectId d) (userId d) (name d) (provider d) (terraformCode d)
    (status d) (outputs d) l (costEstimate d) (deploymentTime d) (createdAt d)
    (deployedAt d) (rolledBackAt d).

Definition set_costEstimate (c : CostEstimate) (d : Deployment) : Deployment :=
  mkDeployment (projectId d) (userId d) (name d) (provider d) (terraformCode d)
    (status d) (outputs d) (logs d) (Some c) (deploymentTime d) (createdAt d)
    (deployedAt d) (rolledBackAt d).

Definition set_deploymentTime (t : Z) (d : Deployment) : Deployment :=
  mkDeployment (projectId d) (userId d) (name d) (provider d) (terraformCode d)
    (status d) (outputs d) (logs d) (costEstimate d) (Some t) (createdAt d)
    (deployedAt d) (rolledBackAt d).

Definition set_deployedAt (t : Z) (d : Deployment) : Deployment :=
  mkDeployment (projectId d) (userId d) (name d) (provider d) (terraformCode d)
    (status d) (outputs d) (logs d) (costEstimate d) (deploymentTime d)
    (createdAt d) (Some t) (rolledBackAt d).

Definition set_rolledBackAt (t : Z) (d : Deployment) : Deployment :=
  mkDeployment (projectId d) (userId d) (name d) (provider d) (terraformCode d)
    (status d) (outputs d) (logs d) (costEstimate d) (deploymentTime d)
    (createdAt d) (deployedAt d) (Some t).

(** The enum of the [provider] path, checked when a document is validated. *)
Definition provider_enum : list string := ["aws"; "gcp"; "azure"].

(** Schema validation of a new document: [terraformCode] and [name] are
    required strings, [provider] must be in the enum. *)
Definition schema_valid (d : Deployment) : bool :=
  bool_decide (provider d ∈ provider_enum)
  && negb (String.eqb (terraformCode d) "")
  && negb (String.eqb (name d) "").

(** ** Directories below [terraformPath] *)

(** [path.join(this.terraformPath, 'temp-validation')] and
    [path.join(this.terraformPath, projectId)]; a project id is an ObjectId
    and so never names the validation directory. *)
Inductive Dir :=
| TempValidation
| ProjectDir (p : ObjectId).

#[global] Instance Dir_eq_dec : EqDecision Dir.
Proof. solve_decision. Defined.

#[global] Instance Dir_countable : Countable Dir.
Proof.
  refine (inj_countable'
    (λ d, match d with TempValidation => None | ProjectDir p => Some p end)
    (λ o, match o with None => TempValidation | Some p => ProjectDir p end) _).
  by intros [].
Defined.

(** ** Effects *)

(** The background jobs started with setImmediate. *)
Inductive Job :=
| JobDeploy (id : ObjectId)
| JobRollback (id : ObjectId).

#[global] Instance Job_eq_dec : EqDecision Job.
Proof. solve_decision. Defined.

Definition job_target (j : Job) : ObjectId :=
  match j with JobDeploy id | JobRollback id => id end.

(** A result that is either a value or the message of the Error thrown. *)
Definition Try (A : Type) : Type := A + string.

Inductive Eff : Type → Type :=
(* Mongoose *)
| NewObjectId : Eff ObjectId
| Insert (id : ObjectId) (d : Deployment) : Eff (Try unit)
| Save (id : ObjectId) (d : Deployment) : Eff (Try unit)
| FindById (id : ObjectId) : Eff (option Deployment)
| FindOne (project user : ObjectId) (s : Status)
    : Eff (option (ObjectId * Deployment))
| FindOneAndDelete (id user : ObjectId) : Eff (option Deployment)
(* fs.promises *)
| Mkdir (d : Dir) : Eff unit
| WriteFile (d : Dir) (file content : string) : Eff (Try unit)
| Rm (d : Dir) : Eff unit
| Access (d : Dir) : Eff (Try unit)
(* child_process.exec, promisified, with options { cwd } *)
| Exec (command : string) (cwd : Dir) : Eff (Try string)
(* builtins *)
| JsonParse (text : string) : Eff (Try Json)
| Now : Eff Z
| SetImmediate (j : Job) : Eff unit.

(** Programs: return, throw, or perform an effect and continue. *)
Inductive prog (R : Type) : Type :=
| Ret (r : R)
| Throw (msg : string)
| Vis {X : Type} (e : Eff X) (k : X → prog R).

Arguments Ret {R} r.
Arguments Throw {R} msg.
Arguments Vis {R X} e k.

Fixpoint bind {A B : Type} (m : prog A) (f : A → prog B) : prog B :=
  match m with
  | Ret a => f a
  | Throw msg => Throw msg
  | Vis e k => Vis e (λ x, bind (k x) f)
  end.

(** [try { body } catch (error) { handler error.message }] *)
Fixpoint try_catch {A : Type} (body : prog A) (handler : string → prog A)
  : prog A :=
  match body with
  | Ret a => Ret a
  | Throw msg => handler msg
  | Vis e k => Vis e (λ x, try_catch (k x) handler)
  end.

Notation "x <- c1 ;; c2" := (bind c1 (λ x, c2))
  (at level 100, c1 at next level, right associativity,
   format "'[v' x  <-  c1  ;;  '/' c2 ']'").
Notation "c1 ;;; c2" := (bind c1 (λ _, c2))
  (at level 100, right associativity,
   format "'[v' c1  ;;;  '/' c2 ']'").

(** An effect whose answer is used as it is. *)
Definition perform {X : Type} (e : Eff X) : prog X := Vis e Ret.

(** An awaited promise that may reject: the rejection is thrown. *)
Definition await {X : Type} (e : Eff (Try X)) : prog X :=
  Vis e (λ r, match r with inl x => Ret x | inr msg => Throw msg end).

(** ** The world and the environment *)

(** What the program cannot decide: the outcome of the n-th subprocess (its
    stdout, the message of its failure, or [None] when it never exits: exec
    is called with the option [cwd] alone, so nothing ends a child that does
    not end by itself), the n-th reading of the system clock in milliseconds,
    and JSON.parse. *)
Record Env := mkEnv {
  exec_outcome : nat → string → Dir → option (Try string);
  clock : nat → Z;
  json_parse : string → Try Json
}.

Record World := mkWorld {
  db : gmap ObjectId Deployment;        (* the Deployment collection *)
  next_oid : ObjectId;                  (* next ObjectId to generate *)
  fs : gmap Dir (gmap string string);   (* directories and their files *)
  exec_calls : nat;                     (* subprocesses started so far *)
  clock_reads : nat;                    (* clock readings so far *)
  history : gmap ObjectId (list Status) (* ghost: successive statuses held *)
}.

Definition with_db (m : gmap ObjectId Deployment) (w : World) : World :=
  mkWorld m (next_oid w) (fs w) (exec_calls w) (clock_reads w) (history w).

Definition with_fs (f : gmap Dir (gmap string string)) (w : World) : World :=
  mkWorld (db w) (next_oid w) f (exec_calls w) (clock_reads w) (history w).

Definition hist_of (w : World) (id : ObjectId) : list Status :=
  default [] (history w !! id).

(** The history once status [s] is persisted: a status is recorded when it
    differs from the one recorded last. *)
Definition record_status (s : Status) (h : list Status) : list Status :=
  if bool_decide (last h = Some s) then h else h ++ [s].

(** Persisting [d] under [id]: the collection and the ghost history. *)
Definition persist (id : ObjectId) (d : Deployment) (w : World) : World :=
  mkWorld (<[id := d]> (db w)) (next_oid w) (fs w) (exec_calls w)
    (clock_reads w)
    (<[id := record_status (status d) (hist_of w id)]> (history w)).

(** findOne: one of the documents that match, the first in the listing of
    the collection. *)
Definition find_one (m : gmap ObjectId Deployment) (P : Deployment → bool)
  : option (ObjectId * Deployment) :=
  head (filter (λ p, P p.2) (map_to_list m)).

Definition matches (project user : ObjectId) (s : Status) (d : Deployment)
  : bool :=
  bool_decide (projectId d = project) && bool_decide (userId d = user)
  && bool_decide (status d = s).

Definition handle (env : Env) {X : Type} (e : Eff X) (w : World)
  : World * option X :=
  match e in Eff X return World * option X with
  | NewObjectId =>
      (mkWorld (db w) (S (next_oid w)) (fs w) (exec_calls w) (clock_reads w)
         (history w), Some (next_oid w))
  | Insert id d =>
      if negb (schema_valid d) then
        (w, Some (inr "Deployment validation failed"))
      else match db w !! id with
           | Some _ => (w, Some (inr "E11000 duplicate key error"))
           | None => (persist id d w, Some (inl ()))
           end
  | Save id d =>
      match db w !! id with
      | Some _ => (persist id d w, Some (inl ()))
      | None => (w, Some (inr "No document found for query"))
      end
  | FindById id => (w, Some (db w !! id))
  | FindOne project user s =>
      (w, Some (find_one (db w) (matches project user s)))
  | FindOneAndDelete id user =>
      match db w !! id with
      | Some d =>
          if bool_decide (userId d = user)
          then (with_db (delete id (db w)) w, Some (Some d))
          else (w, Some None)
      | None => (w, Some None)
      end
  | Mkdir d =>
      match fs w !! d with
      | Some _ => (w, Some ())
      | None => (with_fs (<[d := ∅]> (fs w)) w, Some ())
      end
  | WriteFile d file content =>
      match fs w !! d with
      | Some files =>
          (with_fs (<[d := <[file := content]> files]> (fs w)) w,
           Some (inl ()))
      | None => (w, Some (inr "ENOENT: no such file or directory"))
      end
  | Rm d => (with_fs (delete d (fs w)) w, Some ())
  | Access d =>
      match fs w !! d with
      | Some _ => (w, Some (inl ()))
      | None => (w, Some (inr "ENOENT: no such file or directory"))
      end
  | Exec command cwd =>
      (mkWorld (db w) (next_oid w) (fs w) (S (exec_calls w)) (clock_reads w)
         (history w),
       exec_outcome env (exec_calls w) command cwd)
  | JsonParse text => (w, Some (json_parse env text))
  | Now =>
      (mkWorld (db w) (next_oid w) (fs w) (exec_calls w) (S (clock_reads w))
         (history w),
       Some (clock env (clock_reads w)))
  | SetImmediate _ => (w, Some ())
  end.

Definition spawn_of {X : Type} (e : Eff X) : list Job :=
  match e with
  | SetImmediate j => [j]
  | _ => []
  end.

(** How a program left alone ends. *)
Inductive Outcome (R : Type) :=
| Returned (r : R)
| Thrown (msg : string)
| Blocked.   (* waiting for a subprocess that never exits *)

Arguments Returned {R} r.
Arguments Thrown {R} msg.
Arguments Blocked {R}.

Record Run (R : Type) := mkRun {
  final : World;
  outcome : Outcome R;
  spawned : list Job
}.

Arguments mkRun {R}.
Arguments final {R}.
Arguments outcome {R}.
Arguments spawned {R}.

(** Running one program to its end, with nothing else interleaved. *)
Fixpoint run_from {R : Type} (env : Env) (t : prog R) (w : World)
  (js : list Job) : Run R :=
  match t with
  | Ret r => mkRun w (Returned r) js
  | Throw msg => mkRun w (Thrown msg) js
  | Vis e k =>
      match handle env e w with
      | (w', Some x) => run_from env (k x) w' (js ++ spawn_of e)
      | (w', None) => mkRun w' Blocked js
      end
  end.

Definition run {R : Type} (env : Env) (t : prog R) (w : World) : Run R :=
  run_from env t w [].

(** ** CloudService (src/unnamed/part_001) *)

Definition lower_ascii (c : Ascii.ascii) : Ascii.ascii :=
  let n := Ascii.nat_of_ascii c in
  if ((65 <=? n) && (n <=? 90))%nat then Ascii.ascii_of_nat (n + 32) else c.

Fixpoint toLowerCase (s : string) : string :=
  match s with
  | EmptyString => EmptyString
  | String c rest => String (lower_ascii c) (toLowerCase rest)
  end.

(** A double quote, and a quoted word of the generated terraform text. *)
Definition dq : string :=
  String (Ascii.Ascii false true false false false true false false) "".
Definition q (s : string) : string := dq +:+ s +:+ dq.

Definition aws_provider_config : string :=
"
terraform {
  required_providers {
    aws = {
      source  = " +:+ q "hashicorp/aws" +:+ "
      version = " +:+ q "~> 5.0" +:+ "
    }
  }
}

provider " +:+ q "aws" +:+ " {
  region = var.aws_region
}
        ".

Definition gcp_provider_config : string :=
"
terraform {
  required_providers {
    google = {
      source  = " +:+ q "hashicorp/google" +:+ "
      version = " +:+ q "~> 4.0" +:+ "
    }
  }
}

provider " +:+ q "google" +:+ " {
  project = var.gcp_project_id
  region  = var.gcp_region
}
        ".

Definition azure_provider_config : string :=
"
terraform {
  required_providers {
    azurerm = {
      source  = " +:+ q "hashicorp/azurerm" +:+ "
      version = " +:+ q "~> 3.0" +:+ "
    }
  }
}

provider " +:+ q "azurerm" +:+ " {
  features {}
}
        ".

Definition variable_block (var description : string) (default : option string)
  : string :=
"variable " +:+ q var +:+ " {
  description = " +:+ q description +:+ "
  type        = string" +:+
  match default with
  | Some v => "
  default     = " +:+ q v
  | None => ""
  end +:+ "
}
".

Definition environment_variable : string :=
  variable_block "environment" "Environment name" (Some "dev").

Definition aws_variables : string :=
"
" +:+ variable_block "aws_region" "AWS region" (Some "us-east-1") +:+ "
" +:+ environment_variable +:+ "        ".

Definition gcp_variables : string :=
"
" +:+ variable_block "gcp_project_id" "GCP Project ID" None +:+ "
" +:+ variable_block "gcp_region" "GCP region" (Some "us-central1") +:+ "
" +:+ environment_variable +:+ "        ".

Definition azure_variables : string :=
"
" +:+ variable_block "azure_location" "Azure location" (Some "East US") +:+ "
" +:+ environment_variable +:+ "        ".

(** [switch (provider.toLowerCase())] with no default case. *)
Definition by_provider (provider aws gcp azure : string) : string :=
  let p := toLowerCase provider in
  if String.eqb p "aws" then aws
  else if String.eqb p "gcp" then gcp
  else if String.eqb p "azure" then azure
  else "".

Definition generateProviderConfig (projectPath : Dir) (provider : string)
  : prog unit :=
  let providerConfig :=
    by_provider provider aws_provider_config gcp_provider_config
      azure_provider_config in
  await (WriteFile projectPath "providers.tf" providerConfig).

Definition generateVariablesFile (projectPath : Dir) (provider : string)
  : prog unit :=
  let variablesConfig :=
    by_provider provider aws_variables gcp_variables azure_variables in
  await (WriteFile projectPath "variables.tf" variablesConfig).

(** [try { await fs.access(path); return true } catch { return false }] *)
Definition pathExists (path : Dir) : prog bool :=
  try_catch (await (Access path) ;;; Ret true) (λ _, Ret false).

(** fs.rm with [recursive] and [force]; a failure would only be logged. *)
Definition cleanupDirectory (dirPath : Dir) : prog unit :=
  try_catch (perform (Rm dirPath)) (λ _, Ret ()).

Record DeployResult := mkDeployResult {
  deploy_success : bool;
  deploy_outputs : Json;
  planOutput : string;
  applyOutput : string
}.

Definition deployInfrastructure (project : ObjectId)
  (code provider : string) : prog DeployResult :=
  try_catch
    (let projectPath := ProjectDir project in
     perform (Mkdir projectPath) ;;;
     (* Write Terraform files *)
     await (WriteFile projectPath "main.tf" code) ;;;
     generateProviderConfig projectPath provider ;;;
     generateVariablesFile projectPath provider ;;;
     (* Initialize Terraform *)
     await (Exec "terraform init" projectPath) ;;;
     (* Plan deployment *)
     plan <- await (Exec "terraform plan -out=tfplan" projectPath) ;;
     (* Apply deployment *)
     apply <- await (Exec "terraform apply -auto-approve tfplan" projectPath) ;;
     (* Get outputs *)
     output <- await (Exec "terraform output -json" projectPath) ;;
     outs <- await (JsonParse output) ;;
     Ret (mkDeployResult true outs plan apply))
    (λ msg, Throw ("Deployment failed: " +:+ msg)).

Record RollbackResult := mkRollbackResult {
  rollback_success : bool;
  rollback_message : string;
  destroyOutput : string
}.

Definition rollbackDeployment (project : ObjectId) : prog RollbackResult :=
  try_catch
    (let projectPath := ProjectDir project in
     present <- pathExists projectPath ;;
     if negb present then Throw "Project path does not exist"
     else
       (* Destroy infrastructure *)
       out <- await (Exec "terraform destroy -auto-approve" projectPath) ;;
       Ret (mkRollbackResult true "Infrastructure rolled back successfully"
              out))
    (λ msg, Throw ("Rollback failed: " +:+ msg)).

(** The mock estimate returned for every project that has a directory. *)
Definition mock_estimate : CostEstimate :=
  CostBreakdown "$150.00"
    [("EC2 Instances", "$80.00"); ("RDS Database", "$40.00");
     ("S3 Storage", "$20.00"); ("Load Balancer", "$10.00")]
    "USD".

Definition getCostEstimate (project : ObjectId) : prog CostEstimate :=
  try_catch
    (let projectPath := ProjectDir project in
     present <- pathExists projectPath ;;
     if negb present then Ret (CostError "Project not found")
     else Ret mock_estimate)
    (λ msg, Ret (CostError msg)).

Record Validation := mkValidation {
  valid : bool;
  validation_message : option string;
  validation_error : option string
}.

Definition validateInfrastructure (code provider : string) : prog Validation :=
  try_catch
    (let tempPath := TempValidation in
     perform (Mkdir tempPath) ;;;
     (* Write Terraform files *)
     await (WriteFile tempPath "main.tf" code) ;;;
     generateProviderConfig tempPath provider ;;;
     (* Validate syntax *)
     await (Exec "terraform init" tempPath) ;;;
     await (Exec "terraform validate" tempPath) ;;;
     (* Clean up *)
     cleanupDirectory tempPath ;;;
     Ret (mkValidation true (Some "Terraform configuration is valid") None))
    (λ msg, Ret (mkValidation false None (Some msg))).

(** ** Routes and background jobs (src/server/routes/deployments.js) *)

(** [deployment.logs.push({ message, type })]: the subdocument takes its
    [timestamp] default, Date.now, when it is pushed. *)
Definition push_log (msg : string) (ty : LogType) (d : Deployment)
  : prog Deployment :=
  t <- perform Now ;;
  Ret (set_logs (logs d ++ [mkLog msg ty t]) d).

(** [Math.round(ms / 1000)]: the nearest integer, halves upwards. *)
Definition round_seconds (ms : Z) : Z := (ms + 500) / 1000.

(** processDeployment (lines 359-410). The document is passed along as a
    value; the two statements that open the [try] block cannot throw, so the
    [catch] block always sees the document as they left it. *)
Definition processDeployment (deploymentId : ObjectId) : prog unit :=
  found <- perform (FindById deploymentId) ;;
  match found with
  | None => Ret ()
  | Some deployment =>
      startTime <- perform Now ;;
      (* Update status to deploying *)
      d1 <- push_log "Starting deployment process..." info
              (set_status deploying deployment) ;;
      d' <- try_catch
        (await (Save deploymentId d1) ;;;
         (* Deploy infrastructure *)
         result <- deployInfrastructure (projectId d1) (terraformCode d1)
                     (provider d1) ;;
         if deploy_success result then
           let d2 := set_outputs (deploy_outputs result)
                       (set_status deployed d1) in
           at_ <- perform Now ;;
           let d3 := set_deployedAt at_ d2 in
           now_ <- perform Now ;;
           let d4 := set_deploymentTime (round_seconds (now_ - startTime)) d3 in
           d5 <- push_log "Deployment completed successfully" success d4 ;;
           (* Get cost estimate *)
           try_catch
             (c <- getCostEstimate (projectId d5) ;; Ret (set_costEstimate c d5))
             (λ _, Ret d5)
         else Throw "Deployment failed")
        (λ msg,
           push_log ("Deployment failed: " +:+ msg) error
             (set_status failed d1)) ;;
      await (Save deploymentId d')
  end.

(** processRollback (lines 413-447). *)
Definition processRollback (deploymentId : ObjectId) : prog unit :=
  found <- perform (FindById deploymentId) ;;
  match found with
  | None => Ret ()
  | Some deployment =>
      d1 <- push_log "Starting rollback process..." info deployment ;;
      d' <- try_catch
        (await (Save deploymentId d1) ;;;
         (* Rollback infrastructure *)
         result <- rollbackDeployment (projectId d1) ;;
         if rollback_success result then
           let d2 := set_status rolled_back d1 in
           at_ <- perform Now ;;
           let d3 := set_rolledBackAt at_ d2 in
           push_log "Rollback completed successfully" success d3
         else Throw (if String.eqb (rollback_message result) ""
                     then "Rollback failed"
                     else rollback_message result))
        (λ msg,
           push_log ("Rollback failed: " +:+ msg) error
             (set_status failed d1)) ;;
      await (Save deploymentId d')
  end.

(** The callback given to setImmediate: the job inside its own try/catch,
    which only logs. *)
Definition job_prog (j : Job) : prog unit :=
  match j with
  | JobDeploy id => try_catch (processDeployment id) (λ _, Ret ())
  | JobRollback id => try_catch (processRollback id) (λ _, Ret ())
  end.

(** [req.body] and [req.user.id] of an authenticated request. *)
Record CreateRequest := mkCreateRequest {
  body_projectId : option ObjectId;
  body_projectName : option string;
  body_terraformCode : option string;
  body_provider : option string;
  create_user : ObjectId
}.

(** [!x] for an optional string: undefined and the empty string are falsy. *)
Definition falsy (x : option string) : bool :=
  match x with
  | None => true
  | Some s => String.eqb s ""
  end.

Inductive Response :=
| Json400 (error_text : string) (details : option string)
| Json404 (error_text : string)
| Json500 (error_text : string) (message_text : string)
| Json201 (id : ObjectId) (deployment : Deployment) (message_text : string)
| Json200 (message_text : string) (deploymentId : option ObjectId).

(** router.post('/') (lines 49-103). *)
Definition createDeployment (req : CreateRequest) : prog Response :=
  try_catch
    (if falsy (body_terraformCode req) || falsy (body_provider req) then
       Ret (Json400 "Terraform code and provider are required" None)
     else
       let code := default "" (body_terraformCode req) in
       let provider := default "" (body_provider req) in
       (* Validate infrastructure *)
       validation <- validateInfrastructure code provider ;;
       if negb (valid validation) then
         Ret (Json400 "Invalid Terraform configuration"
                (validation_error validation))
       else
         (* Create deployment record *)
         project <- match body_projectId req with
                    | Some p => Ret p
                    | None => perform NewObjectId
                    end ;;
         name <- (if falsy (body_projectName req)
                  then t <- perform Now ;; Ret ("Deployment " +:+ pretty t)
                  else Ret (default "" (body_projectName req))) ;;
         id <- perform NewObjectId ;;
         created <- perform Now ;;
         let deployment :=
           mkDeployment project (create_user req) name provider code pending
             (JObj []) [] None None created None None in
         await (Insert id deployment) ;;;
         (* Start deployment process *)
         perform (SetImmediate (JobDeploy id)) ;;;
         Ret (Json201 id deployment "Deployment started successfully"))
    (λ msg, Ret (Json500 "Failed to create deployment" msg)).

(** router.post('/rollback') (lines 239-288). *)
Definition rollback (body_project : option ObjectId) (user : ObjectId)
  : prog Response :=
  try_catch
    (match body_project with
     | None => Ret (Json400 "Project ID is required" None)
     | Some project =>
         found <- perform (FindOne project user deployed) ;;
         match found with
         | None => Ret (Json404 "No active deployment found for rollback")
         | Some (id, deployment) =>
             (* Update deployment status *)
             let deployment := set_status rolling_back deployment in
             await (Save id deployment) ;;;
             (* Start rollback process *)
             perform (SetImmediate (JobRollback id)) ;;;
             Ret (Json200 "Rollback initiated successfully" (Some id))
         end
     end)
    (λ msg, Ret (Json500 "Failed to initiate rollback" msg)).

(** router.delete('/:id') (lines 330-356). *)
Definition deleteDeployment (id user : ObjectId) : prog Response :=
  try_catch
    (found <- perform (FindOneAndDelete id user) ;;
     match found with
     | None => Ret (Json404 "Deployment not found")
     | Some _ => Ret (Json200 "Deployment deleted successfully" None)
     end)
    (λ msg, Ret (Json500 "Failed to delete deployment" msg)).

(** ** Small worlds and environments to evaluate the programs on *)

Definition empty_world : World := mkWorld ∅ 0%nat ∅ 0%nat 0%nat ∅.

(** Every subprocess succeeds and prints the empty object; the clock shows
    1000 ms more at each reading; the only text JSON.parse accepts is the
    empty object. *)
Definition parse_only_empty_object (text : string) : Try Json :=
  if String.eqb text "{}" then inl (JObj [])
  else inr "Unexpected token in JSON at position 0".

Definition steady_clock (n : nat) : Z := 1000 * Z.of_nat n.

Definition env_all_ok : Env :=
  mkEnv (λ _ _ _, Some (inl "{}")) steady_clock parse_only_empty_object.

(** ** Interleaved execution *)

Inductive Request :=
| PostDeployment (r : CreateRequest)
| PostRollback (body_project : option ObjectId) (user : ObjectId)
| DeleteDeployment (id user : ObjectId).

Definition handler (r : Request) : prog Response :=
  match r with
  | PostDeployment r => createDeployment r
  | PostRollback project user => rollback project user
  | DeleteDeployment id user => deleteDeployment id user
  end.

Inductive Task :=
| Handling (code : prog Response)        (* a request being handled *)
| Working (j : Job) (code : prog unit)   (* a background job *)
| Hung (j : option Job).   (* awaiting a subprocess that never exits *)

Record System := mkSystem {
  world : World;
  tasks : list Task
}.

Definition init_system : System := mkSystem empty_world [].

Definition start_jobs (js : list Job) : list Task :=
  map (λ j, Working j (job_prog j)) js.

(** One step of a program: its next effect takes place and the program
    continues up to the effect after it. *)
Definition step_prog {R : Type} (env : Env) (t : prog R) (w : World)
  : World * option (prog R) * list Job :=
  match t with
  | Vis e k =>
      match handle env e w with
      | (w', Some x) => (w', Some (k x), spawn_of e)
      | (w', None) => (w', None, [])
      end
  | _ => (w, Some t, [])
  end.

Definition step_task (env : Env) (t : Task) (w : World)
  : World * Task * list Job :=
  match t with
  | Handling c =>
      match step_prog env c w with
      | (w', Some c', js) => (w', Handling c', js)
      | (w', None, js) => (w', Hung None, js)
      end
  | Working j c =>
      match step_prog env c w with
      | (w', Some c', js) => (w', Working j c', js)
      | (w', None, js) => (w', Hung (Some j), js)
      end
  | Hung j => (w, Hung j, [])
  end.

Inductive Event :=
| Arrive (r : Request)   (* the handler of a request is started *)
| Step (i : nat)         (* task i performs its next effect *)
| Serve (r : Request).   (* a request is handled from start to end with
                            nothing else in between *)

Definition finish_handler (o : Outcome Response) : Task :=
  match o with
  | Returned r => Handling (Ret r)
  | Thrown msg => Handling (Throw msg)
  | Blocked => Hung None
  end.

Definition apply_event (env : Env) (s : System) (ev : Event) : System :=
  match ev with
  | Arrive r => mkSystem (world s) (tasks s ++ [Handling (handler r)])
  | Step i =>
      match tasks s !! i with
      | Some t =>
          let '(w', t', js) := step_task env t (world s) in
          mkSystem w' (<[i := t']> (tasks s) ++ start_jobs js)
      | None => s
      end
  | Serve r =>
      let o := run env (handler r) (world s) in
      mkSystem (final o)
        (tasks s ++ [finish_handler (outcome o)] ++ start_jobs (spawned o))
  end.

Definition exec_events (env : Env) (evs : list Event) (s : System) : System :=
  fold_left (apply_event env) evs s.

Definition finished {R : Type} (t : prog R) : bool :=
  match t with
  | Vis _ _ => false
  | _ => true
  end.

(** The job a task is running, if it is a job that has not ended. *)
Definition active_job (t : Task) : option Job :=
  match t with
  | Working j c => if finished c then None else Some j
  | Hung (Some j) => Some j
  | _ => None
  end.

Definition active_jobs (s : System) (id : ObjectId) : list Job :=
  filter (λ j, job_target j = id) (omap active_job (tasks s)).

(** The responses sent so far, in the order of the tasks. *)
Definition response_of (t : Task) : option Response :=
  match t with
  | Handling (Ret r) => Some r
  | _ => None
  end.

Definition responses (s : System) : list Response :=
  omap response_of (tasks s).

(** Requests handled one at a time: no event starts a handler that another
    event could interleave with. *)
Definition serial_event (ev : Event) : bool :=
  match ev with
  | Arrive _ => false
  | _ => true
  end.

(** The state machine: the edges between statuses. *)
Definition transition (a b : Status) : bool :=
  match a, b with
  | pending, deploying
  | deploying, deployed
  | deploying, failed
  | deployed, rolling_back
  | rolling_back, rolled_back
  | rolling_back, failed => true
  | _, _ => false
  end.

(** A history that follows the edges. *)
Fixpoint follows_edges (h : list Status) : bool :=
  match h with
  | a :: ((b :: _) as rest) => transition a b && follows_edges rest
  | _ => true
  end.

(** ** What happens to the subprocesses of one job *)

(** The outcome of the subprocess that a job started in world [w] runs as
    its [k]-th one, in the directory of the project of [d]. *)
Definition job_exec (env : Env) (w : World) (d : Deployment) (k : nat)
  (command : string) : option (Try string) :=
  exec_outcome env (k + exec_calls w) command (ProjectDir (projectId d)).

(** init, plan and apply exit with success. *)
Definition apply_succeeds (env : Env) (w : World) (d : Deployment) : Prop :=
  (∃ o, job_exec env w d 0 "terraform init" = Some (inl o)) ∧
  (∃ o, job_exec env w d 1 "terraform plan -out=tfplan" = Some (inl o)) ∧
  (∃ o, job_exec env w d 2 "terraform apply -auto-approve tfplan"
        = Some (inl o)).

(** init and plan exit with success; apply ends as [o] says. *)
Definition apply_ends (env : Env) (w : World) (d : Deployment)
  (o : option (Try string)) : Prop :=
  (∃ o, job_exec env w d 0 "terraform init" = Some (inl o)) ∧
  (∃ o, job_exec env w d 1 "terraform plan -out=tfplan" = Some (inl o)) ∧
  job_exec env w d 2 "terraform apply -auto-approve tfplan" = o.

(** The output query that follows apply prints [text]. *)
Definition output_query (env : Env) (w : World) (d : Deployment)
  (text : string) : Prop :=
  job_exec env w d 3 "terraform output -json" = Some (inl text).

(** The document a record in status deployed must be: its lifecycle fields
    are set and its deployment time is not negative. *)
Definition deployed_complete (d : Deployment) : Prop :=
  status d = deployed →
  is_Some (deployedAt d) ∧ ∃ t, deploymentTime d = Some t ∧ 0 ≤ t.

(** A clock that never goes back. *)
Definition monotone_clock (env : Env) : Prop :=
  ∀ m n : nat, (m ≤ n)%nat → clock env m ≤ clock env n.

(** The destroy step of a rollback started in [w] fails for [reason]: the
    project directory is missing, or terraform destroy exits with a failure. *)
Definition destroy_fails (env : Env) (w : World) (d : Deployment)
  (reason : string) : Prop :=
  (fs w !! ProjectDir (projectId d) = None ∧
   reason = "Project path does not exist") ∨
  (is_Some (fs w !! ProjectDir (projectId d)) ∧
   job_exec env w d 0 "terraform destroy -auto-approve" = Some (inr reason)).

(** The pre-flight check started in [w] rejects the description with the
    diagnostic [msg]: terraform init or terraform validate exits with a
    failure. *)
Definition validation_fails (env : Env) (w : World) (msg : string) : Prop :=
  exec_outcome env (exec_calls w) "terraform init" TempValidation
    = Some (inr msg) ∨
  ((∃ o, exec_outcome env (exec_calls w) "terraform init" TempValidation
         = Some (inl o)) ∧
   exec_outcome env (S (exec_calls w)) "terraform validate" TempValidation
     = Some (inr msg)).

(** The status the collection holds for [id], if it holds a record. *)
Definition status_of (w : World) (id : ObjectId) : option Status :=
  status <$> db w !! id.

(** A record of a demo project, and a world that holds it under id 0. *)
Definition demo (s : Status) : Deployment :=
  mkDeployment 5%nat 7%nat "demo" "aws" "resource {}" s (JObj []) [] None None
    0 None None.

Definition world_with (s : Status) (h : list Status) : World :=
  mkWorld {[ 0%nat := demo s ]} 1%nat
    {[ ProjectDir 5%nat := {[ "main.tf" := "resource {}" ]} ]}
    0%nat 0%nat {[ 0%nat := h ]}.

(** A well-formed request to deploy the demo project. *)
Definition demo_request : CreateRequest :=
  mkCreateRequest (Some 5%nat) (Some "demo") (Some "resource {}") (Some "aws")
    7%nat.

(** Every subprocess succeeds, the output query prints a warning line. *)
Definition env_output_garbled : Env :=
  mkEnv (λ _ command _,
           if String.eqb command "terraform output -json"
           then Some (inl "Warning: deprecated attribute")
           else Some (inl "ok"))
    steady_clock parse_only_empty_object.

(** terraform apply never exits. *)
Definition env_apply_hangs : Env :=
  mkEnv (λ _ command _,
           if String.eqb command "terraform apply -auto-approve tfplan"
           then None
           else Some (inl "ok"))
    steady_clock parse_only_empty_object.

(** terraform apply is killed. *)
Definition env_apply_killed : Env :=
  mkEnv (λ _ command _,
           if String.eqb command "terraform apply -auto-approve tfplan"
           then Some (inr "Command failed: terraform apply (SIGTERM)")
           else Some (inl "ok"))
    steady_clock parse_only_empty_object.

(** terraform validate rejects the description. *)
Definition env_invalid : Env :=
  mkEnv (λ _ command _,
           if String.eqb command "terraform validate"
           then Some (inr "Error: Unsupported block type")
           else Some (inl "ok"))
    steady_clock parse_only_empty_object.

(** terraform destroy fails. *)
Definition env_destroy_fails : Env :=
  mkEnv (λ _ command _,
           if String.eqb command "terraform destroy -auto-approve"
           then Some (inr "Error acquiring the state lock")
           else Some (inl "{}"))
    steady_clock parse_only_empty_object.

(** ** Protocols: what a program may do, whatever it is answered *)

Section Protocol.
Context {M : Type}.
(** The effects a program in mode [m] may perform. *)
Variable allow : M → ∀ X : Type, Eff X → Prop.
(** The answers a program in mode [m] may get, and the mode each one leaves
    it in. *)
Variable next : M → ∀ X : Type, Eff X → X → M → Prop.

Fixpoint proto {R : Type} (t : prog R) (m : M) : Prop :=
  match t with
  | Vis e k => allow m _ e ∧ ∀ x m', next m _ e x m' → proto (k x) m'
  | _ => True
  end.
End Protocol.

(** *** Every document written is complete

    The mode is the last clock reading of the program, if it made one. *)

Definition complete_allow (m : option Z) (X : Type) (e : Eff X) : Prop :=
  match e with
  | Insert _ d | Save _ d => deployed_complete d
  | _ => True
  end.

Definition complete_next (m : option Z) (X : Type) (e : Eff X)
  : X → option Z → Prop :=
  match e in Eff X return X → option Z → Prop with
  | Now => λ t m', (∀ lb, m = Some lb → lb ≤ t) ∧ m' = Some t
  | FindById _ => λ o m', (∀ d, o = Some d → deployed_complete d) ∧ m' = m
  | FindOne _ _ _ =>
      λ o m', (∀ id d, o = Some (id, d) → deployed_complete d) ∧ m' = m
  | _ => λ _ m', m' = m
  end.

(** No later clock reading is below the last reading of the program. *)
Definition clock_bound (env : Env) (m : option Z) (w : World) : Prop :=
  ∀ lb, m = Some lb → ∀ n, (clock_reads w ≤ n)%nat → lb ≤ clock env n.

Definition code_complete (env : Env) (w : World) {R : Type} (c : prog R)
  : Prop :=
  ∃ m, proto complete_allow complete_next c m ∧ clock_bound env m w.

Definition task_complete (env : Env) (w : World) (t : Task) : Prop :=
  match t with
  | Handling c => code_complete env w c
  | Working _ c => code_complete env w c
  | Hung _ => True
  end.

(** The invariant: the documents of the collection are complete and so is
    every document that a task will write. *)
Definition system_complete (env : Env) (s : System) : Prop :=
  (∀ id d, db (world s) !! id = Some d → deployed_complete d) ∧
  Forall (task_complete env (world s)) (tasks s).

(** *** No effect on the collection

    A program that only touches files, subprocesses, the parser and the
    clock. *)

Definition quiet_allow (m : unit) (X : Type) (e : Eff X) : Prop :=
  match e with
  | Mkdir _ | WriteFile _ _ _ | Rm _ | Access _ | Exec _ _ | JsonParse _
  | Now => True
  | _ => False
  end.

Definition quiet_next (m : unit) (X : Type) (e : Eff X) (x : X) (m' : unit)
  : Prop := True.

(** *** The protocol of a background job

    The mode of a job says what it has done to the record it works on. *)

Inductive Mode :=
| Fresh         (* a deploy job that has not saved yet *)
| Deploying     (* a deploy job after its first save *)
| RollingBack   (* a rollback job *)
| Gone          (* a save found that the record is no more *)
| Over.         (* the last save is done *)

#[global] Instance Mode_eq_dec : EqDecision Mode.
Proof. solve_decision. Defined.

Definition job_allow (id : ObjectId) (m : Mode) (X : Type) (e : Eff X)
  : Prop :=
  match e with
  | Save id' d =>
      id' = id ∧
      match m with
      | Fresh => status d = deploying
      | Deploying => status d = deployed ∨ status d = failed
      | RollingBack =>
          status d = rolling_back ∨ status d = rolled_back ∨ status d = failed
      | Gone => True
      | Over => False
      end
  | FindById id' => id' = id ∧ m ≠ Over
  | Mkdir _ | WriteFile _ _ _ | Rm _ | Access _ | Exec _ _ | JsonParse _
  | Now => m ≠ Over
  | _ => False
  end.

Definition after_save (m : Mode) (s : Status) : Mode :=
  match m, s with
  | Fresh, _ => Deploying
  | RollingBack, rolling_back => RollingBack
  | Gone, _ => Gone
  | _, _ => Over
  end.

(** The status of the record while a job is in mode [m]. *)
Definition expected_status (m : Mode) : option Status :=
  match m with
  | Fresh => Some pending
  | Deploying => Some deploying
  | RollingBack => Some rolling_back
  | _ => None
  end.

Definition job_next (id : ObjectId) (m : Mode) (X : Type) (e : Eff X)
  : X → Mode → Prop :=
  match e in Eff X return X → Mode → Prop with
  | Save _ d =>
      λ r m', match r with
              | inl _ => m ≠ Gone ∧ m' = after_save m (status d)
              | inr _ => m' = Gone
              end
  | FindById _ =>
      λ o m', m' = m ∧ ∀ d, o = Some d → Some (status d) = expected_status m
  | _ => λ _ m', m' = m
  end.

Definition mode_holds (m : Mode) (w : World) (id : ObjectId) : Prop :=
  match m with
  | Over => True
  | Gone => db w !! id = None
  | _ => db w !! id = None ∨ status_of w id = expected_status m
  end.

Definition job_follows (j : Job) (c : prog unit) (m : Mode) : Prop :=
  proto (job_allow (job_target j)) (job_next (job_target j)) c m.

Definition task_ok (w : World) (t : Task) : Prop :=
  match t with
  | Handling c => finished c = true
  | Working j c =>
      (job_target j < next_oid w)%nat ∧
      ∃ m, job_follows j c m ∧
           (finished c = false → mode_holds m w (job_target j))
  | Hung None => True
  | Hung (Some j) =>
      (job_target j < next_oid w)%nat ∧
      ∃ m, m ≠ Over ∧ mode_holds m w (job_target j)
  end.

(** The collection and its history agree, and every history is a walk
    through the state machine that starts in pending. *)
Definition world_ok (w : World) : Prop :=
  (∀ id, is_Some (db w !! id) → (id < next_oid w)%nat) ∧
  (∀ id, is_Some (history w !! id) → (id < next_oid w)%nat) ∧
  (∀ id d, db w !! id = Some d → last (hist_of w id) = Some (status d)) ∧
  (∀ id, follows_edges (hist_of w id) = true ∧
         (hist_of w id = [] ∨ head (hist_of w id) = Some pending)).

(** No two tasks run a job on the same record. *)
Definition exclusive (ts : list Task) : Prop :=
  ∀ i1 i2 t1 t2 j1 j2,
    ts !! i1 = Some t1 → ts !! i2 = Some t2 →
    active_job t1 = Some j1 → active_job t2 = Some j2 →
    job_target j1 = job_target j2 → i1 = i2.

Definition serial_ok (s : System) : Prop :=
  world_ok (world s) ∧ Forall (task_ok (world s)) (tasks s) ∧
  exclusive (tasks s).

(** What handling one request from start to end does to the collection. *)
Inductive served (w w' : World) : list Job → Prop :=
| served_quiet :
    (next_oid w ≤ next_oid w')%nat →
    (∀ id, db w' !! id = db w !! id ∨ db w' !! id = None) →
    served w w' []
| served_rollback id d d' :
    next_oid w' = next_oid w →
    db w !! id = Some d → status d = deployed →
    db w' = <[id := d']> (db w) → status d' = rolling_back →
    served w w' [JobRollback id]
| served_create id d :
    (next_oid w ≤ id)%nat → (id < next_oid w')%nat →
    db w' = <[id := d]> (db w) → status d = pending →
    served w w' [JobDeploy id].

(** ** Two rollback requests for the same project at the same time *)

(** terraform destroy fails when it is the seventh subprocess (the two of
    the validation and the four of the deployment came before it): of two
    destroys in one directory, the one that finds the state locked. *)
Definition env_state_locked : Env :=
  mkEnv (λ n command _,
           if String.eqb command "terraform destroy -auto-approve"
           then (if (n =? 6)%nat
                 then Some (inr "Error acquiring the state lock")
                 else Some (inl "Destroy complete!"))
           else Some (inl "{}"))
    steady_clock parse_only_empty_object.

(** The demo project is deployed: its request is served (task 0), and its
    job (task 1) takes its eighteen steps. *)
Definition deploy_demo : list Event :=
  Serve (PostDeployment demo_request) :: replicate 18 (Step 1).

(** Two rollback requests arrive (tasks 2 and 3); both look the record up
    before either saves it, then both save and both start a job (tasks 4
    and 5). *)
Definition rollback_twice : list Event :=
  [Arrive (PostRollback (Some 5%nat) 7%nat);
   Arrive (PostRollback (Some 5%nat) 7%nat);
   Step 2; Step 3;    (* findOne, findOne *)
   Step 2; Step 3;    (* save, save *)
   Step 2; Step 3].   (* setImmediate, setImmediate *)

(** Both jobs load the record, log, save and find the directory; the
    destroy of the second fails and it saves failed; then the destroy of the
    first succeeds and it saves rolled_back. *)
Definition both_rollbacks_run : list Event :=
  replicate 4 (Step 4) ++ replicate 7 (Step 5) ++ replicate 4 (Step 4).

(** *** Where rolled_back comes from (any interleaving) *)

(** deployed, and rolling_back after it, occur in the history. *)
Definition rolled_from_deployed (h : list Status) : Prop :=
  ∃ a b c, h = a ++ deployed :: b ++ rolling_back :: c.

(** Every rolled_back of the history has them before it. *)
Definition rollbacks_founded (h : list Status) : Prop :=
  ∀ h1 h2, h = h1 ++ rolled_back :: h2 → rolled_from_deployed h1.

(** What a task has found out about a record. *)
Inductive Claim :=
| Nothing
| Found (id : ObjectId)    (* it has been deployed *)
| Marked (id : ObjectId).  (* and set to rolling_back after that *)

#[global] Instance Claim_eq_dec : EqDecision Claim.
Proof. solve_decision. Defined.

Definition origin_allow (m : Claim) (X : Type) (e : Eff X) : Prop :=
  match e with
  | Save id d => status d = rolled_back → m = Marked id
  | Insert _ d => status d ≠ rolled_back
  | SetImmediate (JobRollback id) => m = Marked id
  | _ => True
  end.

Definition origin_next (m : Claim) (X : Type) (e : Eff X)
  : X → Claim → Prop :=
  match e in Eff X return X → Claim → Prop with
  | FindOne _ _ s =>
      λ o m', match o with
              | Some (id, d) =>
                  if decide (s = deployed)
                  then status d = deployed ∧ m' = Found id
                  else m' = m
              | None => m' = m
              end
  | Save id d =>
      λ r m', match r with
              | inl _ =>
                  if decide (m = Found id ∧ status d = rolling_back)
                  then m' = Marked id
                  else m' = m
              | inr _ => m' = m
              end
  | _ => λ _ m', m' = m
  end.

Definition claim_holds (m : Claim) (w : World) : Prop :=
  match m with
  | Nothing => True
  | Found id => deployed ∈ hist_of w id
  | Marked id => rolled_from_deployed (hist_of w id)
  end.

Definition code_founded (w : World) {R : Type} (c : prog R) : Prop :=
  ∃ m, proto origin_allow origin_next c m ∧ claim_holds m w.

Definition task_founded (w : World) (t : Task) : Prop :=
  match t with
  | Handling c => code_founded w c
  | Working _ c => code_founded w c
  | Hung _ => True
  end.

Definition world_founded (w : World) : Prop :=
  (∀ id, rollbacks_founded (hist_of w id)) ∧
  (∀ id d, db w !! id = Some d → last (hist_of w id) = Some (status d)).

Definition system_founded (s : System) : Prop :=
  world_founded (world s) ∧ Forall (task_founded (world s)) (tasks s).

(** The claim a job starts with. *)
Definition job_claim (j : Job) : Claim :=
  match j with
  | JobDeploy _ => Nothing
  | JobRollback id => Marked id
  end.

(** Histories only grow at their end. *)
Definition history_grows (w w' : World) : Prop :=
  ∀ id, hist_of w id `prefix_of` hist_of w' id.

(** One rollback request, served (task 2), and the eight steps of its job
    (task 3). *)
Definition rollback_once : list Event :=
  Serve (PostRollback (Some 5%nat) 7%nat) :: replicate 8 (Step 3).

(** ** More of the routes (src/server/routes/deployments.js) *)

(** The user a request is made by. *)
Definition request_user (r : Request) : ObjectId :=
  match r with
  | PostDeployment req => create_user req
  | PostRollback _ user => user
  | DeleteDeployment _ user => user
  end.

(** The fields of a document that no route and no job assigns after the
    document is created. *)
Definition identity (d : Deployment)
  : ObjectId * ObjectId * string * string * string * Z :=
  (projectId d, userId d, name d, provider d, terraformCode d, createdAt d).

(** The pre-flight check started in [w] passes: terraform init and
    terraform validate exit with success. *)
Definition validation_passes (env : Env) (w : World) : Prop :=
  (∃ o, exec_outcome env (exec_calls w) "terraform init" TempValidation
        = Some (inl o)) ∧
  (∃ o, exec_outcome env (S (exec_calls w)) "terraform validate"
          TempValidation = Some (inl o)).

(** [Deployment.findOne({ _id, userId })]: ids are unique, so this is the
    record with the id when the user owns it. *)
Definition findOwned (id user : ObjectId) : prog (option Deployment) :=
  Vis (FindById id)
    (λ found, Ret match found with
                  | Some d => if bool_decide (userId d = user) then Some d
                              else None
                  | None => None
                  end).

Inductive LogsResponse :=
| Logs404 (error_text : string)
| Logs500 (error_text : string) (message_text : string)
| Logs200 (entries : list LogEntry) (current : Status).

(** router.get('/:id/logs') (lines 170-195). *)
Definition getDeploymentLogs (id user : ObjectId) : prog LogsResponse :=
  try_catch
    (found <- findOwned id user ;;
     match found with
     | None => Ret (Logs404 "Deployment not found")
     | Some deployment =>
         Ret (Logs200 (logs deployment) (status deployment))
     end)
    (λ msg, Ret (Logs500 "Failed to fetch deployment logs" msg)).

(** What a caller hands to a CloudService method as [projectId]: the text of
    an ObjectId, as after [toString()], or the ObjectId object itself. *)
Inductive PathArg :=
| AsString (p : ObjectId)
| AsObject (p : ObjectId).

(** [path.join(this.terraformPath, projectId)]: path.join throws a TypeError
    for an argument that is not a string. *)
Definition path_type_error : string :=
  "The " +:+ q "path" +:+
  " argument must be of type string. Received an instance of ObjectId".

Definition path_join (a : PathArg) : prog Dir :=
  match a with
  | AsString p => Ret (ProjectDir p)
  | AsObject _ => Throw path_type_error
  end.

(** getCostEstimate (part_001 lines 168-192) for either kind of argument;
    [getCostEstimate p] is the case [AsString p]. *)
Definition getCostEstimate_of (a : PathArg) : prog CostEstimate :=
  try_catch
    (projectPath <- path_join a ;;
     present <- pathExists projectPath ;;
     if negb present then Ret (CostError "Project not found")
     else Ret mock_estimate)
    (λ msg, Ret (CostError msg)).

Inductive CostResponse :=
| Cost404 (error_text : string)
| Cost500 (error_text : string) (message_text : string)
| Cost200 (estimate : CostEstimate).

(** router.get('/:id/cost') (lines 291-327): the stored estimate, or one
    generated from [deployment.projectId], which is passed as it is. *)
Definition getDeploymentCost (id user : ObjectId) : prog CostResponse :=
  try_catch
    (found <- findOwned id user ;;
     match found with
     | None => Ret (Cost404 "Deployment not found")
     | Some deployment =>
         estimate <- match costEstimate deployment with
                     | Some stored => Ret stored
                     | None =>
                         (* If no stored estimate, generate one *)
                         try_catch
                           (getCostEstimate_of (AsObject (projectId deployment)))
                           (λ _, Ret (CostError "Cost estimation unavailable"))
                     end ;;
         Ret (Cost200 estimate)
     end)
    (λ msg, Ret (Cost500 "Failed to fetch cost estimate" msg)).

(** The three files that deployInfrastructure writes. *)
Definition workspace_files : list string :=
  ["main.tf"; "providers.tf"; "variables.tf"].

(** A status in which no job is at work on the record. *)
Definition rest_status (s : Status) : bool :=
  match s with
  | deployed | failed | rolled_back => true
  | _ => false
  end.

(** A program that starts no subprocess. *)
Definition noexec_allow (m : unit) (X : Type) (e : Eff X) : Prop :=
  match e with
  | Exec _ _ => False
  | _ => True
  end.

(** The responses that say that the request was carried out. *)
Definition is_success (r : Response) : bool :=
  match r with
  | Json201 _ _ _ | Json200 _ _ => true
  | _ => false
  end.

(** Every subprocess of the deployment started in [w] exits with success
    and the output of the query parses. *)
Definition deploy_succeeds (env : Env) (w : World) (d : Deployment) : Prop :=
  apply_succeeds env w d ∧
  ∃ text outs, output_query env w d text ∧ json_parse env text = inl outs.

(** An environment in which every subprocess exits with success and what
    the output query prints parses. *)
Definition env_succeeds (env : Env) : Prop :=
  (∀ n command dir, ∃ o, exec_outcome env n command dir = Some (inl o)) ∧
  (∀ n dir o,
     exec_outcome env n "terraform output -json" dir = Some (inl o) →
     ∃ outs, json_parse env o = inl outs).

(** *** Invariants of every interleaving

    A protocol [allow], [next] whose modes mean something in a world
    ([holds]) and an invariant of the world ([winv]); a task keeps them when
    what is left of its program follows the protocol from a mode that
    holds. *)

Section Keeps.
Context {M : Type}.
Variable allow : M → ∀ X : Type, Eff X → Prop.
Variable next : M → ∀ X : Type, Eff X → X → M → Prop.
Variable holds : M → World → Prop.
Variable winv : World → Prop.

Definition code_keeps (w : World) {R : Type} (c : prog R) : Prop :=
  ∃ m, proto allow next c m ∧ holds m w.

Definition task_keeps (w : World) (t : Task) : Prop :=
  match t with
  | Handling c => code_keeps w c
  | Working _ c => code_keeps w c
  | Hung _ => True
  end.

Definition system_keeps (s : System) : Prop :=
  winv (world s) ∧ Forall (task_keeps (world s)) (tasks s).
End Keeps.

(** *** The directory of a project, once made, stays

    The statuses that say that the description of the record has been
    applied. *)
Definition applied (s : Status) : bool :=
  match s with
  | deployed | rolling_back | rolled_back => true
  | _ => false
  end.

(** The mode lists the projects whose directory the program knows to
    exist: it made it, it found it, or it loaded a record that was applied. *)
Definition note_found (d : Deployment) (m : list ObjectId) : list ObjectId :=
  if applied (status d) then projectId d :: m else m.

Definition note_dir (d : Dir) (m : list ObjectId) : list ObjectId :=
  match d with
  | ProjectDir p => p :: m
  | TempValidation => m
  end.

Definition kept_allow (m : list ObjectId) (X : Type) (e : Eff X) : Prop :=
  match e with
  | Insert _ d | Save _ d => applied (status d) = true → projectId d ∈ m
  | Rm d => d = TempValidation
  | _ => True
  end.

Definition kept_next (m : list ObjectId) (X : Type) (e : Eff X)
  : X → list ObjectId → Prop :=
  match e in Eff X return X → list ObjectId → Prop with
  | Mkdir d => λ _ m', m' = note_dir d m
  | Access d =>
      λ r m', match r with
              | inl _ => m' = note_dir d m
              | inr _ => m' = m
              end
  | FindById _ =>
      λ o m', match o with
              | Some d => m' = note_found d m
              | None => m' = m
              end
  | FindOne _ _ s =>
      λ o m', match o with
              | Some (_, d) => status d = s ∧ m' = note_found d m
              | None => m' = m
              end
  | _ => λ _ m', m' = m
  end.

Definition dirs_exist (m : list ObjectId) (w : World) : Prop :=
  ∀ p, p ∈ m → is_Some (fs w !! ProjectDir p).

Definition applied_have_dir (w : World) : Prop :=
  ∀ id d, db w !! id = Some d → applied (status d) = true →
          is_Some (fs w !! ProjectDir (projectId d)).

Definition dirs_stay (w w' : World) : Prop :=
  ∀ p, is_Some (fs w !! ProjectDir p) → is_Some (fs w' !! ProjectDir p).

(** *** Every stored record passes the schema

    A program may save a document that passes the schema; the documents it
    loads do. *)
Definition valid_allow (m : unit) (X : Type) (e : Eff X) : Prop :=
  match e with
  | Save _ d => schema_valid d = true
  | _ => True
  end.

Definition valid_next (m : unit) (X : Type) (e : Eff X) : X → unit → Prop :=
  match e in Eff X return X → unit → Prop with
  | FindById _ => λ o _, ∀ d, o = Some d → schema_valid d = true
  | FindOne _ _ _ => λ o _, ∀ id d, o = Some (id, d) → schema_valid d = true
  | _ => λ _ _, True
  end.

Definition records_valid (w : World) : Prop :=
  ∀ id d, db w !! id = Some d → schema_valid d = true.

(** *** The log of a record only grows

    [d'] is a later state of the document [d]: the same identity, and a log
    that continues the log of [d]. *)
Definition grown (d d' : Deployment) : Prop :=
  identity d' = identity d ∧ logs d `prefix_of` logs d'.

(** The mode of a job is the copy of the record that it holds: the document
    it loaded or saved last. What it saves is a later state of its copy. *)
Definition track_allow (id : ObjectId) (m : option Deployment) (X : Type)
  (e : Eff X) : Prop :=
  match e with
  | Save _ d' => ∃ d0, m = Some d0 ∧ grown d0 d'
  | _ => True
  end.

Definition track_next (id : ObjectId) (m : option Deployment) (X : Type)
  (e : Eff X) : X → option Deployment → Prop :=
  match e in Eff X return X → option Deployment → Prop with
  | FindById _ => λ o m', m' = o
  | Save _ d' =>
      λ r m', match r with
              | inl _ => m' = Some d'
              | inr _ => m' = m
              end
  | _ => λ _ m', m' = m
  end.

(** The copy of a job is the stored record, as long as there is one. *)
Definition copy_holds (m : option Deployment) (w : World) (id : ObjectId)
  : Prop :=
  ∀ d0, m = Some d0 → db w !! id = None ∨ db w !! id = Some d0.

Definition task_tracks (w : World) (t : Task) : Prop :=
  match t with
  | Working j c =>
      ∃ m, proto (track_allow (job_target j)) (track_next (job_target j)) c m ∧
           (finished c = false → copy_holds m w (job_target j))
  | _ => True
  end.


(** * Properties *)

(** ** Running composed programs *)

Lemma run_from_bind {A B : Type} env (m : prog A) (f : A → prog B) w js :
  run_from env (bind m f) w js =
  let r := run_from env m w js in
  match outcome r with
  | Returned a => run_from env (f a) (final r) (spawned r)
  | Thrown msg => mkRun (final r) (Thrown msg) (spawned r)
  | Blocked => mkRun (final r) Blocked (spawned r)
  end.
Proof.
  revert w js. induction m as [a|msg|X e k IH]; intros w js; cbn; try done.
  destruct (handle env e w) as [w' [x|]]; cbn; [apply IH | done].
Qed.

Lemma run_from_try_catch {A : Type} env (m : prog A) (h : string → prog A)
  w js :
  run_from env (try_catch m h) w js =
  let r := run_from env m w js in
  match outcome r with
  | Returned a => mkRun (final r) (Returned a) (spawned r)
  | Thrown msg => run_from env (h msg) (final r) (spawned r)
  | Blocked => mkRun (final r) Blocked (spawned r)
  end.
Proof.
  revert w js. induction m as [a|msg|X e k IH]; intros w js; cbn; try done.
  destruct (handle env e w) as [w' [x|]]; cbn; [apply IH | done].
Qed.

Lemma run_from_try_bind {A B : Type} env (m : prog A) (f : A → prog B)
  (h : string → prog B) w js :
  run_from env (try_catch (bind m f) h) w js =
  let r := run_from env m w js in
  match outcome r with
  | Returned a => run_from env (try_catch (f a) h) (final r) (spawned r)
  | Thrown msg => run_from env (h msg) (final r) (spawned r)
  | Blocked => mkRun (final r) Blocked (spawned r)
  end.
Proof.
  revert w js. induction m as [a|msg|X e k IH]; intros w js; cbn; try done.
  destruct (handle env e w) as [w' [x|]]; cbn; [apply IH | done].
Qed.

(** Symbolic execution of [run_from], one effect after the other. *)
Ltac run_eval :=
  cbn [run run_from bind try_catch await perform handle spawn_of push_log
       pathExists cleanupDirectory generateProviderConfig
       generateVariablesFile negb
       db fs next_oid exec_calls clock_reads history
       with_db with_fs persist hist_of default from_option Datatypes.id
       final outcome spawned app
       deploy_success deploy_outputs rollback_success rollback_message
       valid validation_error
       projectId userId name provider terraformCode status outputs logs
       costEstimate deploymentTime createdAt deployedAt rolledBackAt
       set_status set_outputs set_logs set_costEstimate set_deploymentTime
       set_deployedAt set_rolledBackAt].

Ltac run_steps :=
  repeat first
    [ progress run_eval
    | progress unfold hist_of
    | rewrite lookup_insert_eq
    | match goal with
      | H : _ !! _ = _ |- _ => rewrite H
      | H : exec_outcome _ _ _ _ = _ |- _ => rewrite H
      | H : json_parse _ _ = _ |- _ => rewrite H
      end ].

(** ** The programs on concrete inputs *)

Example round_seconds_halves :
  round_seconds 1499 = 1 ∧ round_seconds 1500 = 2 ∧
  round_seconds (-500) = 0 ∧ round_seconds (-501) = -1.
Proof. by vm_compute. Qed.

Example by_provider_ignores_case :
  by_provider "AWS" "a" "g" "z" = "a" ∧ by_provider "Gcp" "a" "g" "z" = "g" ∧
  by_provider "oracle" "a" "g" "z" = "".
Proof. by vm_compute. Qed.

Example demo_request_accepted :
  outcome (run env_all_ok (createDeployment demo_request) empty_world)
    = Returned (Json201 0%nat (demo pending)
                  "Deployment started successfully") ∧
  spawned (run env_all_ok (createDeployment demo_request) empty_world)
    = [JobDeploy 0%nat].
Proof. by vm_compute. Qed.

Example demo_deploys_and_rolls_back :
  hist_of (world (exec_events env_all_ok (deploy_demo ++ rollback_once)
                    init_system)) 0%nat
    = [pending; deploying; deployed; rolling_back; rolled_back].
Proof. by vm_compute. Qed.

Example valid_description_releases_workspace :
  fs (final (run env_all_ok (validateInfrastructure "resource {}" "aws")
               empty_world)) !! TempValidation = None.
Proof. by vm_compute. Qed.

(** ** The deploying -> deployed transition *)

Lemma round_seconds_nonneg ms : 0 ≤ ms → 0 ≤ round_seconds ms.
Proof. intros H. unfold round_seconds. apply Z.div_pos; lia. Qed.

Ltac open_job :=
  unfold processDeployment, processRollback, deployInfrastructure,
    rollbackDeployment, getCostEstimate.

Ltac job_hyps :=
  unfold apply_succeeds, apply_ends, output_query, job_exec in *;
  cbn [Nat.add] in *;
  repeat match goal with
         | H : _ ∧ _ |- _ => destruct H
         | H : ∃ _, _ |- _ => destruct H
         end.

(** The run of processDeployment when every subprocess succeeds and the
    output parses. *)
Lemma processDeployment_deployed_run env w id d text outs :
  db w !! id = Some d →
  apply_succeeds env w d →
  output_query env w d text →
  json_parse env text = inl outs →
  let c := clock_reads w in
  let r := run env (processDeployment id) w in
  outcome r = Returned () ∧ spawned r = [] ∧
  db (final r) !! id =
    Some (set_costEstimate mock_estimate
      (set_logs
         ((logs d ++
           [mkLog "Starting deployment process..." info (clock env (S c))]) ++
          [mkLog "Deployment completed successfully" success
             (clock env (S (S (S (S c)))))])
      (set_deploymentTime
         (round_seconds (clock env (S (S (S c))) - clock env c))
      (set_deployedAt (clock env (S (S c)))
      (set_outputs outs (set_status deployed d)))))) ∧
  hist_of (final r) id
    = record_status deployed (record_status deploying (hist_of w id)).
Proof.
  intros Hd Happly Hout Hparse c r. subst r c. job_hyps.
  open_job. run_steps.
  destruct (fs w !! ProjectDir (projectId d)) eqn:Hfs; run_steps.
  all: done.
Qed.

(** The run of processDeployment when deployInfrastructure throws because
    the output does not parse. *)
Lemma processDeployment_unparsed_run env w id d text msg :
  db w !! id = Some d →
  apply_succeeds env w d →
  output_query env w d text →
  json_parse env text = inr msg →
  let c := clock_reads w in
  let r := run env (processDeployment id) w in
  outcome r = Returned () ∧ spawned r = [] ∧
  db (final r) !! id =
    Some (set_logs
            ((logs d ++
              [mkLog "Starting deployment process..." info (clock env (S c))])
             ++ [mkLog ("Deployment failed: " +:+ "Deployment failed: " +:+ msg)
                   error (clock env (S (S c)))])
            (set_status failed d)) ∧
  hist_of (final r) id
    = record_status failed (record_status deploying (hist_of w id)).
Proof.
  intros Hd Happly Hout Hparse c r. subst r c. job_hyps.
  open_job. run_steps.
  destruct (fs w !! ProjectDir (projectId d)) eqn:Hfs; run_steps.
  all: done.
Qed.

(** The run of processDeployment when terraform apply ends in failure. *)
Lemma processDeployment_apply_failed_run env w id d msg :
  db w !! id = Some d →
  apply_ends env w d (Some (inr msg)) →
  let c := clock_reads w in
  let r := run env (processDeployment id) w in
  outcome r = Returned () ∧ spawned r = [] ∧
  db (final r) !! id =
    Some (set_logs
            ((logs d ++
              [mkLog "Starting deployment process..." info (clock env (S c))])
             ++ [mkLog ("Deployment failed: " +:+ "Deployment failed: " +:+ msg)
                   error (clock env (S (S c)))])
            (set_status failed d)) ∧
  hist_of (final r) id
    = record_status failed (record_status deploying (hist_of w id)).
Proof.
  intros Hd Happly c r. subst r c. job_hyps.
  open_job. run_steps.
  destruct (fs w !! ProjectDir (projectId d)) eqn:Hfs; run_steps.
  all: done.
Qed.

(** The run of processDeployment when terraform apply never exits. *)
Lemma processDeployment_apply_hangs_run env w id d :
  db w !! id = Some d →
  apply_ends env w d None →
  let c := clock_reads w in
  let r := run env (processDeployment id) w in
  outcome r = Blocked ∧ spawned r = [] ∧
  db (final r) !! id =
    Some (set_logs
            (logs d ++
              [mkLog "Starting deployment process..." info (clock env (S c))])
            (set_status deploying d)) ∧
  hist_of (final r) id = record_status deploying (hist_of w id).
Proof.
  intros Hd Happly c r. subst r c. job_hyps.
  open_job. run_steps.
  destruct (fs w !! ProjectDir (projectId d)) eqn:Hfs; run_steps.
  all: done.
Qed.

(** ** Rollback whose destroy step fails *)

Lemma processRollback_failed_run env w id d reason :
  db w !! id = Some d →
  destroy_fails env w d reason →
  let c := clock_reads w in
  let r := run env (processRollback id) w in
  outcome r = Returned () ∧ spawned r = [] ∧
  db (final r) !! id =
    Some (set_logs
            ((logs d ++
              [mkLog "Starting rollback process..." info (clock env c)])
             ++ [mkLog ("Rollback failed: " +:+ "Rollback failed: " +:+ reason)
                   error (clock env (S c))])
            (set_status failed d)) ∧
  hist_of (final r) id
    = record_status failed (record_status (status d) (hist_of w id)).
Proof.
  intros Hd Hfail c r. subst r c.
  destruct Hfail as [[Hfs ->]|[[g Hfs] Hex]]; job_hyps;
    open_job; run_steps; done.
Qed.

(** ** Deleting a record *)

Lemma deleteDeployment_run env w id user :
  run env (deleteDeployment id user) w =
  match db w !! id with
  | Some d =>
      if bool_decide (userId d = user)
      then mkRun (with_db (delete id (db w)) w)
             (Returned (Json200 "Deployment deleted successfully" None)) []
      else mkRun w (Returned (Json404 "Deployment not found")) []
  | None => mkRun w (Returned (Json404 "Deployment not found")) []
  end.
Proof.
  unfold deleteDeployment. run_eval.
  destruct (db w !! id) as [d|]; [|done].
  destruct (bool_decide (userId d = user)); done.
Qed.

(** ** The cost estimate *)

Lemma getCostEstimate_run env w project :
  run env (getCostEstimate project) w =
  mkRun w
    (Returned match fs w !! ProjectDir project with
              | Some _ => mock_estimate
              | None => CostError "Project not found"
              end) [].
Proof.
  unfold getCostEstimate. run_eval.
  destruct (fs w !! ProjectDir project); done.
Qed.

(** ** Validation *)

(** A validation that fails: what it returns and what it leaves behind. *)
Lemma validateInfrastructure_fails_run env w code provider msg :
  validation_fails env w msg →
  let r := run env (validateInfrastructure code provider) w in
  outcome r = Returned (mkValidation false None (Some msg)) ∧
  spawned r = [] ∧
  is_Some (fs (final r) !! TempValidation) ∧
  db (final r) = db w ∧ history (final r) = history w ∧
  next_oid (final r) = next_oid w ∧ clock_reads (final r) = clock_reads w ∧
  ∀ p, fs (final r) !! ProjectDir p = fs w !! ProjectDir p.
Proof.
  intros Hfail r. subst r. unfold validateInfrastructure.
  destruct Hfail as [Hinit|[[o Hinit] Hval]];
    run_eval; destruct (fs w !! TempValidation) eqn:Hfs; run_steps;
    repeat split; try done; intros p; by rewrite !lookup_insert_ne.
Qed.

(** A validation that passes: the validation directory is removed. *)
Lemma validateInfrastructure_passes_run env w code provider o1 o2 :
  exec_outcome env (exec_calls w) "terraform init" TempValidation
    = Some (inl o1) →
  exec_outcome env (S (exec_calls w)) "terraform validate" TempValidation
    = Some (inl o2) →
  let r := run env (validateInfrastructure code provider) w in
  outcome r
    = Returned (mkValidation true (Some "Terraform configuration is valid")
                  None) ∧
  spawned r = [] ∧
  fs (final r) !! TempValidation = None ∧
  db (final r) = db w ∧ history (final r) = history w ∧
  next_oid (final r) = next_oid w ∧ clock_reads (final r) = clock_reads w ∧
  ∀ p, fs (final r) !! ProjectDir p = fs w !! ProjectDir p.
Proof.
  intros Hinit Hval r. subst r. unfold validateInfrastructure.
  run_eval; destruct (fs w !! TempValidation) eqn:Hfs; run_steps;
    repeat split; try done; try apply lookup_delete_eq;
    intros p; by rewrite lookup_delete_ne, ?lookup_insert_ne.
Qed.

Lemma createDeployment_invalid_run env w req code provider msg :
  body_terraformCode req = Some code → code ≠ "" →
  body_provider req = Some provider → provider ≠ "" →
  validation_fails env w msg →
  let r := run env (createDeployment req) w in
  outcome r = Returned (Json400 "Invalid Terraform configuration" (Some msg)) ∧
  spawned r = [] ∧
  db (final r) = db w ∧ history (final r) = history w ∧
  ∀ p, fs (final r) !! ProjectDir p = fs w !! ProjectDir p.
Proof.
  intros Hcode Hne Hprov Hne' Hfail r. subst r.
  destruct (validateInfrastructure_fails_run env w code provider msg Hfail)
    as (Ho & Hs & _ & Hdb & Hh & _ & _ & Hfs).
  unfold createDeployment. rewrite Hcode, Hprov.
  cbn [falsy default from_option Datatypes.id].
  apply String.eqb_neq in Hne, Hne'. rewrite Hne, Hne'. cbn [orb].
  unfold run in *. rewrite run_from_try_catch, run_from_bind.
  cbv zeta. rewrite Ho. cbn [valid negb validation_error run_from outcome].
  rewrite Hs. done.
Qed.

(** ** One request, one job *)

(** C2, as amended: a submitted deployment whose description fails the
    pre-flight validation is answered at once with status 400, "Invalid
    Terraform configuration" and the diagnostic as details; no deployment
    record is created or changed, no job is started and no project workspace
    is created or changed. *)
Theorem invalid_description_rejected env w req code provider msg :
  body_terraformCode req = Some code → code ≠ "" →
  body_provider req = Some provider → provider ≠ "" →
  validation_fails env w msg →
  outcome (run env (createDeployment req) w)
    = Returned (Json400 "Invalid Terraform configuration" (Some msg)) ∧
  spawned (run env (createDeployment req) w) = [] ∧
  db (final (run env (createDeployment req) w)) = db w ∧
  ∀ p, fs (final (run env (createDeployment req) w)) !! ProjectDir p
       = fs w !! ProjectDir p.
Proof.
  intros Hcode Hne Hprov Hne' Hfail.
  destruct (createDeployment_invalid_run env w req code provider msg)
    as (Ho & Hs & Hdb & _ & Hfs); done.
Qed.

Lemma invalid_description_rejected_witness :
  validation_fails env_invalid empty_world "Error: Unsupported block type" ∧
  outcome (run env_invalid (createDeployment demo_request) empty_world)
    = Returned (Json400 "Invalid Terraform configuration"
                  (Some "Error: Unsupported block type")).
Proof.
  assert (validation_fails env_invalid empty_world
            "Error: Unsupported block type") as H.
  { right. split; [by exists "ok" | reflexivity]. }
  split; [exact H|].
  apply (invalid_description_rejected env_invalid empty_world demo_request
           "resource {}" "aws" "Error: Unsupported block type");
    [reflexivity | discriminate | reflexivity | discriminate | exact H].
Defined.

(** C2, as stated, fails: after a submission whose description fails
    validation the collection holds no record at all, so none in status
    failed with an error entry in its log. *)
Lemma invalid_description_leaves_no_record :
  validation_fails env_invalid empty_world "Error: Unsupported block type" ∧
  db (final (run env_invalid (createDeployment demo_request) empty_world)) = ∅ ∧
  ¬ ∃ id d,
      db (final (run env_invalid (createDeployment demo_request) empty_world))
        !! id = Some d ∧
      status d = failed ∧ ∃ entry, entry ∈ logs d ∧ type entry = error.
Proof.
  split; [right; split; [by exists "ok" | reflexivity]|].
  assert (db (final (run env_invalid (createDeployment demo_request)
                       empty_world)) = ∅) as H by reflexivity.
  split; [exact H|]. intros (id & d & Hd & _). rewrite H in Hd.
  by rewrite lookup_empty in Hd.
Qed.

(** C5, as amended: when init, plan and apply succeed but the text printed by
    the output query is rejected by JSON.parse, the parse failure is a
    failure of the deployment: the job ends, the record goes from deploying
    to failed with an error log entry that carries the parse error, and
    outputs, deployedAt and deploymentTime stay as they were. *)
Theorem unparsed_output_is_failure env w id d text msg :
  db w !! id = Some d →
  apply_succeeds env w d →
  output_query env w d text →
  json_parse env text = inr msg →
  outcome (run env (processDeployment id) w) = Returned () ∧
  ∃ d' t,
    db (final (run env (processDeployment id) w)) !! id = Some d' ∧
    status d' = failed ∧
    last (logs d')
      = Some (mkLog ("Deployment failed: " +:+ "Deployment failed: " +:+ msg)
                error t) ∧
    outputs d' = outputs d ∧ deployedAt d' = deployedAt d ∧
    deploymentTime d' = deploymentTime d ∧
    hist_of (final (run env (processDeployment id) w)) id
      = record_status failed (record_status deploying (hist_of w id)).
Proof.
  intros Hd Happly Hout Hparse.
  destruct (processDeployment_unparsed_run env w id d text msg)
    as (Ho & _ & Hdb & Hh); [done..|].
  split; [exact Ho|]. eexists _, _. split; [exact Hdb|].
  cbn [status outputs deployedAt deploymentTime logs set_logs set_status].
  by rewrite last_snoc.
Qed.

Lemma unparsed_output_is_failure_witness :
  status_of (final (run env_output_garbled (processDeployment 0%nat)
                      (world_with pending [pending]))) 0%nat = Some failed.
Proof.
  destruct (unparsed_output_is_failure env_output_garbled
              (world_with pending [pending]) 0%nat (demo pending)
              "Warning: deprecated attribute"
              "Unexpected token in JSON at position 0")
    as (_ & d' & t & Hd' & Hs & _);
    [reflexivity
    | repeat split; by exists "ok"
    | reflexivity
    | reflexivity
    | unfold status_of; rewrite Hd'; cbn [fmap option_fmap option_map];
      by rewrite Hs].
Defined.

(** C5, as stated, fails: apply succeeds, the output query prints a line
    that does not parse, and the deployment ends failed, not deployed. *)
Lemma unparsed_output_fails_deployment :
  apply_succeeds env_output_garbled (world_with pending [pending])
    (demo pending) ∧
  output_query env_output_garbled (world_with pending [pending])
    (demo pending) "Warning: deprecated attribute" ∧
  json_parse env_output_garbled "Warning: deprecated attribute"
    = inr "Unexpected token in JSON at position 0" ∧
  status_of (final (run env_output_garbled (processDeployment 0%nat)
                      (world_with pending [pending]))) 0%nat = Some failed ∧
  status_of (final (run env_output_garbled (processDeployment 0%nat)
                      (world_with pending [pending]))) 0%nat ≠ Some deployed.
Proof.
  split; [repeat split; by exists "ok"|].
  split; [reflexivity|]. split; [reflexivity|].
  assert (status_of (final (run env_output_garbled (processDeployment 0%nat)
                      (world_with pending [pending]))) 0%nat = Some failed)
    as H by (vm_compute; reflexivity).
  split; [exact H|]. rewrite H. discriminate.
Qed.








(** C8 does not hold of the code: when terraform validate rejects the
    description, validateInfrastructure answers valid = false and the
    validation directory, with the files written into it, is still there. *)
Theorem failed_validation_keeps_workspace :
  outcome (run env_invalid (validateInfrastructure "resource {" "aws")
             empty_world)
    = Returned (mkValidation false None
                  (Some "Error: Unsupported block type")) ∧
  fs (final (run env_invalid (validateInfrastructure "resource {" "aws")
               empty_world)) !! TempValidation
    = Some {[ "main.tf" := "resource {";
              "providers.tf" := aws_provider_config ]}.
Proof.
  split; [reflexivity|]. vm_compute. reflexivity.
Qed.

(** C10: for every project whose directory exists the cost estimate is the
    same fixed breakdown, monthly estimate $150.00 in USD with the same four
    services, whatever the world holds; when the directory does not exist
    the result is the error object "Project not found"; in neither case
    does the call throw, wait or change anything. *)
Theorem cost_estimate_is_fixed env w project :
  run env (getCostEstimate project) w =
  mkRun w
    (Returned
       (if bool_decide (is_Some (fs w !! ProjectDir project))
        then CostBreakdown "$150.00"
               [("EC2 Instances", "$80.00"); ("RDS Database", "$40.00");
                ("S3 Storage", "$20.00"); ("Load Balancer", "$10.00")]
               "USD"
        else CostError "Project not found"))
    [].
Proof.
  rewrite getCostEstimate_run.
  destruct (fs w !! ProjectDir project) eqn:H.
  - rewrite bool_decide_eq_true_2 by eauto. done.
  - rewrite bool_decide_eq_false_2; [done|]. by intros [? ?].
Qed.

(** ** The collection *)

Lemma find_one_Some (m : gmap ObjectId Deployment) P id d :
  find_one m P = Some (id, d) → m !! id = Some d ∧ P d = true.
Proof.
  unfold find_one. intros H.
  assert ((id, d) ∈ filter (λ p : ObjectId * Deployment, P p.2)
                      (map_to_list m)) as Hin.
  { destruct (filter _ _) as [|p l]; [done|].
    cbn in H. injection H as ->. apply list_elem_of_here. }
  apply list_elem_of_filter in Hin as [HP Hin].
  apply elem_of_map_to_list in Hin. split; [done|].
  cbn in HP. by destruct (P d).
Qed.

Lemma matches_spec project user s d :
  matches project user s d = true ↔
  projectId d = project ∧ userId d = user ∧ status d = s.
Proof.
  unfold matches. rewrite !andb_true_iff, !bool_decide_eq_true. tauto.
Qed.

(** ** Every document written is complete *)

Ltac walk_eval :=
  cbn [proto bind try_catch await perform push_log pathExists
       cleanupDirectory generateProviderConfig generateVariablesFile negb
       deploy_success deploy_outputs rollback_success rollback_message
       valid validation_error] in *.

Ltac complete_leaf :=
  unfold deployed_complete in *;
  cbn [status deployedAt deploymentTime set_status set_outputs set_logs
       set_costEstimate set_deploymentTime set_deployedAt set_rolledBackAt]
    in *;
  repeat match goal with
         | H : ∀ lb : Z, Some ?a = Some lb → _ |- _ =>
             specialize (H _ eq_refl)
         | H : ∀ d0 : Deployment, Some ?d = Some d0 → _ |- _ =>
             specialize (H _ eq_refl)
         | H : ∀ (i : ObjectId) (d0 : Deployment), Some ?p = Some (i, d0) → _
           |- _ => specialize (H _ _ eq_refl)
         end;
  first
    [ done
    | intros _; split;
      [ eauto
      | eexists; split; [reflexivity | apply round_seconds_nonneg; lia] ] ].

Ltac complete_walk :=
  repeat
    (walk_eval; cbn [complete_allow complete_next] in *;
     match goal with
     | |- True => exact I
     | |- _ ∧ _ => split
     | |- ∀ _, _ => intros
     | H : _ ∧ _ |- _ => destruct H
     | H : ?m' = _ |- _ => is_var m'; subst m'
     | |- proto _ _ ?t _ =>
         match t with
         | context [match ?x with _ => _ end] => is_var x; destruct x
         end
     | |- deployed_complete _ => complete_leaf
     end).

Lemma processDeployment_complete id :
  proto complete_allow complete_next (processDeployment id) None.
Proof. open_job. complete_walk. Qed.

Lemma processRollback_complete id :
  proto complete_allow complete_next (processRollback id) None.
Proof. open_job. complete_walk. Qed.

Lemma job_prog_complete j :
  proto complete_allow complete_next (job_prog j) None.
Proof. destruct j; unfold job_prog; open_job; complete_walk. Qed.

Lemma handler_complete r :
  proto complete_allow complete_next (handler r) None.
Proof.
  destruct r as [req|[project|] user|id user];
    unfold handler, createDeployment, rollback, deleteDeployment,
      validateInfrastructure.
  - destruct (falsy (body_terraformCode req) || falsy (body_provider req));
      [done|].
    destruct (body_projectId req), (falsy (body_projectName req));
      complete_walk.
  - complete_walk.
  - complete_walk.
  - complete_walk.
Qed.

Lemma clock_bound_later env m w w' :
  (clock_reads w ≤ clock_reads w')%nat →
  clock_bound env m w → clock_bound env m w'.
Proof. intros Hle H lb Hm n Hn. apply (H lb Hm). lia. Qed.

(** One effect keeps the collection complete and answers as the protocol
    expects. *)
Lemma complete_handle env {X} (e : Eff X) w m :
  monotone_clock env →
  (∀ id d, db w !! id = Some d → deployed_complete d) →
  clock_bound env m w →
  complete_allow m X e →
  (∀ id d, db (handle env e w).1 !! id = Some d → deployed_complete d) ∧
  (clock_reads w ≤ clock_reads (handle env e w).1)%nat ∧
  ∀ x, (handle env e w).2 = Some x →
       ∃ m', complete_next m X e x m' ∧ clock_bound env m' (handle env e w).1.
Proof.
  intros Hmono Hdb Hm Hallow.
  destruct e; cbn [handle complete_allow complete_next] in *.
  - (* NewObjectId *)
    cbn. split; [done|]. split; [done|]. intros x _. by exists m.
  - (* Insert *)
    destruct (negb (schema_valid d)); [|destruct (db w !! id) eqn:Hid]; cbn.
    1,2: split; [done|]; split; [done|]; intros x _; by exists m.
    split; [|split; [done|intros x _; by exists m]].
    intros id' d'. rewrite lookup_insert. case_decide; [|by apply Hdb].
    by intros [= <-].
  - (* Save *)
    destruct (db w !! id) eqn:Hid; cbn.
    2: split; [done|]; split; [done|]; intros x _; by exists m.
    split; [|split; [done|intros x _; by exists m]].
    intros id' d'. rewrite lookup_insert. case_decide; [|by apply Hdb].
    by intros [= <-].
  - (* FindById *)
    cbn. split; [done|]. split; [done|]. intros x [= <-]. exists m.
    split; [|done]. split; [|done]. intros d. apply Hdb.
  - (* FindOne *)
    cbn. split; [done|]. split; [done|]. intros x [= <-]. exists m.
    split; [|done]. split; [|done]. intros id d Hf.
    apply find_one_Some in Hf as [Hd _]. by eapply Hdb.
  - (* FindOneAndDelete *)
    destruct (db w !! id) as [d|] eqn:Hid;
      [destruct (bool_decide (userId d = user))|]; cbn.
    2,3: split; [done|]; split; [done|]; intros x _; by exists m.
    split; [|split; [done|intros x _; by exists m]].
    intros id' d'. rewrite lookup_delete. case_decide; [done|]. by apply Hdb.
  - (* Mkdir *)
    destruct (fs w !! d); cbn;
      (split; [done|]; split; [done|]; intros x _; by exists m).
  - (* WriteFile *)
    destruct (fs w !! d); cbn;
      (split; [done|]; split; [done|]; intros x _; by exists m).
  - (* Rm *)
    cbn. split; [done|]. split; [done|]. intros x _. by exists m.
  - (* Access *)
    destruct (fs w !! d); cbn;
      (split; [done|]; split; [done|]; intros x _; by exists m).
  - (* Exec *)
    cbn. split; [done|]. split; [done|]. intros x _. by exists m.
  - (* JsonParse *)
    cbn. split; [done|]. split; [done|]. intros x _. by exists m.
  - (* Now *)
    cbn. split; [done|]. split; [lia|]. intros x [= <-].
    exists (Some (clock env (clock_reads w))). split.
    + split; [|done]. intros lb Hlb. by apply (Hm lb Hlb).
    + intros lb [= <-] n Hn. apply Hmono. cbn in Hn. lia.
  - (* SetImmediate *)
    cbn. split; [done|]. split; [done|]. intros x _. by exists m.
Qed.

Lemma task_complete_later env w w' t :
  (clock_reads w ≤ clock_reads w')%nat →
  task_complete env w t → task_complete env w' t.
Proof.
  intros Hle. destruct t as [c|j c|j]; cbn; [| |done];
    intros (m & Hp & Hm); exists m; eauto using clock_bound_later.
Qed.

Lemma start_jobs_complete env w js :
  Forall (task_complete env w) (start_jobs js).
Proof.
  unfold start_jobs. apply Forall_fmap, Forall_forall. intros j _.
  exists None. split; [apply job_prog_complete | by intros lb].
Qed.

(** A program that follows the protocol, run to its end. *)
Lemma complete_run env {R} (c : prog R) w js m :
  monotone_clock env →
  (∀ id d, db w !! id = Some d → deployed_complete d) →
  clock_bound env m w →
  proto complete_allow complete_next c m →
  (∀ id d, db (final (run_from env c w js)) !! id = Some d →
           deployed_complete d) ∧
  (clock_reads w ≤ clock_reads (final (run_from env c w js)))%nat.
Proof.
  intros Hmono. revert w js m.
  induction c as [r|msg|X e k IH]; intros w js m Hdb Hm Hp; [done..|].
  destruct Hp as [Hallow Hnext].
  destruct (complete_handle env e w m Hmono Hdb Hm Hallow)
    as (Hdb' & Hle & Hx).
  cbn [run_from]. destruct (handle env e w) as [w' [x|]]; cbn in *; [|done].
  destruct (Hx x eq_refl) as (m' & Hn & Hm').
  destruct (IH x w' (js ++ spawn_of e) m' Hdb' Hm' (Hnext x m' Hn))
    as [? ?].
  split; [done|lia].
Qed.

Lemma complete_step_prog env {R} (c : prog R) w :
  monotone_clock env →
  (∀ id d, db w !! id = Some d → deployed_complete d) →
  code_complete env w c →
  (∀ id d, db (step_prog env c w).1.1 !! id = Some d → deployed_complete d) ∧
  (clock_reads w ≤ clock_reads (step_prog env c w).1.1)%nat ∧
  ∀ c', (step_prog env c w).1.2 = Some c' →
        code_complete env (step_prog env c w).1.1 c'.
Proof.
  intros Hmono Hdb (m & Hp & Hm).
  destruct c as [r|msg|X e k]; cbn [step_prog fst snd].
  1,2: split; [done|]; split; [done|]; intros c' [= <-]; by exists m.
  destruct Hp as [Hallow Hnext].
  destruct (complete_handle env e w m Hmono Hdb Hm Hallow)
    as (Hdb' & Hle & Hx).
  destruct (handle env e w) as [w' [x|]]; cbn in *.
  - split; [done|]. split; [done|]. intros c' [= <-].
    destruct (Hx x eq_refl) as (m' & Hn & Hm'). exists m'. eauto.
  - split; [done|]. split; [done|]. done.
Qed.

Lemma system_complete_event env s ev :
  monotone_clock env →
  system_complete env s → system_complete env (apply_event env s ev).
Proof.
  intros Hmono [Hdb Hts]. destruct ev as [r|i|r]; cbn [apply_event].
  - split; [done|]. cbn. apply Forall_app. split; [done|].
    apply Forall_singleton. exists None.
    split; [apply handler_complete | by intros lb].
  - destruct (tasks s !! i) as [t|] eqn:Hi; [|done].
    assert (task_complete env (world s) t) as Ht
      by (eapply Forall_lookup_1; eauto).
    destruct t as [c|j c|j]; cbn [step_task].
    + destruct (complete_step_prog env c (world s) Hmono Hdb Ht)
        as (Hdb' & Hle & Hc).
      destruct (step_prog env c (world s)) as [[w' [c'|]] js];
        cbn in *; (split; [done|]); apply Forall_app;
        (split; [|apply start_jobs_complete]);
        (apply Forall_insert;
         [ eapply Forall_impl; [exact Hts|]; intros t0;
           by apply task_complete_later
         | cbn; auto ]).
    + destruct (complete_step_prog env c (world s) Hmono Hdb Ht)
        as (Hdb' & Hle & Hc).
      destruct (step_prog env c (world s)) as [[w' [c'|]] js];
        cbn in *; (split; [done|]); apply Forall_app;
        (split; [|apply start_jobs_complete]);
        (apply Forall_insert;
         [ eapply Forall_impl; [exact Hts|]; intros t0;
           by apply task_complete_later
         | cbn; auto ]).
    + cbn. split; [done|]. rewrite app_nil_r. by apply Forall_insert.
  - assert (proto complete_allow complete_next (handler r) None) as Hp
      by apply handler_complete.
    destruct (complete_run env (handler r) (world s) [] None) as [Hdb' Hle];
      [done|done|by intros lb|done|].
    unfold run. cbn. split; [done|]. apply Forall_app. split.
    { eapply Forall_impl; [exact Hts|]. intros t.
      by apply task_complete_later. }
    apply Forall_cons. split; [|apply start_jobs_complete].
    destruct (outcome _); cbn; [exists None; split; [done|by intros lb]..|done].
Qed.

Lemma system_complete_events env evs s :
  monotone_clock env →
  system_complete env s → system_complete env (exec_events env evs s).
Proof.
  intros Hmono. revert s. induction evs as [|ev evs IH]; intros s Hs; [done|].
  cbn. apply IH. by apply system_complete_event.
Qed.

Lemma system_complete_init env : system_complete env init_system.
Proof. split; [intros id d; cbn; by rewrite lookup_empty | constructor]. Qed.



(** ** Background jobs follow their protocol *)

Ltac job_leaf :=
  repeat match goal with
         | H : ∀ d0 : Deployment, Some ?d = Some d0 → _ |- _ =>
             specialize (H _ eq_refl); cbn in H
         end;
  first [ done | congruence | naive_solver ].

Ltac job_walk :=
  repeat
    (walk_eval;
     cbn [job_allow job_next after_save expected_status job_target
          status set_status set_outputs set_logs set_costEstimate
          set_deploymentTime set_deployedAt set_rolledBackAt] in *;
     match goal with
     | |- True => exact I
     | H : ?a ≠ ?a |- _ => by destruct H
     | H : ∀ d0 : Deployment, Some ?d = Some d0 → Some (status d0) = _
       |- _ => specialize (H _ eq_refl); injection H as H
     | H : status ?d = _ |- context [status ?d] => rewrite H
     | |- _ ∧ _ => split
     | |- ∀ _, _ => intros
     | H : _ ∧ _ |- _ => destruct H
     | H : ?m' = _ |- _ => is_var m'; subst m'
     | |- proto _ _ ?t _ =>
         match t with
         | context [match ?x with _ => _ end] => is_var x; destruct x
         end
     | |- _ = _ => job_leaf
     | |- _ ≠ _ => job_leaf
     | |- _ ∨ _ => job_leaf
     end).

Lemma deploy_job_follows id :
  job_follows (JobDeploy id) (job_prog (JobDeploy id)) Fresh.
Proof. unfold job_follows, job_prog. open_job. job_walk. Qed.

Lemma rollback_job_follows id :
  job_follows (JobRollback id) (job_prog (JobRollback id)) RollingBack.
Proof. unfold job_follows, job_prog. open_job. job_walk. Qed.

Lemma job_follows_active j {X} (e : Eff X) k m :
  job_follows j (Vis e k) m → m ≠ Over.
Proof.
  intros [Hallow _] ->. destruct e; cbn in Hallow; tauto.
Qed.

(** ** Histories *)

Lemma last_record_status s h : last (record_status s h) = Some s.
Proof.
  unfold record_status. case_bool_decide; [done|]. apply last_snoc.
Qed.

Lemma head_record_status s h :
  head (record_status s h) = match h with [] => Some s | a :: _ => Some a end.
Proof.
  unfold record_status. case_bool_decide as H; destruct h; try done.
Qed.

Lemma follows_edges_snoc h a b :
  follows_edges h = true → last h = Some a → transition a b = true →
  follows_edges (h ++ [b]) = true.
Proof.
  induction h as [|x [|y h] IH]; intros Hh Hl Ht; [done| |].
  - cbn in Hl. injection Hl as ->. cbn. by rewrite Ht.
  - cbn [follows_edges] in Hh. apply andb_true_iff in Hh as [Hxy Hh].
    change ((x :: y :: h) ++ [b]) with (x :: (y :: h) ++ [b]).
    change (follows_edges (x :: (y :: h) ++ [b]))
      with (transition x y && follows_edges ((y :: h) ++ [b])).
    rewrite Hxy. cbn [andb]. apply IH; [done| |done].
    by rewrite last_cons_cons in Hl.
Qed.

Lemma follows_edges_record s h a :
  follows_edges h = true → last h = Some a →
  a = s ∨ transition a s = true →
  follows_edges (record_status s h) = true.
Proof.
  intros Hh Hl Hs. unfold record_status. case_bool_decide as Hc; [done|].
  destruct Hs as [->|Ht]; [done|]. by eapply follows_edges_snoc.
Qed.

(** In a walk, what stands right before a status is a predecessor of it. *)
Lemma follows_edges_before h1 b h2 :
  follows_edges (h1 ++ b :: h2) = true → h1 ≠ [] →
  ∃ h0 a, h1 = h0 ++ [a] ∧ transition a b = true.
Proof.
  induction h1 as [|x [|y h1] IH]; intros Hh Hne; [done| |].
  - exists [], x. split; [done|]. cbn in Hh.
    by apply andb_true_iff in Hh as [? _].
  - change (follows_edges ((x :: y :: h1) ++ b :: h2))
      with (transition x y && follows_edges ((y :: h1) ++ b :: h2)) in Hh.
    apply andb_true_iff in Hh as [_ Hh].
    destruct (IH Hh) as (h0 & a & Heq & Ht); [done|].
    exists (x :: h0), a. split; [|done]. cbn. by rewrite Heq.
Qed.

(** ** The invariant of the world *)

Lemma hist_of_persist id d w id' :
  hist_of (persist id d w) id' =
  if decide (id = id') then record_status (status d) (hist_of w id)
  else hist_of w id'.
Proof.
  unfold hist_of at 1. cbn [persist history]. rewrite lookup_insert.
  by case_decide.
Qed.

Lemma db_persist id d w id' :
  db (persist id d w) !! id' =
  if decide (id = id') then Some d else db w !! id'.
Proof. cbn [persist db]. apply lookup_insert. Qed.

Lemma world_ok_persist w id d d0 :
  world_ok w → db w !! id = Some d0 →
  status d0 = status d ∨ transition (status d0) (status d) = true →
  world_ok (persist id d w).
Proof.
  intros (Hk & Hh & Hl & Hw) Hd0 Hs.
  assert (id < next_oid w)%nat as Hid by (apply Hk; eauto).
  split; [|split; [|split]].
  - intros id'. rewrite db_persist. case_decide; [by subst|]. apply Hk.
  - intros id'. cbn [persist history next_oid]. rewrite lookup_insert.
    case_decide; [by subst|]. apply Hh.
  - intros id' d'. rewrite db_persist, hist_of_persist.
    case_decide; [|apply Hl]. intros [= <-]. apply last_record_status.
  - intros id'. rewrite hist_of_persist. case_decide; [|apply Hw].
    specialize (Hl id d0 Hd0). destruct (Hw id) as [Hf Hhd]. split.
    + eapply follows_edges_record; eauto.
    + right. rewrite head_record_status.
      destruct (hist_of w id); [done|]. by destruct Hhd.
Qed.

Lemma world_ok_insert w (id : ObjectId) d :
  world_ok w → db w !! id = None → history w !! id = None →
  (id < next_oid w)%nat → status d = pending →
  world_ok (persist id d w).
Proof.
  intros (Hk & Hh & Hl & Hw) Hd0 Hh0 Hid Hs.
  assert (hist_of w id = []) as Hnil by (unfold hist_of; by rewrite Hh0).
  split; [|split; [|split]].
  - intros id'. rewrite db_persist. case_decide; [by subst|]. apply Hk.
  - intros id'. cbn [persist history next_oid]. rewrite lookup_insert.
    case_decide; [by subst|]. apply Hh.
  - intros id' d'. rewrite db_persist, hist_of_persist.
    case_decide; [|apply Hl]. intros [= <-]. apply last_record_status.
  - intros id'. rewrite hist_of_persist. case_decide; [|apply Hw].
    rewrite Hnil, Hs. by split; [|right].
Qed.

(** The invariant only reads the collection, the history and the id
    counter. *)
Lemma world_ok_same w w' :
  db w' = db w → history w' = history w →
  (next_oid w ≤ next_oid w')%nat →
  world_ok w → world_ok w'.
Proof.
  intros Hdb Hh Hn (Hk & Hh' & Hl & Hw). unfold world_ok, hist_of.
  rewrite Hdb, Hh. split; [|split; [|split]]; try done.
  - intros id H. specialize (Hk id H). lia.
  - intros id H. specialize (Hh' id H). lia.
Qed.

Lemma world_ok_delete w id :
  world_ok w → world_ok (with_db (delete id (db w)) w).
Proof.
  intros (Hk & Hh & Hl & Hw). split; [|split; [|split]]; try done.
  - intros id'. cbn. rewrite lookup_delete. case_decide; [by intros [? ?]|].
    apply Hk.
  - intros id' d. cbn [with_db db]. rewrite lookup_delete.
    case_decide; [done|]. apply Hl.
Qed.

Lemma world_ok_empty : world_ok empty_world.
Proof.
  split; [|split; [|split]].
  - intros id. cbn. rewrite lookup_empty. by intros [? ?].
  - intros id. cbn. rewrite lookup_empty. by intros [? ?].
  - intros id d. cbn. by rewrite lookup_empty.
  - intros id. unfold hist_of. cbn. rewrite lookup_empty. cbn. by split; [|left].
Qed.

(** ** One effect of a job *)

Lemma mode_holds_same m w w' id :
  db w' !! id = db w !! id → mode_holds m w id → mode_holds m w' id.
Proof.
  intros H. destruct m; cbn; unfold status_of; rewrite ?H; done.
Qed.

Lemma mode_holds_gone m w w' id :
  m ≠ Over → db w' !! id = None → mode_holds m w id → mode_holds m w' id.
Proof. intros Hm H _. destruct m; cbn; auto. Qed.

Ltac frame_effect Hok Hm :=
  cbn [fst snd db next_oid history];
  split; [by apply (world_ok_same _ _ eq_refl eq_refl (le_n _)) in Hok|];
  split; [done|]; split; [done|]; split; [done|]; split; [done|].

Lemma job_handle env (id : ObjectId) {X} (e : Eff X) w m :
  world_ok w → mode_holds m w id → job_allow id m X e →
  world_ok (handle env e w).1 ∧
  next_oid (handle env e w).1 = next_oid w ∧
  spawn_of e = [] ∧
  (∀ id', id' ≠ id → db (handle env e w).1 !! id' = db w !! id') ∧
  (db w !! id = None → db (handle env e w).1 !! id = None) ∧
  match (handle env e w).2 with
  | Some x => ∃ m', job_next id m X e x m' ∧ mode_holds m' (handle env e w).1 id
  | None => mode_holds m (handle env e w).1 id
  end.
Proof.
  intros Hok Hm Hallow.
  destruct e; cbn [job_allow] in Hallow; try done; cbn [handle job_next].
  - (* Save *)
    destruct Hallow as [-> Hs].
    destruct (db w !! id) as [d0|] eqn:Hd0; cbn [fst snd].
    + assert (status d0 = status d ∨ transition (status d0) (status d) = true
              ∧ m ≠ Gone) as Hstep.
      { destruct m; cbn in Hm, Hs; unfold status_of in Hm;
          rewrite ?Hd0 in Hm; cbn in Hm; try done;
          destruct Hm as [|[= Hm]]; try done; rewrite Hm;
          [ rewrite Hs; by right
          | destruct Hs as [->| ->]; by right
          | destruct Hs as [->|[->| ->]]; [by left|by right..] ]. }
      assert (m ≠ Gone) as Hng.
      { intros ->. cbn in Hm. congruence. }
      split; [eapply world_ok_persist; eauto; tauto|].
      split; [done|]. split; [done|].
      split; [intros id' Hne; rewrite db_persist; by case_decide|].
      split; [done|].
      exists (after_save m (status d)). split; [done|].
      assert (status_of (persist id d w) id = Some (status d)) as Hst.
      { unfold status_of. rewrite db_persist. by case_decide. }
      destruct m; cbn [job_allow] in Hs; try done.
      * right. rewrite Hst. by rewrite Hs.
      * destruct Hs as [Hs|[Hs|Hs]]; rewrite Hs; cbn; try done.
        right. by rewrite Hst, Hs.
    + split; [done|]. split; [done|]. split; [done|]. split; [done|].
      split; [done|]. exists Gone. done.
  - (* FindById *)
    destruct Hallow as [-> Hne]. cbn [fst snd].
    split; [done|]. split; [done|]. split; [done|]. split; [done|].
    split; [done|]. exists m. split; [|done]. split; [done|].
    intros d Hd. destruct m; cbn in Hm |- *; unfold status_of in Hm;
      rewrite ?Hd in Hm; cbn in Hm; try done; by destruct Hm.
  - (* Mkdir *)
    destruct (fs w !! d); frame_effect Hok Hm; by exists m.
  - (* WriteFile *)
    destruct (fs w !! d); frame_effect Hok Hm; by exists m.
  - (* Rm *)
    frame_effect Hok Hm; by exists m.
  - (* Access *)
    destruct (fs w !! d); frame_effect Hok Hm; by exists m.
  - (* Exec *)
    frame_effect Hok Hm. destruct (exec_outcome _ _ _ _); [by exists m|done].
  - (* JsonParse *)
    frame_effect Hok Hm; by exists m.
  - (* Now *)
    frame_effect Hok Hm; by exists m.
Qed.

(** ** Programs that leave the collection alone *)

Lemma quiet_run env {R} (c : prog R) w js m :
  proto quiet_allow quiet_next c m →
  db (final (run_from env c w js)) = db w ∧
  history (final (run_from env c w js)) = history w ∧
  next_oid (final (run_from env c w js)) = next_oid w ∧
  spawned (run_from env c w js) = js.
Proof.
  revert w js m. induction c as [r|msg|X e k IH]; intros w js m Hp; [done..|].
  destruct Hp as [Hallow Hnext]. cbn [run_from].
  assert (db (handle env e w).1 = db w ∧
          history (handle env e w).1 = history w ∧
          next_oid (handle env e w).1 = next_oid w ∧ spawn_of e = [])
    as (Hdb & Hh & Hn & Hs).
  { destruct e; cbn in Hallow; try done; cbn [handle];
      try destruct (fs w !! d); done. }
  destruct (handle env e w) as [w' [x|]]; cbn [fst] in *; [|done].
  destruct (IH x w' (js ++ spawn_of e) tt (Hnext x tt I))
    as (-> & -> & -> & ->).
  rewrite Hs, app_nil_r. done.
Qed.

Lemma validateInfrastructure_quiet code provider :
  proto quiet_allow quiet_next (validateInfrastructure code provider) tt.
Proof.
  unfold validateInfrastructure.
  repeat (walk_eval; cbn [quiet_allow quiet_next] in *;
          match goal with
          | |- True => exact I
          | |- _ ∧ _ => split
          | |- ∀ _, _ => intros
          | |- proto _ _ ?t _ =>
              match t with
              | context [match ?x with _ => _ end] => is_var x; destruct x
              end
          end).
Qed.

(** ** Requests handled from start to end *)

Lemma deleteDeployment_served env w id user :
  world_ok w →
  world_ok (final (run env (deleteDeployment id user) w)) ∧
  served w (final (run env (deleteDeployment id user) w))
    (spawned (run env (deleteDeployment id user) w)).
Proof.
  intros Hok. rewrite deleteDeployment_run.
  destruct (db w !! id) as [d|] eqn:Hd;
    [destruct (bool_decide (userId d = user))|]; cbn [final spawned].
  - split; [by apply world_ok_delete|]. apply served_quiet; [done|].
    intros id'. cbn. rewrite lookup_delete. case_decide; auto.
  - split; [done|]. apply served_quiet; auto.
  - split; [done|]. apply served_quiet; auto.
Qed.

Lemma rollback_served env w project user :
  world_ok w →
  world_ok (final (run env (rollback project user) w)) ∧
  served w (final (run env (rollback project user) w))
    (spawned (run env (rollback project user) w)).
Proof.
  intros Hok. unfold rollback. destruct project as [project|].
  2: { run_eval. split; [done|]. apply served_quiet; auto. }
  run_eval.
  destruct (find_one (db w) (matches project user deployed))
    as [[id d]|] eqn:Hf.
  2: { run_eval. split; [done|]. apply served_quiet; auto. }
  apply find_one_Some in Hf as [Hd Hm].
  apply matches_spec in Hm as (_ & _ & Hs).
  run_steps. split.
  - eapply (world_ok_persist w id (set_status rolling_back d)); eauto.
    right. cbn. by rewrite Hs.
  - eapply served_rollback; eauto.
Qed.

Lemma createDeployment_served env w req :
  world_ok w →
  world_ok (final (run env (createDeployment req) w)) ∧
  served w (final (run env (createDeployment req) w))
    (spawned (run env (createDeployment req) w)).
Proof.
  intros Hok. unfold createDeployment.
  destruct (falsy (body_terraformCode req) || falsy (body_provider req)).
  { run_eval. split; [done|]. apply served_quiet; auto. }
  unfold run. rewrite run_from_try_bind. cbv zeta.
  destruct (quiet_run env
              (validateInfrastructure (default "" (body_terraformCode req))
                 (default "" (body_provider req))) w [] tt
              (validateInfrastructure_quiet _ _)) as (Hdb & Hh & Hn & Hs).
  set (r0 := run_from env (validateInfrastructure _ _) w []) in *.
  assert (world_ok (final r0)) as Hok0.
  { eapply world_ok_same; [exact Hdb|exact Hh|lia|done]. }
  assert (served w (final r0) []) as Hquiet.
  { apply served_quiet; [lia|]. intros id. left. by rewrite Hdb. }
  destruct (outcome r0) as [v|msg|]; rewrite ?Hs.
  2,3: by run_eval.
  destruct (valid v); cbn [negb]; [|by run_eval].
  clearbody r0. destruct r0 as [w0 o0 s0]. cbn [final] in *. clear o0 s0 Hs.
  pose proof Hok0 as (Hk & Hhk & Hl & Hw).
  assert (∀ id : ObjectId, (next_oid w0 ≤ id)%nat → db w0 !! id = None)
    as Hfresh.
  { intros id Hge. destruct (db w0 !! id) eqn:E; [|done].
    assert (id < next_oid w0)%nat by (apply Hk; eauto). lia. }
  assert (∀ id : ObjectId, (next_oid w0 ≤ id)%nat → history w0 !! id = None)
    as Hhfresh.
  { intros id Hge. destruct (history w0 !! id) eqn:E; [|done].
    assert (id < next_oid w0)%nat by (apply Hhk; eauto). lia. }
  destruct (body_projectId req) as [p|],
    (falsy (body_projectName req)); run_eval;
    (match goal with
     | |- context [negb (schema_valid ?d)] => destruct (negb (schema_valid d))
     end;
     [ run_eval; split;
       [ apply (world_ok_same w0); [done|done|cbn; lia|done]
       | apply served_quiet; [cbn; lia|]; intros id; left; cbn;
         by rewrite Hdb ]
     | rewrite Hfresh by lia; run_eval; split;
       [ apply world_ok_insert;
         [ apply (world_ok_same w0); [done|done|cbn; lia|done]
         | cbn; apply Hfresh; lia
         | cbn; apply Hhfresh; lia
         | cbn; lia
         | done ]
       | match goal with
         | |- served _ (persist ?id ?d _) _ =>
             apply (served_create _ _ id d); cbn; [lia|lia| |done];
             by rewrite Hdb
         end ] ]).
Qed.

(** ** The invariant of the system when requests are handled one at a time *)

Lemma active_job_mode w t j :
  task_ok w t → active_job t = Some j →
  (job_target j < next_oid w)%nat ∧
  ∃ m, m ≠ Over ∧ mode_holds m w (job_target j).
Proof.
  destruct t as [c|j' c|[j'|]]; cbn; try done.
  - intros (Hlt & m & Hp & Hm). destruct c as [r|msg|X e k]; cbn; try done.
    intros [= <-]. split; [done|]. exists m. split; [|by apply Hm].
    by eapply job_follows_active.
  - intros (Hlt & m & Hne & Hm) [= <-]. eauto.
Qed.

(** A job at work on a record: the record is pending, deploying or
    rolling_back, if it still exists. *)
Lemma mode_holds_status m w id d :
  m ≠ Over → mode_holds m w id → db w !! id = Some d →
  status d = pending ∨ status d = deploying ∨ status d = rolling_back.
Proof.
  intros Hne Hm Hd. destruct m; cbn in Hm; unfold status_of in Hm;
    rewrite ?Hd in Hm; cbn in Hm; try done; destruct Hm as [|[= ->]]; auto;
    done.
Qed.

Lemma mode_served w w' js m id :
  world_ok w → served w w' js →
  m ≠ Over → (id < next_oid w)%nat →
  mode_holds m w id → mode_holds m w' id.
Proof.
  intros Hok Hs Hne Hlt Hm. destruct Hs as [Hn Hdb|id0 d d' Hn Hd Hst Hdb Hst'
                                               |id0 d Hge Hlt' Hdb Hst].
  - destruct (Hdb id) as [H|H];
      [by eapply mode_holds_same | by eapply mode_holds_gone].
  - destruct (decide (id0 = id)) as [->|Hneq].
    + destruct (mode_holds_status m w id d Hne Hm Hd) as [H|[H|H]];
        congruence.
    + eapply mode_holds_same; [|done]. rewrite Hdb. by apply lookup_insert_ne.
  - eapply mode_holds_same; [|done]. rewrite Hdb. apply lookup_insert_ne. lia.
Qed.

Lemma served_next_oid w w' js :
  world_ok w → served w w' js → (next_oid w ≤ next_oid w')%nat.
Proof. intros Hok [ | | ]; intros; lia. Qed.

Lemma task_ok_served w w' js t :
  world_ok w → served w w' js → task_ok w t → task_ok w' t.
Proof.
  intros Hok Hs. pose proof (served_next_oid w w' js Hok Hs) as Hn.
  destruct t as [c|j c|[j|]]; cbn; try done.
  - intros (Hlt & m & Hp & Hm). split; [lia|]. exists m. split; [done|].
    intros Hf. eapply mode_served; eauto.
    destruct c; try done. by eapply job_follows_active.
  - intros (Hlt & m & Hne & Hm). split; [lia|]. exists m. split; [done|].
    eapply mode_served; eauto.
Qed.

Lemma start_jobs_ok w w' js :
  world_ok w → world_ok w' → served w w' js →
  Forall (task_ok w') (start_jobs js).
Proof.
  intros Hok Hok' [Hn Hdb|id d d' Hn Hd Hst Hdb Hst'|id d Hge Hlt Hdb Hst];
    cbn; [done|..]; apply Forall_singleton; cbn.
  - split.
    + rewrite Hn. destruct Hok as (Hk & _). apply Hk. eauto.
    + exists RollingBack. split; [apply rollback_job_follows|].
      intros _. right. unfold status_of. rewrite Hdb, lookup_insert_eq.
      cbn. by rewrite Hst'.
  - split; [done|]. exists Fresh. split; [apply deploy_job_follows|].
    intros _. right. unfold status_of. rewrite Hdb, lookup_insert_eq.
    cbn. by rewrite Hst.
Qed.

(** No job is at work on the record that a request starts a job for. *)
Lemma served_target_idle w w' js ts t j j' :
  world_ok w → served w w' js → Forall (task_ok w) ts →
  t ∈ ts → active_job t = Some j → j' ∈ js →
  job_target j ≠ job_target j'.
Proof.
  intros Hok Hs Hts Hin Ha Hj' Heq.
  assert (task_ok w t) as Ht by (eapply Forall_forall; eauto).
  destruct (active_job_mode w t j Ht Ha) as (Hlt & m & Hne & Hm).
  destruct Hs as [Hn Hdb|id d d' Hn Hd Hst Hdb Hst'|id d Hge Hlt' Hdb Hst].
  - by apply not_elem_of_nil in Hj'.
  - apply list_elem_of_singleton in Hj' as ->. cbn in Heq. rewrite Heq in Hm.
    destruct (mode_holds_status m w id d Hne Hm Hd) as [H|[H|H]]; congruence.
  - apply list_elem_of_singleton in Hj' as ->. cbn in Heq. lia.
Qed.

Lemma active_job_started j : active_job (Working j (job_prog j)) = Some j.
Proof. by destruct j. Qed.

Lemma start_jobs_lookup js k t :
  start_jobs js !! k = Some t →
  ∃ j, js !! k = Some j ∧ t = Working j (job_prog j).
Proof.
  unfold start_jobs. intros H.
  change (map (λ j, Working j (job_prog j)) js)
    with ((λ j, Working j (job_prog j)) <$> js) in H.
  rewrite list_lookup_fmap in H. destruct (js !! k) as [j|]; [|done].
  injection H as <-. eauto.
Qed.

Lemma exclusive_serve ts h js :
  exclusive ts → active_job h = None → (length js ≤ 1)%nat →
  (∀ t j j', t ∈ ts → active_job t = Some j → j' ∈ js →
             job_target j ≠ job_target j') →
  exclusive (ts ++ h :: start_jobs js).
Proof.
  intros Hex Hh Hlen Hidle i1 i2 t1 t2 j1 j2 H1 H2 Ha1 Ha2 Heq.
  assert (∀ i t j, (ts ++ h :: start_jobs js) !! i = Some t →
                   active_job t = Some j →
                   (ts !! i = Some t) ∨
                   (i = S (length ts) ∧ j ∈ js)) as Hcase.
  { intros i t j Hi Ha. apply lookup_app_Some in Hi as [Hi|[Hge Hi]];
      [by left|right].
    destruct (i - length ts)%nat as [|k] eqn:Hk; cbn in Hi.
    - injection Hi as <-. congruence.
    - apply start_jobs_lookup in Hi as (j' & Hj' & ->).
      rewrite active_job_started in Ha. injection Ha as <-.
      assert (k < length js)%nat by (eapply lookup_lt_Some; eauto).
      split; [lia|]. eapply list_elem_of_lookup_2; eauto. }
  destruct (Hcase i1 t1 j1 H1 Ha1) as [H1'|[-> Hj1]],
           (Hcase i2 t2 j2 H2 Ha2) as [H2'|[-> Hj2]]; [eauto| | |done].
  - exfalso. eapply (Hidle t1 j1 j2); eauto.
    eapply list_elem_of_lookup_2; eauto.
  - exfalso. eapply (Hidle t2 j2 j1); eauto.
    eapply list_elem_of_lookup_2; eauto.
Qed.

Lemma served_jobs w w' js : served w w' js → (length js ≤ 1)%nat.
Proof. intros [ | | ]; intros; cbn; lia. Qed.

Lemma serial_ok_serve env s r :
  serial_ok s → serial_ok (apply_event env s (Serve r)).
Proof.
  intros (Hok & Hts & Hex). cbn [apply_event].
  assert (world_ok (final (run env (handler r) (world s))) ∧
          served (world s) (final (run env (handler r) (world s)))
            (spawned (run env (handler r) (world s)))) as [Hok' Hs].
  { destruct r as [req|project user|id user]; cbn [handler].
    - by apply createDeployment_served.
    - by apply rollback_served.
    - by apply deleteDeployment_served. }
  set (o := run env (handler r) (world s)) in *.
  assert (active_job (finish_handler (outcome o)) = None) as Hh
    by (by destruct (outcome o)).
  split; [done|]. split; cbn [world tasks].
  - apply Forall_app. split.
    + eapply Forall_impl; [exact Hts|]. intros t.
      by apply (task_ok_served _ _ _ _ Hok Hs).
    + apply Forall_cons. split; [by destruct (outcome o)|].
      by apply (start_jobs_ok (world s)).
  - apply exclusive_serve; [done|done|by eapply served_jobs|].
    intros t j j' Hin Ha Hj'.
    by apply (served_target_idle (world s) (final o) (spawned o) (tasks s) t).
Qed.

Lemma task_ok_other w w' t :
  next_oid w' = next_oid w →
  (∀ j, active_job t = Some j →
        db w' !! job_target j = db w !! job_target j) →
  task_ok w t → task_ok w' t.
Proof.
  intros Hn Hdb. destruct t as [c|j c|[j|]]; cbn in *; try done.
  - intros (Hlt & m & Hp & Hm). split; [lia|]. exists m. split; [done|].
    intros Hf. rewrite Hf in Hdb.
    eapply mode_holds_same; [by apply Hdb|by apply Hm].
  - intros (Hlt & m & Hne & Hm). split; [lia|]. exists m. split; [done|].
    eapply mode_holds_same; [by apply Hdb|done].
Qed.

Lemma exclusive_insert ts i t t' :
  exclusive ts → ts !! i = Some t →
  (∀ j, active_job t' = Some j → active_job t = Some j) →
  exclusive (<[i := t']> ts).
Proof.
  intros Hex Hi Hsame i1 i2 t1 t2 j1 j2 H1 H2 Ha1 Ha2 Heq.
  assert (∀ i0 t0 j0, <[i := t']> ts !! i0 = Some t0 →
                      active_job t0 = Some j0 →
                      ∃ t0', ts !! i0 = Some t0' ∧ active_job t0' = Some j0)
    as Hback.
  { intros i0 t0 j0 H0 Ha0. destruct (decide (i = i0)) as [<-|Hne].
    - rewrite list_lookup_insert_eq in H0
        by (eapply lookup_lt_Some; eauto).
      injection H0 as <-. eauto.
    - rewrite list_lookup_insert_ne in H0 by done. eauto. }
  destruct (Hback i1 t1 j1 H1 Ha1) as (t1' & H1' & Ha1').
  destruct (Hback i2 t2 j2 H2 Ha2) as (t2' & H2' & Ha2').
  eapply Hex; eauto.
Qed.

Lemma step_task_idle env t w :
  active_job t = None ∨ (∃ j, t = Hung j) →
  match t with Handling c => finished c = true | _ => True end →
  step_task env t w = (w, t, []).
Proof.
  intros Hidle Hh. destruct t as [c|j c|j]; cbn in *; [| |done].
  - by destruct c.
  - destruct Hidle as [H|[? ?]]; [|done]. by destruct c.
Qed.

Lemma serial_ok_step env s i :
  serial_ok s → serial_ok (apply_event env s (Step i)).
Proof.
  intros (Hok & Hts & Hex). cbn [apply_event].
  destruct (tasks s !! i) as [t|] eqn:Hi; [|done].
  assert (task_ok (world s) t) as Ht by (eapply Forall_lookup_1; eauto).
  assert (∀ w' t', next_oid w' = next_oid (world s) →
            world_ok w' →
            (∀ id', id' ≠ match active_job t with
                           | Some j => job_target j | None => 0%nat end →
                    db w' !! id' = db (world s) !! id') →
            task_ok w' t' →
            (∀ j, active_job t' = Some j → active_job t = Some j) →
            is_Some (active_job t) →
            serial_ok (mkSystem w' (<[i := t']> (tasks s) ++ []))) as Hkeep.
  { intros w' t' Hn Hok' Hother Ht' Hsame [j Hj]. rewrite Hj in Hother.
    rewrite app_nil_r. split; [done|]. split; cbn [world tasks].
    - apply Forall_lookup. intros i2 t2 Hi2.
      destruct (decide (i = i2)) as [<-|Hne].
      + rewrite list_lookup_insert_eq in Hi2
          by (eapply lookup_lt_Some; eauto).
        by injection Hi2 as <-.
      + rewrite list_lookup_insert_ne in Hi2 by done.
        eapply task_ok_other; [done| |by eapply Forall_lookup_1].
        intros j2 Hj2. apply Hother. intros Heq.
        apply Hne. eapply (Hex i i2); eauto.
    - by eapply exclusive_insert. }
  destruct (active_job t) as [j|] eqn:Hact.
  2: { rewrite step_task_idle; [|by left|by destruct t].
       rewrite app_nil_r, list_insert_id by done. by destruct s. }
  destruct t as [c|j' c|[j'|]]; cbn in Hact; try done.
  2: { injection Hact as ->. cbn [step_task].
       rewrite app_nil_r, list_insert_id by done. by destruct s. }
  destruct c as [r|msg|X e k]; cbn in Hact; try done. injection Hact as ->.
  destruct Ht as (Hlt & m & [Hallow Hnext] & Hm). specialize (Hm eq_refl).
  destruct (job_handle env (job_target j) e (world s) m Hok Hm Hallow)
    as (Hok' & Hn & Hsp & Hother & Hnone & Hres).
  cbn [step_task step_prog].
  destruct (handle env e (world s)) as [w' [x|]]; cbn [fst snd] in *.
  - rewrite Hsp. destruct Hres as (m' & Hnx & Hm').
    apply Hkeep; eauto.
    + cbn. split; [lia|]. exists m'. split; [by apply Hnext|done].
    + intros j0. cbn. destruct (finished (k x)); [done|]. done.
  - apply Hkeep; eauto.
    cbn. split; [lia|]. exists m. split; [|done].
    by eapply (job_follows_active j e k).
Qed.

Lemma serial_ok_init : serial_ok init_system.
Proof.
  split; [apply world_ok_empty|]. split; [constructor|].
  intros i1 i2 t1 t2 j1 j2 H1. cbn in H1. done.
Qed.

Lemma serial_ok_events env evs s :
  forallb serial_event evs = true →
  serial_ok s → serial_ok (exec_events env evs s).
Proof.
  revert s. induction evs as [|ev evs IH]; intros s Hser Hs; [done|].
  cbn in Hser. apply andb_true_iff in Hser as [Hev Hser].
  cbn. apply IH; [done|]. destruct ev as [r|i|r]; [done| |].
  - by apply serial_ok_step.
  - by apply serial_ok_serve.
Qed.

Lemma exclusive_tail t ts : exclusive (t :: ts) → exclusive ts.
Proof.
  intros Hex i1 i2 t1 t2 j1 j2 H1 H2 Ha1 Ha2 Heq.
  assert (S i1 = S i2) by (eapply (Hex (S i1) (S i2)); eauto). lia.
Qed.

Lemma exclusive_count ts id :
  exclusive ts →
  (length (filter (λ j, job_target j = id) (omap active_job ts)) ≤ 1)%nat.
Proof.
  induction ts as [|t ts IH]; intros Hex; [cbn; lia|].
  specialize (IH (exclusive_tail _ _ Hex)). cbn [omap list_omap].
  destruct (active_job t) as [j|] eqn:Ha; [|done].
  destruct (decide (job_target j = id)) as [Hid|Hid].
  2: { by rewrite filter_cons_False. }
  rewrite filter_cons_True by done.
  destruct (filter (λ j, job_target j = id) (omap active_job ts))
    as [|j2 l] eqn:Hf; [cbn; lia|]. exfalso.
  assert (j2 ∈ filter (λ j, job_target j = id) (omap active_job ts)) as Hin
    by (rewrite Hf; apply list_elem_of_here).
  apply list_elem_of_filter in Hin as [Hid2 Hin].
  apply list_elem_of_omap in Hin as (t2 & Hin & Ha2).
  apply list_elem_of_lookup_1 in Hin as [i2 Hi2].
  assert (0 = S i2)%nat; [|done].
  eapply (Hex 0%nat (S i2) t t2 j j2); eauto. congruence.
Qed.




(** ** What comes before rolled_back *)

Lemma transition_into_rolled_back a :
  transition a rolled_back = true → a = rolling_back.
Proof. by destruct a. Qed.

Lemma transition_into_rolling_back a :
  transition a rolling_back = true → a = deployed.
Proof. by destruct a. Qed.

(** In a walk from pending, rolled_back comes right after rolling_back, and
    that right after deployed. *)
Lemma walk_before_rolled_back h h1 h2 :
  follows_edges h = true → (h = [] ∨ head h = Some pending) →
  h = h1 ++ rolled_back :: h2 →
  ∃ h0, h1 = h0 ++ [deployed; rolling_back].
Proof.
  intros Hf Hhd ->.
  assert (h1 ≠ []) as Hne1.
  { intros ->. destruct Hhd as [?|?]; done. }
  destruct (follows_edges_before h1 rolled_back h2 Hf Hne1)
    as (h0' & a & -> & Ha).
  apply transition_into_rolled_back in Ha as ->.
  rewrite <- app_assoc in Hf, Hhd. cbn in Hf, Hhd.
  assert (h0' ≠ []) as Hne0.
  { intros ->. destruct Hhd as [?|?]; done. }
  destruct (follows_edges_before h0' rolling_back (rolled_back :: h2) Hf Hne0)
    as (h0 & b & -> & Hb).
  apply transition_into_rolling_back in Hb as ->.
  exists h0. by rewrite <- app_assoc.
Qed.

Lemma rolled_back_after_rolling_back_serial env evs id h1 h2 :
  forallb serial_event evs = true →
  hist_of (world (exec_events env evs init_system)) id
    = h1 ++ rolled_back :: h2 →
  ∃ h0, h1 = h0 ++ [deployed; rolling_back].
Proof.
  intros Hser Hh.
  destruct (serial_ok_events env evs init_system Hser serial_ok_init)
    as ((_ & _ & _ & Hw) & _ & _).
  destruct (Hw id) as [Hf Hhd]. by eapply walk_before_rolled_back.
Qed.


(** ** Where rolled_back comes from, in any interleaving *)

Ltac origin_walk :=
  repeat
    (walk_eval;
     cbn [origin_allow origin_next job_claim
          status set_status set_outputs set_logs set_costEstimate
          set_deploymentTime set_deployedAt set_rolledBackAt] in *;
     match goal with
     | |- True => exact I
     | |- _ ∧ _ => split
     | |- ∀ _, _ => intros
     | H : _ ∧ _ |- _ => destruct H
     | H : context [decide _] |- _ => case_decide
     | H : ¬ _ |- _ => by destruct H
     | H : ?m' = _ |- _ => is_var m'; subst m'
     | |- proto _ _ ?t _ =>
         match t with
         | context [match ?x with _ => _ end] => is_var x; destruct x
         end
     | |- _ = _ => first [done | congruence]
     | |- _ ≠ _ => done
     end).

Lemma job_prog_founded j :
  proto origin_allow origin_next (job_prog j) (job_claim j).
Proof. destruct j; unfold job_prog; open_job; origin_walk. Qed.

Lemma handler_founded r :
  proto origin_allow origin_next (handler r) Nothing.
Proof.
  destruct r as [req|[project|] user|id user];
    unfold handler, createDeployment, rollback, deleteDeployment,
      validateInfrastructure.
  - destruct (falsy (body_terraformCode req) || falsy (body_provider req));
      [done|].
    destruct (body_projectId req), (falsy (body_projectName req));
      origin_walk.
  - origin_walk.
  - origin_walk.
  - origin_walk.
Qed.

Lemma snoc_eq_app_cons {A} (h h1 h2 : list A) s x :
  h ++ [s] = h1 ++ x :: h2 →
  (h2 = [] ∧ h1 = h ∧ x = s) ∨ (∃ h2', h2 = h2' ++ [s] ∧ h = h1 ++ x :: h2').
Proof.
  destruct h2 as [|y h2 _] using rev_ind; intros H.
  - apply app_inj_tail in H as [-> ->]. by left.
  - right. exists h2.
    change (h1 ++ x :: h2 ++ [y]) with (h1 ++ (x :: h2) ++ [y]) in H.
    rewrite app_assoc in H. apply app_inj_tail in H as [-> ->]. done.
Qed.

Lemma record_status_grows s h :
  record_status s h = h ∨ record_status s h = h ++ [s].
Proof. unfold record_status. case_bool_decide; auto. Qed.

Lemma rolled_from_deployed_snoc h s :
  rolled_from_deployed h → rolled_from_deployed (h ++ [s]).
Proof.
  intros (a & b & c & ->). exists a, b, (c ++ [s]).
  rewrite <- !app_assoc. cbn. by rewrite <- !app_assoc.
Qed.

Lemma rollbacks_founded_record s h :
  rollbacks_founded h →
  (s = rolled_back → rolled_from_deployed h) →
  rollbacks_founded (record_status s h).
Proof.
  intros Hf Hs. destruct (record_status_grows s h) as [->| ->]; [done|].
  intros h1 h2 Heq. apply snoc_eq_app_cons in Heq as [(_ & -> & <-)|(h2' & _ & ->)].
  - by apply Hs.
  - by eapply Hf.
Qed.

Lemma deployed_then_rolling_back h :
  deployed ∈ h → rolled_from_deployed (record_status rolling_back h).
Proof.
  intros Hin. apply list_elem_of_split in Hin as (a & b & ->).
  unfold record_status. case_bool_decide as Hl.
  - destruct b as [|y b _] using rev_ind.
    + rewrite last_snoc in Hl. done.
    + change (a ++ deployed :: b ++ [y]) with (a ++ (deployed :: b) ++ [y]) in Hl.
      rewrite app_assoc, last_snoc in Hl. injection Hl as ->.
      by exists a, b, [].
  - exists a, b, []. by rewrite <- app_assoc.
Qed.

Lemma claim_holds_grows m w w' :
  (∀ id, hist_of w' id = hist_of w id ∨
         ∃ s, hist_of w' id = hist_of w id ++ [s]) →
  claim_holds m w → claim_holds m w'.
Proof.
  intros Hg. destruct m as [|id|id]; cbn; [done|..];
    destruct (Hg id) as [->|[s ->]]; try done.
  - intros H. apply elem_of_app. by left.
  - apply rolled_from_deployed_snoc.
Qed.

Lemma world_founded_persist w id d :
  world_founded w →
  (status d = rolled_back → rolled_from_deployed (hist_of w id)) →
  world_founded (persist id d w).
Proof.
  intros [Hf Hl] Hs. split.
  - intros id'. rewrite hist_of_persist. case_decide; [|done].
    by apply rollbacks_founded_record.
  - intros id' d'. rewrite db_persist, hist_of_persist.
    case_decide; [|apply Hl]. intros [= <-]. apply last_record_status.
Qed.

Lemma hist_of_persist_grows w id d id' :
  hist_of (persist id d w) id' = hist_of w id' ∨
  ∃ s, hist_of (persist id d w) id' = hist_of w id' ++ [s].
Proof.
  rewrite hist_of_persist. case_decide as H; [subst|by left].
  destruct (record_status_grows (status d) (hist_of w id')) as [->| ->]; eauto.
Qed.

Ltac origin_frame m :=
  cbn [fst snd]; split; [done|]; split; [by left|];
  split; [by intros j Hj; apply not_elem_of_nil in Hj|];
  intros x Hx; try (injection Hx as <-); by exists m.

Lemma origin_handle env {X} (e : Eff X) w m :
  world_founded w → claim_holds m w → origin_allow m X e →
  world_founded (handle env e w).1 ∧
  (∀ id, hist_of (handle env e w).1 id = hist_of w id ∨
         ∃ s, hist_of (handle env e w).1 id = hist_of w id ++ [s]) ∧
  (∀ j, j ∈ spawn_of e → claim_holds (job_claim j) (handle env e w).1) ∧
  ∀ x, (handle env e w).2 = Some x →
       ∃ m', origin_next m X e x m' ∧ claim_holds m' (handle env e w).1.
Proof.
  intros Hw Hm Hallow.
  destruct e; cbn [handle origin_allow origin_next spawn_of] in *.
  - (* NewObjectId *) origin_frame m.
  - (* Insert *)
    destruct (negb (schema_valid d)); [origin_frame m|].
    destruct (db w !! id) eqn:Hid; [origin_frame m|]. cbn [fst snd].
    split; [by apply world_founded_persist|].
    split; [intros id'; apply hist_of_persist_grows|].
    split; [by intros j Hj; apply not_elem_of_nil in Hj|].
    intros x _. exists m. split; [done|].
    eapply claim_holds_grows; [|done]. intros id'. apply hist_of_persist_grows.
  - (* Save *)
    destruct (db w !! id) as [d0|] eqn:Hid; [|origin_frame m]. cbn [fst snd].
    split.
    { apply world_founded_persist; [done|]. intros Hs.
      by rewrite (Hallow Hs) in Hm. }
    split; [intros id'; apply hist_of_persist_grows|].
    split; [by intros j Hj; apply not_elem_of_nil in Hj|].
    intros x [= <-]. case_decide as Hc.
    + exists (Marked id). split; [done|]. destruct Hc as [-> Hs]. cbn in *.
      rewrite hist_of_persist. case_decide; [|done]. rewrite Hs.
      by apply deployed_then_rolling_back.
    + exists m. split; [done|].
      eapply claim_holds_grows; [|done]. intros id'.
      apply hist_of_persist_grows.
  - (* FindById *) origin_frame m.
  - (* FindOne *)
    cbn [fst snd]. split; [done|]. split; [by left|].
    split; [by intros j Hj; apply not_elem_of_nil in Hj|].
    intros x [= <-].
    destruct (find_one (db w) (matches project user s)) as [[id d]|] eqn:Hf;
      [|by exists m].
    apply find_one_Some in Hf as [Hd Hmatch].
    apply matches_spec in Hmatch as (_ & _ & Hs).
    case_decide as Hdep; [|by exists m]. rewrite Hdep in Hs.
    exists (Found id). split; [done|]. cbn.
    destruct Hw as [_ Hl]. specialize (Hl id d Hd). rewrite Hs in Hl.
    destruct (hist_of w id) as [|y h _] using rev_ind; [done|].
    rewrite last_snoc in Hl. injection Hl as ->.
    apply elem_of_app. right. apply list_elem_of_here.
  - (* FindOneAndDelete *)
    destruct (db w !! id) as [d|] eqn:Hid;
      [destruct (bool_decide (userId d = user))|]; [|origin_frame m..].
    cbn [fst snd]. split.
    { destruct Hw as [Hf Hl]. split; [done|]. intros id' d'.
      cbn [with_db db]. rewrite lookup_delete. case_decide; [done|].
      apply Hl. }
    split; [by left|].
    split; [by intros j Hj; apply not_elem_of_nil in Hj|].
    intros x _. by exists m.
  - (* Mkdir *) destruct (fs w !! d); origin_frame m.
  - (* WriteFile *) destruct (fs w !! d); origin_frame m.
  - (* Rm *) origin_frame m.
  - (* Access *) destruct (fs w !! d); origin_frame m.
  - (* Exec *) origin_frame m.
  - (* JsonParse *) origin_frame m.
  - (* Now *) origin_frame m.
  - (* SetImmediate *)
    cbn [fst snd]. split; [done|]. split; [by left|]. split.
    + intros j' Hj'. apply list_elem_of_singleton in Hj' as ->.
      destruct j; cbn in *; [done|]. by subst m.
    + intros x _. by exists m.
Qed.

Lemma history_grows_step w w' :
  (∀ id, hist_of w' id = hist_of w id ∨
         ∃ s, hist_of w' id = hist_of w id ++ [s]) →
  history_grows w w'.
Proof.
  intros H id. destruct (H id) as [->|[s ->]]; [done|]. by apply prefix_app_r.
Qed.

Lemma history_grows_trans w1 w2 w3 :
  history_grows w1 w2 → history_grows w2 w3 → history_grows w1 w3.
Proof. intros H1 H2 id. etrans; [apply H1|apply H2]. Qed.

Lemma claim_holds_later m w w' :
  history_grows w w' → claim_holds m w → claim_holds m w'.
Proof.
  intros Hg. destruct m as [|id|id]; cbn; [done|..];
    destruct (Hg id) as [k ->].
  - intros H. apply elem_of_app. by left.
  - intros (a & b & c & ->). exists a, b, (c ++ k).
    rewrite <- !app_assoc. cbn. by rewrite <- !app_assoc.
Qed.

Lemma task_founded_later w w' t :
  history_grows w w' → task_founded w t → task_founded w' t.
Proof.
  intros Hg. destruct t as [c|j c|j]; cbn; [| |done];
    intros (m & Hp & Hm); exists m; eauto using claim_holds_later.
Qed.

Lemma start_jobs_founded w js :
  Forall (λ j, claim_holds (job_claim j) w) js →
  Forall (task_founded w) (start_jobs js).
Proof.
  intros H. unfold start_jobs. apply Forall_fmap.
  eapply Forall_impl; [exact H|]. intros j Hj. cbn.
  exists (job_claim j). split; [apply job_prog_founded|done].
Qed.

Lemma origin_run env {R} (c : prog R) w js m :
  world_founded w → claim_holds m w →
  Forall (λ j, claim_holds (job_claim j) w) js →
  proto origin_allow origin_next c m →
  world_founded (final (run_from env c w js)) ∧
  history_grows w (final (run_from env c w js)) ∧
  Forall (λ j, claim_holds (job_claim j) (final (run_from env c w js)))
    (spawned (run_from env c w js)).
Proof.
  revert w js m. induction c as [r|msg|X e k IH]; intros w js m Hw Hm Hjs Hp.
  1,2: cbn; split; [done|]; split; [by intros id|done].
  destruct Hp as [Hallow Hnext].
  destruct (origin_handle env e w m Hw Hm Hallow) as (Hw' & Hg & Hsp & Hx).
  apply history_grows_step in Hg.
  assert (Forall (λ j, claim_holds (job_claim j) (handle env e w).1) js)
    as Hjs'.
  { eapply Forall_impl; [exact Hjs|]. intros j. by apply claim_holds_later. }
  cbn [run_from]. destruct (handle env e w) as [w' [x|]]; cbn [fst snd] in *.
  2: by cbn.
  destruct (Hx x eq_refl) as (m' & Hn & Hm').
  destruct (IH x w' (js ++ spawn_of e) m' Hw' Hm') as (? & ? & ?).
  - apply Forall_app. split; [done|]. by apply Forall_forall.
  - by apply Hnext.
  - split; [done|]. split; [|done]. by eapply history_grows_trans.
Qed.

Lemma origin_step_prog env {R} (c : prog R) w :
  world_founded w → code_founded w c →
  world_founded (step_prog env c w).1.1 ∧
  history_grows w (step_prog env c w).1.1 ∧
  Forall (λ j, claim_holds (job_claim j) (step_prog env c w).1.1)
    (step_prog env c w).2 ∧
  ∀ c', (step_prog env c w).1.2 = Some c' →
        code_founded (step_prog env c w).1.1 c'.
Proof.
  intros Hw (m & Hp & Hm).
  destruct c as [r|msg|X e k]; cbn [step_prog fst snd].
  1,2: split; [done|]; split; [by intros id|]; split; [done|];
       intros c' [= <-]; by exists m.
  destruct Hp as [Hallow Hnext].
  destruct (origin_handle env e w m Hw Hm Hallow) as (Hw' & Hg & Hsp & Hx).
  apply history_grows_step in Hg.
  destruct (handle env e w) as [w' [x|]]; cbn [fst snd] in *.
  - split; [done|]. split; [done|]. split; [by apply Forall_forall|].
    intros c' [= <-]. destruct (Hx x eq_refl) as (m' & Hn & Hm').
    exists m'. eauto.
  - split; [done|]. split; [done|]. split; [done|]. done.
Qed.

Lemma system_founded_event env s ev :
  system_founded s → system_founded (apply_event env s ev).
Proof.
  intros [Hw Hts]. destruct ev as [r|i|r]; cbn [apply_event].
  - split; [done|]. cbn. apply Forall_app. split; [done|].
    apply Forall_singleton. exists Nothing.
    split; [apply handler_founded | done].
  - destruct (tasks s !! i) as [t|] eqn:Hi; [|done].
    assert (task_founded (world s) t) as Ht
      by (eapply Forall_lookup_1; eauto).
    destruct t as [c|j c|j]; cbn [step_task].
    + destruct (origin_step_prog env c (world s) Hw Ht)
        as (Hw' & Hg & Hjs & Hc).
      destruct (step_prog env c (world s)) as [[w' [c'|]] js];
        cbn in *; (split; [done|]); apply Forall_app;
        (split; [|by apply start_jobs_founded]);
        (apply Forall_insert;
         [ eapply Forall_impl; [exact Hts|]; intros t0;
           by apply task_founded_later
         | cbn; auto ]).
    + destruct (origin_step_prog env c (world s) Hw Ht)
        as (Hw' & Hg & Hjs & Hc).
      destruct (step_prog env c (world s)) as [[w' [c'|]] js];
        cbn in *; (split; [done|]); apply Forall_app;
        (split; [|by apply start_jobs_founded]);
        (apply Forall_insert;
         [ eapply Forall_impl; [exact Hts|]; intros t0;
           by apply task_founded_later
         | cbn; auto ]).
    + cbn. split; [done|]. rewrite app_nil_r. by apply Forall_insert.
  - destruct (origin_run env (handler r) (world s) [] Nothing)
      as (Hw' & Hg & Hjs); [done|done|done|apply handler_founded|].
    unfold run. cbn. split; [done|]. apply Forall_app. split.
    { eapply Forall_impl; [exact Hts|]. intros t.
      by apply task_founded_later. }
    apply Forall_cons. split; [|by apply start_jobs_founded].
    destruct (outcome _); cbn; [by exists Nothing..|done].
Qed.

Lemma system_founded_events env evs s :
  system_founded s → system_founded (exec_events env evs s).
Proof.
  revert s. induction evs as [|ev evs IH]; intros s Hs; [done|].
  cbn. apply IH. by apply system_founded_event.
Qed.

Lemma system_founded_init : system_founded init_system.
Proof.
  split; [|constructor]. split.
  - intros id h1 h2. unfold hist_of. cbn. rewrite lookup_empty. cbn.
    by destruct h1.
  - intros id d. cbn. by rewrite lookup_empty.
Qed.



(** * More properties of the routes and of the cloud service *)

(** ** Creating a deployment *)

(** A request without terraform code or without a provider (absent or
    empty) is answered 400 at once: nothing is validated, written, stored or
    started. *)
Theorem create_requires_code_and_provider env w req :
  falsy (body_terraformCode req) || falsy (body_provider req) = true →
  run env (createDeployment req) w
    = mkRun w (Returned (Json400 "Terraform code and provider are required"
                           None)) [].
Proof. intros H. unfold createDeployment. rewrite H. done. Qed.

Lemma create_requires_code_and_provider_witness :
  run env_all_ok
      (createDeployment (mkCreateRequest None None (Some "") (Some "aws")
                           7%nat))
      empty_world
    = mkRun empty_world
        (Returned (Json400 "Terraform code and provider are required" None))
        [].
Proof.
  apply (create_requires_code_and_provider env_all_ok empty_world).
  reflexivity.
Defined.

(** What a create request that passes the input check and the validation
    does next. *)
Lemma createDeployment_validated_run env w req code provider :
  body_terraformCode req = Some code → code ≠ "" →
  body_provider req = Some provider → provider ≠ "" →
  validation_passes env w →
  ∃ w0,
    db w0 = db w ∧ history w0 = history w ∧ next_oid w0 = next_oid w ∧
    clock_reads w0 = clock_reads w ∧
    fs w0 !! TempValidation = None ∧
    (∀ p, fs w0 !! ProjectDir p = fs w !! ProjectDir p) ∧
    run env (createDeployment req) w =
    run_from env
      (try_catch
         (project <- match body_projectId req with
                     | Some p => Ret p
                     | None => perform NewObjectId
                     end ;;
          name <- (if falsy (body_projectName req)
                   then t <- perform Now ;; Ret ("Deployment " +:+ pretty t)
                   else Ret (default "" (body_projectName req))) ;;
          id <- perform NewObjectId ;;
          created <- perform Now ;;
          let deployment :=
            mkDeployment project (create_user req) name provider code pending
              (JObj []) [] None None created None None in
          await (Insert id deployment) ;;;
          perform (SetImmediate (JobDeploy id)) ;;;
          Ret (Json201 id deployment "Deployment started successfully"))
         (λ msg, Ret (Json500 "Failed to create deployment" msg)))
      w0 [].
Proof.
  intros Hcode Hne Hprov Hne' [[o1 Hinit] [o2 Hval]].
  destruct (validateInfrastructure_passes_run env w code provider o1 o2
              Hinit Hval) as (Ho & Hs & Htmp & Hdb & Hh & Hn & Hc & Hfs).
  exists (final (run env (validateInfrastructure code provider) w)).
  repeat (split; [done|]).
  unfold createDeployment. rewrite Hcode, Hprov.
  cbn [falsy default from_option Datatypes.id].
  apply String.eqb_neq in Hne, Hne'. rewrite Hne, Hne'. cbn [orb].
  unfold run in *. rewrite run_from_try_bind. cbv zeta.
  rewrite Ho, Hs. done.
Qed.

Lemma schema_valid_created project user nm prov code created :
  prov ∈ provider_enum → code ≠ "" → nm ≠ "" →
  schema_valid (mkDeployment project user nm prov code pending
                  (JObj []) [] None None created None None) = true.
Proof.
  intros Hp Hc Hn. unfold schema_valid. cbn [provider terraformCode name].
  rewrite bool_decide_eq_true_2 by done.
  apply String.eqb_neq in Hc, Hn. by rewrite Hc, Hn.
Qed.

Lemma default_name_not_empty (t : Z) : "Deployment " +:+ pretty t ≠ "".
Proof. done. Qed.

Lemma given_name_not_empty (n : option string) :
  falsy n = false → default "" n ≠ "".
Proof.
  destruct n as [n|]; [|done]. cbn. intros H. by apply String.eqb_neq.
Qed.

(** The run of a create request that is accepted. *)
Lemma createDeployment_accepted_run env w req code prov :
  body_terraformCode req = Some code → code ≠ "" →
  body_provider req = Some prov → prov ∈ provider_enum →
  validation_passes env w →
  (∀ id : ObjectId, (next_oid w ≤ id)%nat → db w !! id = None) →
  ∃ id d w1,
    run env (createDeployment req) w
      = mkRun w1 (Returned (Json201 id d "Deployment started successfully"))
          [JobDeploy id] ∧
    db w !! id = None ∧
    db w1 = <[id := d]> (db w) ∧
    d = mkDeployment (projectId d) (create_user req) (name d) prov code
          pending (JObj []) [] None None (createdAt d) None None ∧
    (∀ p, body_projectId req = Some p → projectId d = p) ∧
    (falsy (body_projectName req) = false →
     body_projectName req = Some (name d)) ∧
    fs w1 !! TempValidation = None ∧
    (∀ p, fs w1 !! ProjectDir p = fs w !! ProjectDir p).
Proof.
  intros Hcode Hne Hprov Hin Hpass Hfree.
  assert (prov ≠ "") as Hne'.
  { intros ->. unfold provider_enum in Hin.
    rewrite !elem_of_cons, elem_of_nil in Hin. intuition discriminate. }
  destruct (createDeployment_validated_run env w req code prov)
    as (w0 & Hdb & Hh & Hn & Hc & Htmp & Hfs & ->); [done..|].
  destruct (body_projectId req) as [p|],
    (falsy (body_projectName req)) eqn:Hname; run_eval;
    (rewrite schema_valid_created;
       [|done|done|first [apply default_name_not_empty
                         |by apply given_name_not_empty]]);
    cbn [negb]; rewrite Hdb, Hfree by lia; run_eval;
    eexists _, _, _; (split; [reflexivity|]);
    (split; [apply Hfree; lia|]);
    repeat (split; [try done|]); try done;
    try (by intros p' [= ->]);
    try (intros _; by destruct (body_projectName req)).
Qed.



(** A provider that is not one of aws, gcp, azure as written, for instance
    AWS in capitals, passes the validation (the boilerplate is chosen
    ignoring case) but not the schema: the request is answered 500, no
    record is stored and no job is started. *)
Theorem provider_outside_enum_rejected env w req code prov :
  body_terraformCode req = Some code → code ≠ "" →
  body_provider req = Some prov → prov ≠ "" →
  prov ∉ provider_enum →
  validation_passes env w →
  (∃ msg, outcome (run env (createDeployment req) w)
          = Returned (Json500 "Failed to create deployment" msg)) ∧
  spawned (run env (createDeployment req) w) = [] ∧
  db (final (run env (createDeployment req) w)) = db w ∧
  history (final (run env (createDeployment req) w)) = history w.
Proof.
  intros Hcode Hne Hprov Hne' Hout Hpass.
  destruct (createDeployment_validated_run env w req code prov)
    as (w0 & Hdb & Hh & Hn & Hc & Htmp & Hfs & ->); [done..|].
  assert (∀ project user name created,
            schema_valid (mkDeployment project user name prov code pending
                            (JObj []) [] None None created None None)
            = false) as Hbad.
  { intros. unfold schema_valid. cbn [provider].
    by rewrite bool_decide_eq_false_2. }
  destruct (body_projectId req) as [p|],
    (falsy (body_projectName req)); run_eval; rewrite Hbad; run_eval;
    (split; [by eexists|done]).
Qed.

Lemma provider_outside_enum_rejected_witness :
  db (final (run env_all_ok
               (createDeployment
                  (mkCreateRequest (Some 5%nat) (Some "demo")
                     (Some "resource {}") (Some "AWS") 7%nat))
               empty_world)) = db empty_world.
Proof.
  destruct (provider_outside_enum_rejected env_all_ok empty_world
              (mkCreateRequest (Some 5%nat) (Some "demo")
                 (Some "resource {}") (Some "AWS") 7%nat)
              "resource {}" "AWS") as (_ & _ & H & _).
  - reflexivity.
  - discriminate.
  - reflexivity.
  - discriminate.
  - unfold provider_enum. rewrite !elem_of_cons, elem_of_nil.
    intuition discriminate.
  - split; by exists "{}".
  - exact H.
Defined.

(** ** Requests are always answered *)

Lemma try_catch_answers env {A} (m : prog A) (f : string → A) w js msg :
  outcome (run_from env (try_catch m (λ msg, Ret (f msg))) w js) ≠ Thrown msg.
Proof.
  rewrite run_from_try_catch. cbv zeta.
  by destruct (outcome (run_from env m w js)).
Qed.

Lemma noexec_run env {R} (c : prog R) w js :
  proto noexec_allow quiet_next c tt →
  outcome (run_from env c w js) ≠ Blocked.
Proof.
  revert w js. induction c as [r|msg|X e k IH]; intros w js Hp; [done..|].
  destruct Hp as [Hallow Hnext]. cbn [run_from].
  assert (is_Some (handle env e w).2) as [x Hx].
  { destruct e; cbn in Hallow; try done; cbn [handle];
      repeat match goal with
             | |- context [match ?t with _ => _ end] => destruct t
             end; cbn; eauto. }
  destruct (handle env e w) as [w' o]. cbn in Hx. subst o.
  apply IH. by apply Hnext.
Qed.

Ltac noexec_walk :=
  repeat (walk_eval; cbn [noexec_allow quiet_next findOwned path_join] in *;
          match goal with
          | |- True => exact I
          | |- _ ∧ _ => split
          | |- ∀ _, _ => intros
          | |- proto _ _ ?t _ =>
              match t with
              | context [match ?x with _ => _ end] => is_var x; destruct x
              | context [if ?b then _ else _] => destruct b
              | context [match ?x with _ => _ end] => destruct x
              end
          end).

Lemma rollback_noexec project user :
  proto noexec_allow quiet_next (rollback project user) tt.
Proof. unfold rollback. destruct project; noexec_walk. Qed.


(** ** Records of other users *)

(** What a create request does to the collection, whatever the subprocesses
    do: nothing, or one insertion under an id that was free. *)
Lemma createDeployment_effect env w req :
  (db (final (run env (createDeployment req) w)) = db w ∧
   spawned (run env (createDeployment req) w) = [] ∧
   ∀ resp, outcome (run env (createDeployment req) w) = Returned resp →
           is_success resp = false) ∨
  (∃ id d,
     db w !! id = None ∧
     db (final (run env (createDeployment req) w)) = <[id := d]> (db w) ∧
     userId d = create_user req ∧ status d = pending ∧
     spawned (run env (createDeployment req) w) = [JobDeploy id] ∧
     outcome (run env (createDeployment req) w)
       = Returned (Json201 id d "Deployment started successfully")).
Proof.
  unfold createDeployment.
  destruct (falsy (body_terraformCode req) || falsy (body_provider req)).
  { left. run_eval. repeat split; try done. by intros resp [= <-]. }
  unfold run. rewrite run_from_try_bind. cbv zeta.
  destruct (quiet_run env
              (validateInfrastructure (default "" (body_terraformCode req))
                 (default "" (body_provider req))) w [] tt
              (validateInfrastructure_quiet _ _)) as (Hdb & Hh & Hn & Hs).
  set (r0 := run_from env (validateInfrastructure _ _) w []) in *.
  destruct (outcome r0) as [v|msg|]; rewrite ?Hs.
  2,3: left; run_eval; repeat split; try done; by intros resp [= <-].
  destruct (valid v); cbn [negb];
    [|left; run_eval; repeat split; try done; by intros resp [= <-]].
  clearbody r0. destruct r0 as [w0 o0 s0]. cbn [final] in *. clear o0 s0 Hs.
  destruct (body_projectId req) as [p|],
    (falsy (body_projectName req)); run_eval;
    (match goal with
     | |- context [negb (schema_valid ?d)] => destruct (negb (schema_valid d))
     end;
     [left; run_eval; repeat split; try done; by intros resp [= <-]|]);
    (match goal with
     | |- context [db w0 !! ?i] =>
         destruct (db w0 !! i) as [d0|] eqn:Hfree;
         [ assert (∀ id : ObjectId, id = i → db w0 !! id = Some d0) as E
             by (by intros ? ->)
         | assert (∀ id : ObjectId, id = i → db w0 !! id = None) as E
             by (by intros ? ->) ]
     end; rewrite ?E by reflexivity; run_eval;
     [ left; split; [exact Hdb|]; split; [reflexivity|];
       by intros resp [= <-]
     | right; eexists _, _; rewrite <- Hdb;
       (split; [exact Hfree|]); done ]).
Qed.

(** A request never changes, deletes or starts a job on a record that
    belongs to another user than the one who makes it. *)
Theorem other_users_records_untouched env w r id d :
  db w !! id = Some d → userId d ≠ request_user r →
  db (final (run env (handler r) w)) !! id = Some d ∧
  ∀ j, j ∈ spawned (run env (handler r) w) → job_target j ≠ id.
Proof.
  intros Hd Hu. destruct r as [req|project user|id' user];
    cbn [handler request_user] in *.
  - destruct (createDeployment_effect env w req)
      as [(-> & -> & _)|(id' & d' & Hfree & -> & _ & _ & -> & _)].
    + split; [done|]. intros j Hj. by apply not_elem_of_nil in Hj.
    + assert (id' ≠ id) as Hne by congruence.
      rewrite lookup_insert_ne by done. split; [done|].
      intros j Hj. apply list_elem_of_singleton in Hj as ->. done.
  - unfold rollback. destruct project as [project|].
    2: { run_eval. split; [done|]. intros j Hj.
         by apply not_elem_of_nil in Hj. }
    run_eval.
    destruct (find_one (db w) (matches project user deployed))
      as [[id' d']|] eqn:Hf.
    2: { run_eval. split; [done|]. intros j Hj.
         by apply not_elem_of_nil in Hj. }
    apply find_one_Some in Hf as [Hd' Hm].
    apply matches_spec in Hm as (_ & Hu' & _).
    assert (id' ≠ id) as Hne by congruence.
    run_steps. rewrite lookup_insert_ne by done. split; [done|].
    intros j Hj. apply list_elem_of_singleton in Hj as ->. done.
  - rewrite deleteDeployment_run.
    destruct (db w !! id') as [d'|] eqn:Hd'.
    2: { cbn. split; [done|]. intros j Hj. by apply not_elem_of_nil in Hj. }
    case_bool_decide as Hown; cbn.
    2: { split; [done|]. intros j Hj. by apply not_elem_of_nil in Hj. }
    assert (id' ≠ id) as Hne by congruence.
    rewrite lookup_delete_ne by done. split; [done|].
    intros j Hj. by apply not_elem_of_nil in Hj.
Qed.

Lemma other_users_records_untouched_witness :
  db (final (run env_all_ok (handler (DeleteDeployment 0%nat 8%nat))
               (world_with deployed [pending; deploying; deployed])))
    !! 0%nat = Some (demo deployed).
Proof.
  apply (other_users_records_untouched env_all_ok
           (world_with deployed [pending; deploying; deployed])
           (DeleteDeployment 0%nat 8%nat) 0%nat (demo deployed)).
  - reflexivity.
  - cbn. lia.
Defined.

(** ** The jobs, whatever the subprocesses do *)

(** Case analysis on what the environment answers, as the run reaches it. *)
Ltac run_cases :=
  repeat first
    [ progress run_steps
    | match goal with
      | |- context [match exec_outcome ?env ?n ?c ?d with _ => _ end] =>
          destruct (exec_outcome env n c d) as [[?|?]|] eqn:?
      | |- context [match json_parse ?env ?t with _ => _ end] =>
          destruct (json_parse env t) eqn:?
      | |- context [match fs ?w !! ?d with _ => _ end] =>
          destruct (fs w !! d) eqn:?
      end ].

(** A job whose record is gone when it starts does nothing at all. *)
Theorem job_without_record_does_nothing env w j :
  db w !! job_target j = None →
  run env (job_prog j) w = mkRun w (Returned ()) [].
Proof.
  intros Hd. destruct j as [id|id]; cbn [job_target job_prog] in *;
    open_job; by run_steps.
Qed.

Lemma job_without_record_does_nothing_witness :
  run env_all_ok (job_prog (JobRollback 3%nat)) empty_world
    = mkRun empty_world (Returned ()) [].
Proof.
  apply (job_without_record_does_nothing env_all_ok empty_world
           (JobRollback 3%nat)).
  reflexivity.
Defined.

Lemma processDeployment_alone env w (id : ObjectId) d :
  db w !! id = Some d →
  ∃ w' o d',
    run env (processDeployment id) w = mkRun w' o [] ∧
    db w' !! id = Some d' ∧
    identity d' = identity d ∧
    logs d `prefix_of` logs d' ∧
    (∀ id' : ObjectId, id' ≠ id → db w' !! id' = db w !! id') ∧
    (∀ dir, dir ≠ ProjectDir (projectId d) → fs w' !! dir = fs w !! dir) ∧
    is_Some (fs w' !! ProjectDir (projectId d)) ∧
    next_oid w' = next_oid w ∧
    match o with
    | Returned _ =>
        match status d' with
        | deployed =>
            apply_succeeds env w d ∧
            (∃ text, output_query env w d text ∧
                     json_parse env text = inl (outputs d')) ∧
            costEstimate d' = Some mock_estimate ∧
            is_Some (deployedAt d') ∧ is_Some (deploymentTime d') ∧
            rolledBackAt d' = rolledBackAt d ∧
            ∃ t, last (logs d')
                 = Some (mkLog "Deployment completed successfully" success t)
        | failed =>
            ¬ deploy_succeeds env w d ∧
            outputs d' = outputs d ∧ costEstimate d' = costEstimate d ∧
            deployedAt d' = deployedAt d ∧
            deploymentTime d' = deploymentTime d ∧
            rolledBackAt d' = rolledBackAt d ∧
            ∃ msg t, last (logs d')
                     = Some (mkLog ("Deployment failed: Deployment failed: "
                                    +:+ msg) error t)
        | _ => False
        end
    | Blocked =>
        ¬ deploy_succeeds env w d ∧
        status d' = deploying ∧
        outputs d' = outputs d ∧ costEstimate d' = costEstimate d ∧
        deployedAt d' = deployedAt d ∧
        deploymentTime d' = deploymentTime d ∧
        rolledBackAt d' = rolledBackAt d
    | Thrown _ => False
    end.
Proof.
  intros Hd. unfold deploy_succeeds, apply_succeeds, output_query, job_exec.
  cbn [Nat.add].
  destruct (exec_outcome env (exec_calls w) "terraform init"
              (ProjectDir (projectId d))) as [[o1|m1]|] eqn:H1.
  1: destruct (exec_outcome env (S (exec_calls w))
                 "terraform plan -out=tfplan"
                 (ProjectDir (projectId d))) as [[o2|m2]|] eqn:H2.
  1: destruct (exec_outcome env (S (S (exec_calls w)))
                 "terraform apply -auto-approve tfplan"
                 (ProjectDir (projectId d))) as [[o3|m3]|] eqn:H3.
  1: destruct (exec_outcome env (S (S (S (exec_calls w))))
                 "terraform output -json"
                 (ProjectDir (projectId d))) as [[o4|m4]|] eqn:H4.
  1: destruct (json_parse env o4) as [outs|m5] eqn:H5.
  all: open_job; run_steps;
    destruct (fs w !! ProjectDir (projectId d)) eqn:Hfs; run_steps;
    eexists _, _, _; (split; [reflexivity|]); run_steps.
  all: (split; [reflexivity|]); run_eval.
  all: split; [reflexivity|].
  all: split; [rewrite <- ?app_assoc; by eexists|].
  all: split; [by intros id' Hne; rewrite !lookup_insert_ne|].
  all: split; [by intros dir Hne; rewrite !lookup_insert_ne|].
  all: split; [by eexists|].
  all: split; [reflexivity|].
  all: rewrite ?last_snoc; repeat split; eauto.
  all: intros [([? ?] & [? ?] & [? ?]) (? & ? & ? & ?)]; congruence.
Qed.

(** A deploy job run on a stored record never ends with an exception and
    starts no job; it changes no other record and no directory but the one
    of the record's project; in the record it keeps project, user, name,
    provider, code, creation time and rollback time, and it only adds to the
    end of the log. This holds whatever the subprocesses do. *)
Theorem deploy_job_is_confined env w id d :
  db w !! id = Some d →
  let r := run env (processDeployment id) w in
  (∀ msg, outcome r ≠ Thrown msg) ∧
  spawned r = [] ∧
  (∀ id' : ObjectId, id' ≠ id → db (final r) !! id' = db w !! id') ∧
  (∀ dir, dir ≠ ProjectDir (projectId d) →
          fs (final r) !! dir = fs w !! dir) ∧
  ∃ d', db (final r) !! id = Some d' ∧
        identity d' = identity d ∧
        rolledBackAt d' = rolledBackAt d ∧
        logs d `prefix_of` logs d'.
Proof.
  intros Hd r. subst r.
  destruct (processDeployment_alone env w id d Hd)
    as (w' & o & d' & -> & Hd' & Hid & Hlogs & Hdb & Hfs & _ & _ & Ho).
  cbn [outcome spawned final]. repeat split; [|done..|].
  - intros msg ->. done.
  - exists d'. repeat split; try done.
    destruct o as [[]|msg|]; [|done|by destruct Ho as (_&_&_&_&_&_&?)].
    destruct (status d'); try done.
    + by destruct Ho as (_&_&_&_&_&?&_).
    + by destruct Ho as (_&_&_&_&_&?&_).
Qed.

Lemma deploy_job_is_confined_witness :
  spawned (run env_apply_killed (processDeployment 0%nat)
             (world_with pending [pending])) = [].
Proof.
  destruct (deploy_job_is_confined env_apply_killed
              (world_with pending [pending]) 0%nat (demo pending))
    as (_ & H & _).
  - reflexivity.
  - exact H.
Defined.

(** The three ways in which a deploy job run on a stored record ends.
    Either init, plan, apply and the output query all exit with success and
    the output parses: then the record is deployed, with the parsed outputs,
    the mock cost estimate, a deployment date and time, and a success entry
    last in its log. Or the job returns with the record failed: one of these
    steps did not succeed, outputs, estimate and dates are as before, and
    the last log entry is an error entry whose message carries the prefix of
    the service and the prefix of the job. Or a subprocess never exits: the
    job never returns and the record stays in status deploying. In every
    case the directory of the project is in place afterwards. *)
Theorem deploy_job_outcomes env w id d :
  db w !! id = Some d →
  let r := run env (processDeployment id) w in
  is_Some (fs (final r) !! ProjectDir (projectId d)) ∧
  ∃ d', db (final r) !! id = Some d' ∧
    ((outcome r = Returned () ∧ status d' = deployed ∧
      apply_succeeds env w d ∧
      (∃ text, output_query env w d text ∧
               json_parse env text = inl (outputs d')) ∧
      costEstimate d' = Some mock_estimate ∧
      is_Some (deployedAt d') ∧ is_Some (deploymentTime d') ∧
      ∃ t, last (logs d')
           = Some (mkLog "Deployment completed successfully" success t))
     ∨
     (outcome r = Returned () ∧ status d' = failed ∧
      ¬ deploy_succeeds env w d ∧
      outputs d' = outputs d ∧ costEstimate d' = costEstimate d ∧
      deployedAt d' = deployedAt d ∧ deploymentTime d' = deploymentTime d ∧
      ∃ msg t, last (logs d')
               = Some (mkLog ("Deployment failed: Deployment failed: "
                              +:+ msg) error t))
     ∨
     (outcome r = Blocked ∧ status d' = deploying ∧
      ¬ deploy_succeeds env w d ∧
      outputs d' = outputs d ∧ costEstimate d' = costEstimate d ∧
      deployedAt d' = deployedAt d ∧ deploymentTime d' = deploymentTime d)).
Proof.
  intros Hd r. subst r.
  destruct (processDeployment_alone env w id d Hd)
    as (w' & o & d' & -> & Hd' & _ & _ & _ & _ & Hdir & _ & Ho).
  cbn [outcome final]. split; [done|]. exists d'. split; [done|].
  destruct o as [[]|msg|]; [|done|].
  - destruct (status d'); try done.
    + left. destruct Ho as (?&?&?&?&?&_&?). done.
    + right; left. destruct Ho as (?&?&?&?&?&_&?). done.
  - right; right. destruct Ho as (?&?&?&?&?&?&_). done.
Qed.

Lemma deploy_job_outcomes_witness :
  ∃ d', db (final (run env_all_ok (processDeployment 0%nat)
                     (world_with pending [pending]))) !! 0%nat = Some d'.
Proof.
  destruct (deploy_job_outcomes env_all_ok (world_with pending [pending])
              0%nat (demo pending)) as (_ & d' & H & _).
  - reflexivity.
  - by exists d'.
Defined.

Lemma processRollback_alone env w (id : ObjectId) d :
  db w !! id = Some d →
  ∃ w' o d',
    run env (processRollback id) w = mkRun w' o [] ∧
    db w' !! id = Some d' ∧
    identity d' = identity d ∧
    logs d `prefix_of` logs d' ∧
    (∀ id' : ObjectId, id' ≠ id → db w' !! id' = db w !! id') ∧
    fs w' = fs w ∧
    next_oid w' = next_oid w ∧
    outputs d' = outputs d ∧ costEstimate d' = costEstimate d ∧
    deployedAt d' = deployedAt d ∧ deploymentTime d' = deploymentTime d ∧
    match o with
    | Returned _ =>
        match status d' with
        | rolled_back =>
            is_Some (fs w !! ProjectDir (projectId d)) ∧
            (∃ out, job_exec env w d 0 "terraform destroy -auto-approve"
                    = Some (inl out)) ∧
            is_Some (rolledBackAt d') ∧
            ∃ t, last (logs d')
                 = Some (mkLog "Rollback completed successfully" success t)
        | failed =>
            rolledBackAt d' = rolledBackAt d ∧
            ∃ reason t,
              destroy_fails env w d reason ∧
              last (logs d')
              = Some (mkLog ("Rollback failed: Rollback failed: " +:+ reason)
                        error t)
        | _ => False
        end
    | Blocked =>
        status d' = status d ∧ rolledBackAt d' = rolledBackAt d ∧
        is_Some (fs w !! ProjectDir (projectId d)) ∧
        job_exec env w d 0 "terraform destroy -auto-approve" = None
    | Thrown _ => False
    end.
Proof.
  intros Hd. unfold destroy_fails, job_exec. cbn [Nat.add].
  destruct (fs w !! ProjectDir (projectId d)) as [files|] eqn:Hfs.
  1: destruct (exec_outcome env (exec_calls w)
                 "terraform destroy -auto-approve"
                 (ProjectDir (projectId d))) as [[o1|m1]|] eqn:H1.
  all: open_job; run_steps;
    eexists _, _, _; (split; [reflexivity|]); run_steps.
  all: (split; [reflexivity|]); run_eval.
  all: split; [reflexivity|].
  all: split; [rewrite <- ?app_assoc; by eexists|].
  all: split; [by intros id' Hne; rewrite !lookup_insert_ne|].
  all: do 6 (split; [reflexivity|]).
  all: rewrite ?last_snoc; repeat split; eauto 8.
Qed.



(** ** The cloud service, whatever the subprocesses do *)

Lemma deployInfrastructure_alone env w project code provider :
  ∃ w' o,
    run env (deployInfrastructure project code provider) w = mkRun w' o [] ∧
    db w' = db w ∧ history w' = history w ∧ next_oid w' = next_oid w ∧
    (∀ dir, dir ≠ ProjectDir project → fs w' !! dir = fs w !! dir) ∧
    fs w' !! ProjectDir project
      = Some (<["variables.tf" :=
                  by_provider provider aws_variables gcp_variables
                    azure_variables]>
              (<["providers.tf" :=
                   by_provider provider aws_provider_config
                     gcp_provider_config azure_provider_config]>
               (<["main.tf" := code]>
                (default ∅ (fs w !! ProjectDir project))))) ∧
    match o with
    | Returned res => deploy_success res = true
    | Thrown msg => ∃ m, msg = "Deployment failed: " +:+ m
    | Blocked => True
    end.
Proof.
  unfold deployInfrastructure.
  destruct (fs w !! ProjectDir project) as [files|] eqn:Hfs;
    cbn [default from_option Datatypes.id]; run_steps.
  all: destruct (exec_outcome env (exec_calls w) "terraform init"
                   (ProjectDir project)) as [[o1|m1]|] eqn:H1; run_steps.
  all: try destruct (exec_outcome env (S (exec_calls w))
                       "terraform plan -out=tfplan"
                       (ProjectDir project)) as [[o2|m2]|] eqn:H2; run_steps.
  all: try destruct (exec_outcome env (S (S (exec_calls w)))
                       "terraform apply -auto-approve tfplan"
                       (ProjectDir project)) as [[o3|m3]|] eqn:H3; run_steps.
  all: try destruct (exec_outcome env (S (S (S (exec_calls w))))
                       "terraform output -json"
                       (ProjectDir project)) as [[o4|m4]|] eqn:H4; run_steps.
  all: try destruct (json_parse env o4) as [outs|m5] eqn:H5; run_steps.
  all: eexists _, _; (split; [reflexivity|]); run_steps.
  all: do 3 (split; [reflexivity|]).
  all: split; [by intros dir Hne; rewrite !lookup_insert_ne|].
  all: split; [reflexivity|]; eauto.
Qed.



(** validateInfrastructure never throws, touches neither the collection nor
    the directory of any project, and starts no job. When it returns, either
    the description is valid, terraform init and terraform validate both
    exited with success and the validation directory is removed; or it is
    invalid, init or validate exited with the failure that is reported, and
    the validation directory is still there with the code in main.tf. *)
Theorem validation_outcomes env w code provider :
  let r := run env (validateInfrastructure code provider) w in
  (∀ msg, outcome r ≠ Thrown msg) ∧
  db (final r) = db w ∧ spawned r = [] ∧
  (∀ p, fs (final r) !! ProjectDir p = fs w !! ProjectDir p) ∧
  (∀ v, outcome r = Returned v →
        (valid v = true ∧ validation_error v = None ∧
         validation_passes env w ∧
         fs (final r) !! TempValidation = None)
        ∨
        (valid v = false ∧
         ∃ msg files,
           validation_error v = Some msg ∧ validation_fails env w msg ∧
           fs (final r) !! TempValidation = Some files ∧
           files !! "main.tf" = Some code)).
Proof.
  intros r. subst r. unfold validation_passes, validation_fails.
  unfold validateInfrastructure.
  destruct (fs w !! TempValidation) as [files|] eqn:Hfs; run_steps.
  all: destruct (exec_outcome env (exec_calls w) "terraform init"
                   TempValidation) as [[o1|m1]|] eqn:H1; run_steps.
  all: try destruct (exec_outcome env (S (exec_calls w)) "terraform validate"
                       TempValidation) as [[o2|m2]|] eqn:H2; run_steps.
  all: repeat split; try done.
  all: try (intros p; by rewrite ?lookup_delete_ne, ?lookup_insert_ne).
  all: intros v [= <-]; cbn [valid validation_error].
  all: first
    [ left; repeat split; eauto; by rewrite lookup_delete_eq
    | right; split; [done|]; eexists _, _; split; [reflexivity|];
      split; [eauto|];
      split; [reflexivity|];
      rewrite lookup_insert_ne by done; by rewrite lookup_insert_eq ].
Qed.

(** ** The routes that only read *)

(** The logs of a record are shown to its owner alone: a record of another
    user is answered like one that does not exist. The route changes
    nothing and starts nothing. *)
Theorem logs_are_for_the_owner env w id user :
  run env (getDeploymentLogs id user) w
    = mkRun w
        (Returned match db w !! id with
                  | Some d =>
                      if bool_decide (userId d = user)
                      then Logs200 (logs d) (status d)
                      else Logs404 "Deployment not found"
                  | None => Logs404 "Deployment not found"
                  end) [].
Proof.
  unfold getDeploymentLogs, findOwned. run_eval.
  destruct (db w !! id) as [d|]; [|done].
  by destruct (bool_decide (userId d = user)).
Qed.

(** The cost route answers the owner with the estimate stored in the
    record. For a record without a stored estimate it never answers with a
    breakdown, whether the directory of the project exists or not: the
    project id is handed to the service as the ObjectId it is, not as text,
    the path cannot be built, and the answer is an error object. The route
    changes nothing. *)
Theorem cost_route_generates_nothing env w id d :
  db w !! id = Some d →
  let r := run env (getDeploymentCost id (userId d)) w in
  final r = w ∧ spawned r = [] ∧
  match costEstimate d with
  | Some stored => outcome r = Returned (Cost200 stored)
  | None => ∃ msg, outcome r = Returned (Cost200 (CostError msg))
  end.
Proof.
  intros Hd r. subst r. unfold getDeploymentCost, findOwned.
  run_steps. rewrite bool_decide_eq_true_2 by done.
  destruct (costEstimate d) as [stored|]; run_eval; [done|].
  unfold getCostEstimate_of, path_join. run_eval. eauto.
Qed.

Lemma cost_route_generates_nothing_witness :
  ∃ msg,
    outcome (run env_all_ok (getDeploymentCost 0%nat 7%nat)
               (world_with deployed [pending; deploying; deployed]))
    = Returned (Cost200 (CostError msg)).
Proof.
  destruct (cost_route_generates_nothing env_all_ok
              (world_with deployed [pending; deploying; deployed])
              0%nat (demo deployed)) as (_ & _ & H).
  - reflexivity.
  - exact H.
Defined.

(** ** An accepted rollback request *)

Lemma find_one_None (m : gmap ObjectId Deployment) P :
  find_one m P = None → ∀ id d, m !! id = Some d → P d = false.
Proof.
  unfold find_one. intros Hnone id d Hd.
  destruct (P d) eqn:HP; [|done]. exfalso.
  assert ((id, d) ∈ filter (λ p, P p.2) (map_to_list m)) as Hin.
  { apply list_elem_of_filter. split; [cbn; by rewrite HP|].
    by apply elem_of_map_to_list. }
  destruct (filter (λ p, P p.2) (map_to_list m)); [|done].
  by apply not_elem_of_nil in Hin.
Qed.

(** A rollback request of a user for a project of which the user has a
    record in status deployed is answered 200 with the id of such a record:
    that record, and no other, goes to rolling_back with every other field
    as it was; one rollback job is started for it; the file tree is not
    touched. *)
Theorem rollback_request_accepted env w project user id0 d0 :
  db w !! id0 = Some d0 →
  projectId d0 = project → userId d0 = user → status d0 = deployed →
  let r := run env (rollback (Some project) user) w in
  ∃ id d,
    db w !! id = Some d ∧
    projectId d = project ∧ userId d = user ∧ status d = deployed ∧
    outcome r = Returned (Json200 "Rollback initiated successfully" (Some id)) ∧
    spawned r = [JobRollback id] ∧
    db (final r) = <[id := set_status rolling_back d]> (db w) ∧
    fs (final r) = fs w.
Proof.
  intros Hd0 Hp Hu Hs r. subst r. unfold rollback. run_eval.
  destruct (find_one (db w) (matches project user deployed))
    as [[id d]|] eqn:Hf.
  - apply find_one_Some in Hf as [Hd Hm].
    apply matches_spec in Hm as (Hp' & Hu' & Hs').
    exists id, d. run_steps. done.
  - apply find_one_None with (id := id0) (d := d0) in Hf; [|done].
    unfold matches in Hf.
    by rewrite !bool_decide_eq_true_2 in Hf.
Qed.

Lemma rollback_request_accepted_witness :
  ∃ id,
    spawned (run env_all_ok (rollback (Some 5%nat) 7%nat)
               (world_with deployed [pending; deploying; deployed]))
    = [JobRollback id].
Proof.
  destruct (rollback_request_accepted env_all_ok
              (world_with deployed [pending; deploying; deployed])
              5%nat 7%nat 0%nat (demo deployed))
    as (id & d & _ & _ & _ & _ & _ & H & _); try reflexivity.
  by exists id.
Defined.

(** ** Requests handled one at a time *)

Lemma walk_has_edges h1 a b h2 :
  follows_edges (h1 ++ a :: b :: h2) = true → transition a b = true.
Proof.
  intros Hf.
  destruct (follows_edges_before (h1 ++ [a]) b h2) as (h0 & a' & Heq & Ha).
  - by rewrite <- app_assoc.
  - by destruct h1.
  - apply app_inj_tail in Heq as [_ <-]. done.
Qed.





(** ** Invariants of every interleaving *)

Section Keeping.
Context {M : Type}.
Variable env : Env.
Variable allow : M → ∀ X : Type, Eff X → Prop.
Variable next : M → ∀ X : Type, Eff X → X → M → Prop.
Variable holds : M → World → Prop.
Variable winv : World → Prop.
Variable later : World → World → Prop.
Variable start : M.
Variable job_mode : Job → M.

Hypothesis later_refl : ∀ w, later w w.
Hypothesis later_trans : ∀ w1 w2 w3, later w1 w2 → later w2 w3 → later w1 w3.
Hypothesis holds_later : ∀ m w w', later w w' → holds m w → holds m w'.
Hypothesis holds_start : ∀ w, holds start w.
Hypothesis handler_follows : ∀ r, proto allow next (handler r) start.
Hypothesis job_follows_mode :
  ∀ j, proto allow next (job_prog j) (job_mode j).
Hypothesis handle_keeps :
  ∀ X (e : Eff X) w m,
    winv w → holds m w → allow m X e →
    winv (handle env e w).1 ∧
    later w (handle env e w).1 ∧
    (∀ j, j ∈ spawn_of e → holds (job_mode j) (handle env e w).1) ∧
    ∀ x, (handle env e w).2 = Some x →
         ∃ m', next m X e x m' ∧ holds m' (handle env e w).1.

Lemma task_keeps_later w w' t :
  later w w' →
  task_keeps allow next holds w t → task_keeps allow next holds w' t.
Proof.
  intros Hl. destruct t as [c|j c|j]; cbn; [| |done];
    intros (m & Hp & Hm); exists m; eauto.
Qed.

Lemma start_jobs_keep w js :
  Forall (λ j, holds (job_mode j) w) js →
  Forall (task_keeps allow next holds w) (start_jobs js).
Proof.
  intros H. unfold start_jobs. apply Forall_fmap.
  eapply Forall_impl; [exact H|]. intros j Hj. cbn.
  exists (job_mode j). split; [apply job_follows_mode|done].
Qed.

Lemma keeps_run {R} (c : prog R) w js m :
  winv w → holds m w →
  Forall (λ j, holds (job_mode j) w) js →
  proto allow next c m →
  winv (final (run_from env c w js)) ∧
  later w (final (run_from env c w js)) ∧
  Forall (λ j, holds (job_mode j) (final (run_from env c w js)))
    (spawned (run_from env c w js)).
Proof.
  revert w js m. induction c as [r|msg|X e k IH]; intros w js m Hw Hm Hjs Hp.
  1,2: cbn; split; [done|]; split; [apply later_refl|done].
  destruct Hp as [Hallow Hnext].
  destruct (handle_keeps X e w m Hw Hm Hallow) as (Hw' & Hg & Hsp & Hx).
  assert (Forall (λ j, holds (job_mode j) (handle env e w).1) js) as Hjs'.
  { eapply Forall_impl; [exact Hjs|]. intros j. by apply holds_later. }
  cbn [run_from]. destruct (handle env e w) as [w' [x|]]; cbn [fst snd] in *.
  2: by cbn.
  destruct (Hx x eq_refl) as (m' & Hn & Hm').
  destruct (IH x w' (js ++ spawn_of e) m' Hw' Hm') as (? & ? & ?).
  - apply Forall_app. split; [done|]. by apply Forall_forall.
  - by apply Hnext.
  - split; [done|]. split; [|done]. by eapply later_trans.
Qed.

Lemma keeps_step_prog {R} (c : prog R) w :
  winv w → code_keeps allow next holds w c →
  winv (step_prog env c w).1.1 ∧
  later w (step_prog env c w).1.1 ∧
  Forall (λ j, holds (job_mode j) (step_prog env c w).1.1)
    (step_prog env c w).2 ∧
  ∀ c', (step_prog env c w).1.2 = Some c' →
        code_keeps allow next holds (step_prog env c w).1.1 c'.
Proof.
  intros Hw (m & Hp & Hm).
  destruct c as [r|msg|X e k]; cbn [step_prog fst snd].
  1,2: split; [done|]; split; [apply later_refl|]; split; [done|];
       intros c' [= <-]; by exists m.
  destruct Hp as [Hallow Hnext].
  destruct (handle_keeps X e w m Hw Hm Hallow) as (Hw' & Hg & Hsp & Hx).
  destruct (handle env e w) as [w' [x|]]; cbn [fst snd] in *.
  - split; [done|]. split; [done|]. split; [by apply Forall_forall|].
    intros c' [= <-]. destruct (Hx x eq_refl) as (m' & Hn & Hm').
    exists m'. eauto.
  - split; [done|]. split; [done|]. split; [done|]. done.
Qed.

Lemma system_keeps_event s ev :
  system_keeps allow next holds winv s →
  system_keeps allow next holds winv (apply_event env s ev) ∧
  later (world s) (world (apply_event env s ev)).
Proof.
  intros [Hw Hts]. destruct ev as [r|i|r]; cbn [apply_event].
  - split; [|apply later_refl]. split; [done|]. cbn.
    apply Forall_app. split; [done|].
    apply Forall_singleton. exists start.
    split; [apply handler_follows | apply holds_start].
  - destruct (tasks s !! i) as [t|] eqn:Hi;
      [|split; [done|apply later_refl]].
    assert (task_keeps allow next holds (world s) t) as Ht
      by (eapply Forall_lookup_1; eauto).
    destruct t as [c|j c|j]; cbn [step_task].
    + destruct (keeps_step_prog c (world s) Hw Ht) as (Hw' & Hg & Hjs & Hc).
      destruct (step_prog env c (world s)) as [[w' [c'|]] js];
        cbn in *; (split; [|done]); (split; [done|]); apply Forall_app;
        (split; [|by apply start_jobs_keep]);
        (apply Forall_insert;
         [ eapply Forall_impl; [exact Hts|]; intros t0;
           by apply task_keeps_later
         | cbn; auto ]).
    + destruct (keeps_step_prog c (world s) Hw Ht) as (Hw' & Hg & Hjs & Hc).
      destruct (step_prog env c (world s)) as [[w' [c'|]] js];
        cbn in *; (split; [|done]); (split; [done|]); apply Forall_app;
        (split; [|by apply start_jobs_keep]);
        (apply Forall_insert;
         [ eapply Forall_impl; [exact Hts|]; intros t0;
           by apply task_keeps_later
         | cbn; auto ]).
    + cbn. split; [|apply later_refl]. split; [done|].
      rewrite app_nil_r. by apply Forall_insert.
  - destruct (keeps_run (handler r) (world s) [] start)
      as (Hw' & Hg & Hjs); [done|apply holds_start|done|apply handler_follows|].
    unfold run. cbn. split; [|done]. split; [done|].
    apply Forall_app. split.
    { eapply Forall_impl; [exact Hts|]. intros t.
      by apply task_keeps_later. }
    apply Forall_cons. split; [|by apply start_jobs_keep].
    destruct (outcome _); cbn; [exists start; split; [done|apply holds_start]..
                               |done].
Qed.

Lemma system_keeps_events evs s :
  system_keeps allow next holds winv s →
  system_keeps allow next holds winv (exec_events env evs s) ∧
  later (world s) (world (exec_events env evs s)).
Proof.
  revert s. induction evs as [|ev evs IH]; intros s Hs.
  { split; [done|apply later_refl]. }
  cbn. destruct (system_keeps_event s ev Hs) as [Hs' Hl].
  destruct (IH _ Hs') as [Hs'' Hl']. split; [done|].
  by eapply later_trans.
Qed.
End Keeping.

(** *** The directory of a project, once made, stays *)

Ltac kept_leaf :=
  unfold note_found, note_dir in *;
  repeat match goal with
         | H : status _ = _ |- _ => rewrite H in *
         | H : applied _ = true |- _ => rewrite H in *
         end;
  cbn [applied] in *; rewrite ?elem_of_cons; auto.

Ltac kept_walk :=
  repeat
    (walk_eval;
     cbn [kept_allow kept_next
          status projectId set_status set_outputs set_logs set_costEstimate
          set_deploymentTime set_deployedAt set_rolledBackAt] in *;
     match goal with
     | |- True => exact I
     | |- _ ∧ _ => split
     | |- _ = _ → _ => let H := fresh "Happlied" in intros H
     | |- ∀ _, _ => intros
     | H : _ ∧ _ |- _ => destruct H
     | H : false = true |- _ => discriminate H
     | H : ?m' = _ |- _ => is_var m'; subst m'
     | |- proto _ _ ?t _ =>
         match t with
         | context [match ?x with _ => _ end] => is_var x; destruct x
         end
     | |- _ = _ => done
     | |- _ ∈ _ => kept_leaf
     end).

Lemma job_prog_kept j : proto kept_allow kept_next (job_prog j) [].
Proof. destruct j; unfold job_prog; open_job; kept_walk. Qed.

Lemma handler_kept r : proto kept_allow kept_next (handler r) [].
Proof.
  destruct r as [req|[project|] user|id user];
    unfold handler, createDeployment, rollback, deleteDeployment,
      validateInfrastructure.
  - destruct (falsy (body_terraformCode req) || falsy (body_provider req));
      [done|].
    destruct (body_projectId req), (falsy (body_projectName req));
      kept_walk.
  - kept_walk.
  - kept_walk.
  - kept_walk.
Qed.

Lemma dirs_exist_found w d m :
  applied_have_dir w → dirs_exist m w →
  ∀ id : ObjectId, db w !! id = Some d → dirs_exist (note_found d m) w.
Proof.
  intros Hw Hm id Hd p. unfold note_found.
  destruct (applied (status d)) eqn:Ha; [|apply Hm].
  rewrite elem_of_cons. intros [->|Hp]; [by eapply Hw|by apply Hm].
Qed.

Lemma applied_have_dir_persist w (id : ObjectId) d m :
  applied_have_dir w → dirs_exist m w →
  (applied (status d) = true → projectId d ∈ m) →
  applied_have_dir (persist id d w).
Proof.
  intros Hw Hm Hallow id' d'. rewrite db_persist. cbn [fs persist].
  case_decide; [|apply Hw]. intros [= <-] Ha. by apply Hm, Hallow.
Qed.

Ltac kept_tail Hm m :=
  split; [by intros p Hp|];
  split; [by intros ? ? ? Hp; apply not_elem_of_nil in Hp|];
  intros x Hx; try (injection Hx as <-); exists m;
  (split; [done|]); first [done | exact Hm].

Ltac kept_frame Hw Hm m :=
  cbn [fst snd]; split; [first [done | exact Hw]|]; kept_tail Hm m.

Lemma kept_handle env {X} (e : Eff X) w m :
  applied_have_dir w → dirs_exist m w → kept_allow m X e →
  applied_have_dir (handle env e w).1 ∧
  dirs_stay w (handle env e w).1 ∧
  (∀ j, j ∈ spawn_of e → dirs_exist [] (handle env e w).1) ∧
  ∀ x, (handle env e w).2 = Some x →
       ∃ m', kept_next m X e x m' ∧ dirs_exist m' (handle env e w).1.
Proof.
  intros Hw Hm Hallow.
  destruct e; cbn [handle kept_allow kept_next spawn_of] in *.
  - (* NewObjectId *) kept_frame Hw Hm m.
  - (* Insert *)
    destruct (negb (schema_valid d)); [kept_frame Hw Hm m|].
    destruct (db w !! id) eqn:Hid; [kept_frame Hw Hm m|]. cbn [fst snd].
    split; [by eapply applied_have_dir_persist|]. kept_tail Hm m.
  - (* Save *)
    destruct (db w !! id) as [d0|] eqn:Hid; [|kept_frame Hw Hm m]. cbn [fst snd].
    split; [by eapply applied_have_dir_persist|]. kept_tail Hm m.
  - (* FindById *)
    cbn [fst snd]. split; [done|]. split; [by intros p Hp|].
    split; [by intros ? ? ? Hp; apply not_elem_of_nil in Hp|].
    intros x [= <-]. destruct (db w !! id) as [d|] eqn:Hd; [|by exists m].
    exists (note_found d m). split; [done|]. by eapply dirs_exist_found.
  - (* FindOne *)
    cbn [fst snd]. split; [done|]. split; [by intros p Hp|].
    split; [by intros ? ? ? Hp; apply not_elem_of_nil in Hp|].
    intros x [= <-].
    destruct (find_one (db w) (matches project user s)) as [[id d]|] eqn:Hf;
      [|by exists m].
    apply find_one_Some in Hf as [Hd Hmatch].
    apply matches_spec in Hmatch as (_ & _ & Hs).
    exists (note_found d m). split; [done|]. by eapply dirs_exist_found.
  - (* FindOneAndDelete *)
    destruct (db w !! id) as [d|] eqn:Hid;
      [destruct (bool_decide (userId d = user))|]; [|kept_frame Hw Hm m..].
    cbn [fst snd]. split.
    { intros id' d'. cbn [with_db db fs]. rewrite lookup_delete.
      case_decide; [done|]. apply Hw. }
    kept_tail Hm m.
  - (* Mkdir *)
    destruct (fs w !! d) as [files|] eqn:Hd; cbn [fst snd].
    + split; [done|]. split; [by intros p Hp|].
      split; [by intros ? ? ? Hp; apply not_elem_of_nil in Hp|].
      intros x _. exists (note_dir d m). split; [done|].
      intros p. destruct d as [|p']; cbn [note_dir]; [apply Hm|].
      rewrite elem_of_cons. intros [->|Hp]; [by eexists|by apply Hm].
    + assert (dirs_stay w (with_fs (<[d:=∅]> (fs w)) w)) as Hstay.
      { intros p Hp. cbn [with_fs fs].
        destruct (decide (d = ProjectDir p)) as [->|Hne];
          [by rewrite lookup_insert_eq|by rewrite lookup_insert_ne]. }
      split.
      { intros id' d' Hd' Ha. apply Hstay. by eapply Hw. }
      split; [done|].
      split; [by intros ? ? ? Hp; apply not_elem_of_nil in Hp|].
      intros x _. exists (note_dir d m). split; [done|].
      intros p Hp. destruct d as [|p']; cbn [note_dir] in Hp;
        [by apply Hstay, Hm|].
      apply elem_of_cons in Hp as [->|Hp]; [|by apply Hstay, Hm].
      cbn [with_fs fs]. by rewrite lookup_insert_eq.
  - (* WriteFile *)
    destruct (fs w !! d) as [files|] eqn:Hd; [|kept_frame Hw Hm m]. cbn [fst snd].
    assert (dirs_stay w
              (with_fs (<[d:=<[file:=content]> files]> (fs w)) w)) as Hstay.
    { intros p Hp. cbn [with_fs fs].
      destruct (decide (d = ProjectDir p)) as [->|Hne];
        [by rewrite lookup_insert_eq|by rewrite lookup_insert_ne]. }
    split.
    { intros id' d' Hd' Ha. apply Hstay. by eapply Hw. }
    split; [done|].
    split; [by intros ? ? ? Hp; apply not_elem_of_nil in Hp|].
    intros x _. exists m. split; [done|]. intros p Hp. by apply Hstay, Hm.
  - (* Rm *)
    subst d. cbn [fst snd].
    assert (dirs_stay w (with_fs (delete TempValidation (fs w)) w)) as Hstay.
    { intros p Hp. cbn [with_fs fs]. by rewrite lookup_delete_ne. }
    split.
    { intros id' d' Hd' Ha. apply Hstay. by eapply Hw. }
    split; [done|].
    split; [by intros ? ? ? Hp; apply not_elem_of_nil in Hp|].
    intros x _. exists m. split; [done|]. intros p Hp. by apply Hstay, Hm.
  - (* Access *)
    destruct (fs w !! d) as [files|] eqn:Hd; [|kept_frame Hw Hm m]. cbn [fst snd].
    split; [done|]. split; [by intros p Hp|].
    split; [by intros ? ? ? Hp; apply not_elem_of_nil in Hp|].
    intros x [= <-]. exists (note_dir d m). split; [done|].
    intros p. destruct d as [|p']; cbn [note_dir]; [apply Hm|].
    rewrite elem_of_cons. intros [->|Hp]; [by eexists|by apply Hm].
  - (* Exec *) kept_frame Hw Hm m.
  - (* JsonParse *) kept_frame Hw Hm m.
  - (* Now *) kept_frame Hw Hm m.
  - (* SetImmediate *) kept_frame Hw Hm m.
Qed.

Lemma kept_events env evs :
  system_keeps kept_allow kept_next dirs_exist applied_have_dir
    (exec_events env evs init_system) ∧
  ∀ evs',
    dirs_stay (world (exec_events env evs init_system))
      (world (exec_events env (evs ++ evs') init_system)).
Proof.
  assert (∀ s evs0,
            system_keeps kept_allow kept_next dirs_exist applied_have_dir s →
            system_keeps kept_allow kept_next dirs_exist applied_have_dir
              (exec_events env evs0 s) ∧
            dirs_stay (world s) (world (exec_events env evs0 s))) as Hgen.
  { intros s evs0.
    apply (system_keeps_events env kept_allow kept_next dirs_exist
             applied_have_dir dirs_stay [] (λ _, [])).
    - by intros w p.
    - intros w1 w2 w3 H1 H2 p Hp. by apply H2, H1.
    - intros m w w' Hl Hm p Hp. by apply Hl, Hm.
    - intros w p Hp. by apply not_elem_of_nil in Hp.
    - apply handler_kept.
    - apply job_prog_kept.
    - intros X e w m. apply kept_handle. }
  assert (system_keeps kept_allow kept_next dirs_exist applied_have_dir
            init_system) as Hinit.
  { split; [|constructor]. intros id d Hd. cbn in Hd.
    by rewrite lookup_empty in Hd. }
  split; [by apply Hgen|].
  intros evs'. unfold exec_events. rewrite fold_left_app.
  apply Hgen. by apply Hgen.
Qed.

(** In every interleaving of requests and job steps, a record that is
    deployed, rolling_back or rolled_back has the directory of its project
    in place: a rollback job that finds such a record does not fail for a
    missing directory. *)
Theorem applied_record_has_directory env evs id d :
  db (world (exec_events env evs init_system)) !! id = Some d →
  applied (status d) = true →
  is_Some (fs (world (exec_events env evs init_system))
             !! ProjectDir (projectId d)).
Proof.
  intros Hd Ha.
  destruct (kept_events env evs) as [[Hw _] _]. by eapply Hw.
Qed.

Lemma applied_record_has_directory_witness :
  is_Some (fs (world (exec_events env_all_ok deploy_demo init_system))
             !! ProjectDir 5%nat).
Proof.
  apply (applied_record_has_directory env_all_ok deploy_demo 0%nat
           (set_costEstimate mock_estimate
              (set_logs
                 [mkLog "Starting deployment process..." info 2000;
                  mkLog "Deployment completed successfully" success 5000]
                 (set_deploymentTime 3
                    (set_deployedAt 3000
                       (set_outputs (JObj []) (set_status deployed
                          (mkDeployment 5%nat 7%nat "demo" "aws" "resource {}"
                             pending (JObj []) [] None None 0 None None)))))))).
  - vm_compute. reflexivity.
  - reflexivity.
Defined.

(** In every interleaving of requests and job steps, the directory of a
    project, once it exists, is never removed, whether the deployment
    failed, was rolled back or its record was deleted: the only directory
    that is ever removed is the one of the validation. *)
Theorem project_directories_are_never_removed env evs evs' p :
  is_Some (fs (world (exec_events env evs init_system)) !! ProjectDir p) →
  is_Some (fs (world (exec_events env (evs ++ evs') init_system))
             !! ProjectDir p).
Proof.
  intros Hp. destruct (kept_events env evs) as [_ Hstay]. by apply Hstay.
Qed.

Lemma project_directories_are_never_removed_witness :
  is_Some (fs (world (exec_events env_all_ok
                        (deploy_demo ++
                         rollback_once ++ [Serve (DeleteDeployment 0%nat 7%nat)])
                        init_system))
             !! ProjectDir 5%nat).
Proof.
  apply (project_directories_are_never_removed env_all_ok deploy_demo
           (rollback_once ++ [Serve (DeleteDeployment 0%nat 7%nat)]) 5%nat).
  vm_compute. by eexists.
Defined.

(** *** Every stored record passes the schema *)

Ltac valid_leaf :=
  repeat match goal with
         | H : ∀ d0 : Deployment, Some ?d = Some d0 → _ |- _ =>
             specialize (H _ eq_refl)
         | H : ∀ (i : ObjectId) (d0 : Deployment), Some ?p = Some (i, d0) → _
           |- _ => specialize (H _ _ eq_refl)
         end;
  unfold schema_valid in *;
  cbn [provider terraformCode name
       set_status set_outputs set_logs set_costEstimate set_deploymentTime
       set_deployedAt set_rolledBackAt] in *;
  done.

Ltac valid_walk :=
  repeat
    (walk_eval; cbn [valid_allow valid_next] in *;
     match goal with
     | |- True => exact I
     | |- _ ∧ _ => split
     | |- schema_valid _ = true => valid_leaf
     | |- ∀ _, _ => intros
     | |- proto _ _ ?t _ =>
         match t with
         | context [match ?x with _ => _ end] => is_var x; destruct x
         end
     end).

Lemma job_prog_valid j : proto valid_allow valid_next (job_prog j) tt.
Proof. destruct j; unfold job_prog; open_job; valid_walk. Qed.

Lemma handler_valid r : proto valid_allow valid_next (handler r) tt.
Proof.
  destruct r as [req|[project|] user|id user];
    unfold handler, createDeployment, rollback, deleteDeployment,
      validateInfrastructure.
  - destruct (falsy (body_terraformCode req) || falsy (body_provider req));
      [done|].
    destruct (body_projectId req), (falsy (body_projectName req));
      valid_walk.
  - valid_walk.
  - valid_walk.
  - valid_walk.
Qed.

Lemma records_valid_persist w (id : ObjectId) d :
  records_valid w → schema_valid d = true → records_valid (persist id d w).
Proof.
  intros Hw Hd id' d'. rewrite db_persist. case_decide; [|apply Hw].
  by intros [= <-].
Qed.

Ltac valid_frame Hw :=
  cbn [fst snd]; split; [first [done | exact Hw]|];
  split; [done|]; split; [done|]; intros x Hx; by exists tt.

Lemma valid_handle env {X} (e : Eff X) w (m : unit) :
  records_valid w → True → valid_allow m X e →
  records_valid (handle env e w).1 ∧
  True ∧
  (∀ j, j ∈ spawn_of e → True) ∧
  ∀ x, (handle env e w).2 = Some x →
       ∃ m', valid_next m X e x m' ∧ True.
Proof.
  intros Hw _ Hallow.
  destruct e; cbn [handle valid_allow valid_next spawn_of] in *.
  - (* NewObjectId *) valid_frame Hw.
  - (* Insert *)
    destruct (negb (schema_valid d)) eqn:Hv; [valid_frame Hw|].
    destruct (db w !! id) eqn:Hid; [valid_frame Hw|]. cbn [fst snd].
    split; [|split; [done|]; split; [done|]; intros x Hx; by exists tt].
    apply records_valid_persist; [done|]. by apply negb_false_iff.
  - (* Save *)
    destruct (db w !! id) as [d0|] eqn:Hid; [|valid_frame Hw]. cbn [fst snd].
    split; [|split; [done|]; split; [done|]; intros x Hx; by exists tt].
    by apply records_valid_persist.
  - (* FindById *)
    cbn [fst snd]. split; [done|]. split; [done|]. split; [done|].
    intros x [= <-]. exists tt. split; [|done]. intros d Hd. by eapply Hw.
  - (* FindOne *)
    cbn [fst snd]. split; [done|]. split; [done|]. split; [done|].
    intros x [= <-]. exists tt. split; [|done]. intros id d Hf.
    apply find_one_Some in Hf as [Hd _]. by eapply Hw.
  - (* FindOneAndDelete *)
    destruct (db w !! id) as [d|] eqn:Hid;
      [destruct (bool_decide (userId d = user))|]; [|valid_frame Hw..].
    cbn [fst snd].
    split; [|split; [done|]; split; [done|]; intros x Hx; by exists tt].
    intros id' d'. cbn [with_db db]. rewrite lookup_delete.
    case_decide; [done|]. apply Hw.
  - (* Mkdir *) destruct (fs w !! d); valid_frame Hw.
  - (* WriteFile *) destruct (fs w !! d); valid_frame Hw.
  - (* Rm *) valid_frame Hw.
  - (* Access *) destruct (fs w !! d); valid_frame Hw.
  - (* Exec *) valid_frame Hw.
  - (* JsonParse *) valid_frame Hw.
  - (* Now *) valid_frame Hw.
  - (* SetImmediate *) valid_frame Hw.
Qed.

Lemma by_provider_of_enum provider (aws gcp azure : string) :
  provider ∈ provider_enum →
  by_provider provider aws gcp azure ∈ [aws; gcp; azure].
Proof.
  unfold provider_enum. rewrite !elem_of_cons, elem_of_nil.
  intros [->|[->|[->|[]]]]; vm_compute; auto.
Qed.

(** In every interleaving of requests and job steps, every stored record
    passes the schema: its provider is aws, gcp or azure as written, and its
    code and name are not empty. So the providers.tf and variables.tf that a
    deploy job writes are never the empty ones of an unknown provider. *)
Theorem stored_records_pass_the_schema env evs id d :
  db (world (exec_events env evs init_system)) !! id = Some d →
  provider d ∈ provider_enum ∧
  terraformCode d ≠ "" ∧ name d ≠ "" ∧
  by_provider (provider d) aws_provider_config gcp_provider_config
    azure_provider_config ≠ "" ∧
  by_provider (provider d) aws_variables gcp_variables
    azure_variables ≠ "".
Proof.
  intros Hd.
  assert (system_keeps valid_allow valid_next (λ _ _, True) records_valid
            (exec_events env evs init_system)) as [Hw _].
  { apply (system_keeps_events env valid_allow valid_next (λ _ _, True)
             records_valid (λ _ _, True) tt (λ _, tt)); try done.
    - apply handler_valid.
    - apply job_prog_valid.
    - intros X e w m. apply valid_handle. }
  specialize (Hw id d Hd). unfold schema_valid in Hw.
  apply andb_true_iff in Hw as [Hw Hname].
  apply andb_true_iff in Hw as [Hprov Hcode].
  apply bool_decide_eq_true in Hprov.
  apply negb_true_iff, String.eqb_neq in Hcode, Hname.
  repeat split; try done.
  - pose proof (by_provider_of_enum _ aws_provider_config gcp_provider_config
                  azure_provider_config Hprov) as Hin.
    rewrite !elem_of_cons, elem_of_nil in Hin.
    destruct Hin as [->|[->|[->|[]]]]; done.
  - pose proof (by_provider_of_enum _ aws_variables gcp_variables
                  azure_variables Hprov) as Hin.
    rewrite !elem_of_cons, elem_of_nil in Hin.
    destruct Hin as [->|[->|[->|[]]]]; done.
Qed.

Lemma stored_records_pass_the_schema_witness :
  provider (demo pending) ∈ provider_enum.
Proof.
  apply (stored_records_pass_the_schema env_all_ok
           [Serve (PostDeployment demo_request)] 0%nat (demo pending)).
  vm_compute. reflexivity.
Defined.

(** ** From the request to the rollback *)

Lemma find_one_unique (m : gmap ObjectId Deployment) P (id : ObjectId) d :
  m !! id = Some d → P d = true →
  (∀ (id' : ObjectId) d', m !! id' = Some d' → P d' = true → id' = id) →
  find_one m P = Some (id, d).
Proof.
  intros Hd HP Huniq. destruct (find_one m P) as [[id' d']|] eqn:Hf.
  - apply find_one_Some in Hf as [Hd' HP'].
    assert (id' = id) as -> by (by eapply Huniq). congruence.
  - apply find_one_None with (id := id) (d := d) in Hf; [|done]. congruence.
Qed.

Lemma rollback_found_run env w project user (id : ObjectId) d :
  find_one (db w) (matches project user deployed) = Some (id, d) →
  run env (rollback (Some project) user) w
    = mkRun (persist id (set_status rolling_back d) w)
        (Returned (Json200 "Rollback initiated successfully" (Some id)))
        [JobRollback id].
Proof.
  intros Hf. unfold rollback. run_eval. rewrite Hf.
  apply find_one_Some in Hf as [Hd _]. by run_steps.
Qed.

Lemma env_succeeds_deploy env w d :
  env_succeeds env → deploy_succeeds env w d.
Proof.
  intros [Hexec Hparse].
  unfold deploy_succeeds, apply_succeeds, output_query, job_exec.
  split; [by repeat split|].
  destruct (Hexec (3 + exec_calls w)%nat "terraform output -json"
              (ProjectDir (projectId d))) as [text Ht].
  destruct (Hparse _ _ _ Ht) as [outs Ho]. by exists text, outs.
Qed.

Lemma job_prog_returned env j w w' :
  run env match j with
          | JobDeploy id => processDeployment id
          | JobRollback id => processRollback id
          end w = mkRun w' (Returned ()) [] →
  run env (job_prog j) w = mkRun w' (Returned ()) [].
Proof.
  intros H. unfold run in *.
  destruct j; cbn [job_prog]; rewrite run_from_try_catch; cbv zeta;
    by rewrite H.
Qed.

(** The whole way of a deployment when every subprocess succeeds. A valid
    create request for a project of which the user has no deployed record
    is answered 201 and starts a deploy job; that job, run to its end,
    leaves the record deployed; a rollback request of the user for the
    project is then answered 200 with the id of this record and starts a
    rollback job; that job, run to its end, leaves the record rolled_back,
    with the outputs, the cost estimate and the deployment date of the
    deployment, the identity of the record created, and the directory of
    the project still in place. No other record changes on the way. *)
Theorem deployment_round_trip env w req code prov project :
  env_succeeds env →
  body_terraformCode req = Some code → code ≠ "" →
  body_provider req = Some prov → prov ∈ provider_enum →
  body_projectId req = Some project →
  (∀ id : ObjectId, (next_oid w ≤ id)%nat → db w !! id = None) →
  (∀ (id : ObjectId) d,
     db w !! id = Some d → projectId d = project →
     userId d = create_user req → status d ≠ deployed) →
  ∃ id d1 d2 d4,
    let r1 := run env (createDeployment req) w in
    let r2 := run env (job_prog (JobDeploy id)) (final r1) in
    let r3 := run env (rollback (Some project) (create_user req)) (final r2) in
    let r4 := run env (job_prog (JobRollback id)) (final r3) in
    outcome r1 = Returned (Json201 id d1 "Deployment started successfully") ∧
    spawned r1 = [JobDeploy id] ∧
    outcome r2 = Returned () ∧
    db (final r2) !! id = Some d2 ∧ status d2 = deployed ∧
    outcome r3
      = Returned (Json200 "Rollback initiated successfully" (Some id)) ∧
    spawned r3 = [JobRollback id] ∧
    status_of (final r3) id = Some rolling_back ∧
    outcome r4 = Returned () ∧
    db (final r4) !! id = Some d4 ∧ status d4 = rolled_back ∧
    outputs d4 = outputs d2 ∧ costEstimate d4 = Some mock_estimate ∧
    deployedAt d4 = deployedAt d2 ∧ is_Some (rolledBackAt d4) ∧
    identity d4 = identity d1 ∧
    is_Some (fs (final r4) !! ProjectDir project) ∧
    ∀ id' : ObjectId, id' ≠ id → db (final r4) !! id' = db w !! id'.
Proof.
  intros Henv Hcode Hne Hprov Hin Hproj Hfree Hnone.
  (* the request *)
  destruct (createDeployment_accepted_run env w req code prov)
    as (id & d1 & w1 & Hr1 & Hid & Hdb1 & Hd1 & Hp1 & _); [done..| |done|].
  { destruct Henv as [Hexec _]. split; apply Hexec. }
  specialize (Hp1 _ Hproj).
  assert (db w1 !! id = Some d1) as Hid1
    by (rewrite Hdb1; apply lookup_insert_eq).
  (* the deploy job *)
  destruct (processDeployment_alone env w1 id d1 Hid1)
    as (w2 & o2 & d2 & Hr2 & Hid2 & Hident2 & _ & Hdb2 & _ & Hdir2 & _ & Ho2).
  pose proof (env_succeeds_deploy env w1 d1 Henv) as Hok.
  destruct o2 as [[]|?|]; [|done|by destruct Ho2 as [? _]].
  destruct (status d2) eqn:Hs2; try done; [|by destruct Ho2 as [? _]].
  destruct Ho2 as (_ & _ & Hcost2 & _).
  apply job_prog_returned with (j := JobDeploy id) in Hr2.
  (* the rollback request *)
  assert (find_one (db w2)
            (matches project (create_user req) deployed) = Some (id, d2))
    as Hfind.
  { injection Hident2 as Hpr Hus _.
    apply find_one_unique; [done| |].
    - apply matches_spec. rewrite Hd1 in Hus, Hpr. cbn in Hus, Hpr.
      repeat split; congruence.
    - intros id' d' Hd' Hm. apply matches_spec in Hm as (Hp' & Hu' & Hs').
      destruct (decide (id' = id)) as [|Hne']; [done|]. exfalso.
      rewrite Hdb2, Hdb1, lookup_insert_ne in Hd' by done.
      by eapply Hnone. }
  pose proof (rollback_found_run env w2 project (create_user req) id d2 Hfind)
    as Hr3.
  (* the rollback job *)
  set (w3 := persist id (set_status rolling_back d2) w2) in *.
  assert (db w3 !! id = Some (set_status rolling_back d2)) as Hid3
    by apply lookup_insert_eq.
  destruct (processRollback_alone env w3 id _ Hid3)
    as (w4 & o4 & d4 & Hr4 & Hid4 & Hident4 & _ & Hdb4 & Hfs4 & _ & Hout4
        & Hcost4 & Hat4 & _ & Ho4).
  assert (is_Some (fs w3 !! ProjectDir project)) as Hdir3.
  { cbn [w3 persist fs]. by rewrite <- Hp1. }
  assert (∃ out, job_exec env w3 (set_status rolling_back d2) 0
                   "terraform destroy -auto-approve" = Some (inl out))
    as [out Hdestroy] by (destruct Henv as [Hexec _]; apply Hexec).
  assert (projectId (set_status rolling_back d2) = project) as Hp3.
  { injection Hident2 as Hpr _. cbn. congruence. }
  destruct o4 as [[]|?|]; [|done|destruct Ho4 as (_ & _ & _ & ?); congruence].
  destruct (status d4) eqn:Hs4; try done.
  { destruct Ho4 as (_ & reason & t & [[Hmiss _]|[_ Hfail]] & _).
    - rewrite Hp3 in Hmiss. rewrite Hmiss in Hdir3. by destruct Hdir3.
    - congruence. }
  destruct Ho4 as (_ & _ & Hrb4 & _).
  apply job_prog_returned with (j := JobRollback id) in Hr4.
  exists id, d1, d2, d4. cbv zeta.
  rewrite Hr1. cbn [final outcome spawned].
  rewrite Hr2. cbn [final outcome spawned].
  rewrite Hr3. cbn [final outcome spawned]. fold w3.
  rewrite Hr4. cbn [final outcome spawned].
  repeat split; try done.
  - unfold status_of. by rewrite Hid3.
  - by rewrite Hcost4.
  - by rewrite Hident4, <- Hident2.
  - by rewrite Hfs4.
  - intros id' Hne'. rewrite Hdb4 by done. cbn [w3 persist db].
    by rewrite lookup_insert_ne, Hdb2, Hdb1, lookup_insert_ne.
Qed.

Lemma deployment_round_trip_witness :
  ∃ id d4,
    db (final (run env_all_ok (job_prog (JobRollback id))
                 (final (run env_all_ok (rollback (Some 5%nat) 7%nat)
                    (final (run env_all_ok (job_prog (JobDeploy id))
                       (final (run env_all_ok (createDeployment demo_request)
                                 empty_world)))))))) !! id = Some d4 ∧
    status d4 = rolled_back.
Proof.
  destruct (deployment_round_trip env_all_ok empty_world demo_request
              "resource {}" "aws" 5%nat)
    as (id & d1 & d2 & d4 & H).
  - split; [by eexists|]. intros n dir o [= <-]. by eexists.
  - reflexivity.
  - discriminate.
  - reflexivity.
  - unfold provider_enum. apply list_elem_of_here.
  - reflexivity.
  - intros id _. apply lookup_empty.
  - intros id d Hd. cbn in Hd. by rewrite lookup_empty in Hd.
  - cbv zeta in H. destruct H as (_ & _ & _ & _ & _ & _ & _ & _ & _ & H4 & Hs
                                  & _).
    by exists id, d4.
Defined.

(** ** Deleted records *)

Lemma absent_stays_served w w' js (id : ObjectId) :
  served w w' js → (id < next_oid w)%nat →
  db w !! id = None → db w' !! id = None.
Proof.
  intros Hs Hlt Hnone.
  destruct Hs as [Hn Hdb|id0 d d' Hn Hd Hst Hdb Hst'|id0 d Hge Hlt' Hdb Hst].
  - destruct (Hdb id) as [->| ->]; done.
  - rewrite Hdb, lookup_insert_ne; [done|]. intros ->. congruence.
  - rewrite Hdb, lookup_insert_ne; [done|]. lia.
Qed.

Lemma absent_stays_event env s ev (id : ObjectId) :
  serial_ok s → serial_event ev = true →
  (next_oid (world s) ≤ next_oid (world (apply_event env s ev)))%nat ∧
  ((id < next_oid (world s))%nat → db (world s) !! id = None →
   db (world (apply_event env s ev)) !! id = None).
Proof.
  intros (Hok & Hts & Hex) Hev.
  destruct ev as [r|i|r]; [done| |]; cbn [apply_event].
  - destruct (tasks s !! i) as [t|] eqn:Hi; [|done].
    assert (task_ok (world s) t) as Ht by (eapply Forall_lookup_1; eauto).
    destruct t as [c|j c|j]; cbn [step_task].
    + cbn in Ht. destruct c; try done.
    + destruct c as [r|msg|X e k]; [done..|].
      destruct Ht as (Hj & m & [Hallow Hnext] & Hm). specialize (Hm eq_refl).
      destruct (job_handle env (job_target j) e (world s) m Hok Hm Hallow)
        as (_ & Hn & _ & Hother & Hsame & _).
      cbn [step_prog].
      destruct (handle env e (world s)) as [w' [x|]]; cbn [fst snd world] in *;
        (split; [lia|]); intros Hlt Hnone;
        (destruct (decide (id = job_target j)) as [->|Hne];
         [by apply Hsame|by rewrite Hother]).
    + done.
  - assert (served (world s) (final (run env (handler r) (world s)))
              (spawned (run env (handler r) (world s)))) as Hs.
    { destruct r as [req|project user|id' user]; cbn [handler].
      - by apply createDeployment_served.
      - by apply rollback_served.
      - by apply deleteDeployment_served. }
    cbn [world]. split.
    + by eapply served_next_oid.
    + intros Hlt Hnone. by eapply absent_stays_served.
Qed.

Lemma absent_stays_events env evs s (id : ObjectId) :
  forallb serial_event evs = true → serial_ok s →
  (id < next_oid (world s))%nat → db (world s) !! id = None →
  db (world (exec_events env evs s)) !! id = None.
Proof.
  revert s. induction evs as [|ev evs IH]; intros s Hser Hs Hlt Hnone; [done|].
  cbn in Hser. apply andb_true_iff in Hser as [Hev Hser].
  destruct (absent_stays_event env s ev id Hs Hev) as [Hle Hnone'].
  cbn. apply IH; [done| |lia|by apply Hnone'].
  destruct ev as [r|i|r]; [done| |].
  - by apply serial_ok_step.
  - by apply serial_ok_serve.
Qed.



(** ** The log of a record only grows (requests handled one at a time) *)

Lemma grown_refl d : grown d d.
Proof. by split. Qed.

Lemma grown_trans d1 d2 d3 : grown d1 d2 → grown d2 d3 → grown d1 d3.
Proof.
  intros [Hi1 Hl1] [Hi2 Hl2]. split; [congruence|].
  etrans; [apply Hl1|apply Hl2].
Qed.

Ltac track_leaf :=
  eexists; split; [reflexivity|]; unfold grown, identity;
  cbn [projectId userId name provider terraformCode createdAt logs
       set_status set_outputs set_logs set_costEstimate set_deploymentTime
       set_deployedAt set_rolledBackAt];
  split; [reflexivity|];
  repeat first [done | apply prefix_app_r].

Ltac track_walk :=
  repeat
    (walk_eval; cbn [track_allow track_next] in *;
     match goal with
     | |- True => exact I
     | |- _ ∧ _ => split
     | |- ∃ d0, _ = Some d0 ∧ grown d0 _ => track_leaf
     | |- ∀ _, _ => intros
     | H : ?m' = _ |- _ => is_var m'; subst m'
     | |- proto _ _ ?t _ =>
         match t with
         | context [match ?x with _ => _ end] => is_var x; destruct x
         end
     end).

Lemma job_prog_tracks j :
  proto (track_allow (job_target j)) (track_next (job_target j)) (job_prog j)
    None.
Proof. destruct j; unfold job_prog; open_job; track_walk. Qed.

Lemma copy_holds_same m w w' (id : ObjectId) :
  db w' !! id = db w !! id → copy_holds m w id → copy_holds m w' id.
Proof. intros H Hc d0 Hm. rewrite H. by apply Hc. Qed.

Lemma copy_holds_served w w' js m (id : ObjectId) :
  served w w' js → (id < next_oid w)%nat →
  (∀ d, db w !! id = Some d → status d ≠ deployed) →
  copy_holds m w id → copy_holds m w' id.
Proof.
  intros Hs Hlt Hact Hc.
  destruct Hs as [Hn Hdb|id0 d d' Hn Hd Hst Hdb Hst'|id0 d Hge Hlt' Hdb Hst].
  - intros d0 Hm. destruct (Hdb id) as [->| ->]; [by apply Hc|by left].
  - apply (copy_holds_same m w); [|done].
    rewrite Hdb, lookup_insert_ne; [done|]. intros ->. by eapply Hact.
  - apply (copy_holds_same m w); [|done].
    rewrite Hdb, lookup_insert_ne; [done|]. lia.
Qed.

(** What a request does to a record that is there before and after. *)
Lemma handler_grown env r w (id : ObjectId) d d' :
  db w !! id = Some d →
  db (final (run env (handler r) w)) !! id = Some d' → grown d d'.
Proof.
  intros Hd. destruct r as [req|project user|id0 user]; cbn [handler].
  - destruct (createDeployment_effect env w req)
      as [[-> _]|(id0 & d0 & Hfree & -> & _)].
    + rewrite Hd. intros [= <-]. apply grown_refl.
    + rewrite lookup_insert_ne by congruence.
      rewrite Hd. intros [= <-]. apply grown_refl.
  - unfold rollback. destruct project as [project|]; run_eval.
    2: { rewrite Hd. intros [= <-]. apply grown_refl. }
    destruct (find_one (db w) (matches project user deployed))
      as [[id0 d0]|] eqn:Hf; run_eval.
    2: { rewrite Hd. intros [= <-]. apply grown_refl. }
    apply find_one_Some in Hf as [Hd0 _]. run_steps.
    destruct (decide (id0 = id)) as [->|Hne].
    + rewrite lookup_insert_eq. intros [= <-].
      assert (d0 = d) as -> by congruence. by split.
    + rewrite lookup_insert_ne by done.
      rewrite Hd. intros [= <-]. apply grown_refl.
  - rewrite deleteDeployment_run.
    destruct (db w !! id0) as [d0|] eqn:Hd0;
      [destruct (bool_decide (userId d0 = user))|]; cbn [final with_db db].
    + intros Hd'. apply lookup_delete_Some in Hd' as [_ Hd'].
      assert (d' = d) as -> by congruence. apply grown_refl.
    + rewrite Hd. intros [= <-]. apply grown_refl.
    + rewrite Hd. intros [= <-]. apply grown_refl.
Qed.

Lemma tracked_serve env s r :
  serial_ok s → Forall (task_tracks (world s)) (tasks s) →
  Forall (task_tracks (world (apply_event env s (Serve r))))
    (tasks (apply_event env s (Serve r))).
Proof.
  intros (Hok & Hts & Hex) Htr. cbn [apply_event world tasks].
  assert (served (world s) (final (run env (handler r) (world s)))
            (spawned (run env (handler r) (world s)))) as Hs.
  { destruct r as [req|project user|id' user]; cbn [handler].
    - by apply createDeployment_served.
    - by apply rollback_served.
    - by apply deleteDeployment_served. }
  apply Forall_app. split.
  - apply Forall_lookup. intros i t Hi.
    assert (task_ok (world s) t) as Ht by (eapply Forall_lookup_1; eauto).
    assert (task_tracks (world s) t) as Htt by (eapply Forall_lookup_1; eauto).
    destruct t as [c|j c|j]; [done| |done].
    destruct Htt as (m & Hp & Hc). exists m. split; [done|]. intros Hf.
    destruct Ht as (Hlt & m1 & Hp1 & Hm1).
    eapply copy_holds_served; eauto.
    intros d Hd Hst.
    assert (m1 ≠ Over) as Hne.
    { destruct c; try done. by eapply job_follows_active. }
    destruct (mode_holds_status m1 _ _ d Hne (Hm1 Hf) Hd) as [H|[H|H]];
      congruence.
  - apply Forall_cons. split; [by destruct (outcome _)|].
    unfold start_jobs. apply Forall_fmap, Forall_forall. intros j _. cbn.
    exists None. split; [apply job_prog_tracks|done].
Qed.

Lemma tracked_step env s i :
  serial_ok s → Forall (task_tracks (world s)) (tasks s) →
  Forall (task_tracks (world (apply_event env s (Step i))))
    (tasks (apply_event env s (Step i))) ∧
  ∀ (id : ObjectId) d d',
    db (world s) !! id = Some d →
    db (world (apply_event env s (Step i))) !! id = Some d' → grown d d'.
Proof.
  intros (Hok & Hts & Hex) Htr. cbn [apply_event].
  assert (∀ t', task_tracks (world s) t' →
            Forall (task_tracks (world s)) (<[i := t']> (tasks s) ++ []) ∧
            ∀ (id : ObjectId) d d',
              db (world s) !! id = Some d → db (world s) !! id = Some d' →
              grown d d') as Hidle.
  { intros t' Ht'. split.
    - rewrite app_nil_r. by apply Forall_insert.
    - intros id d d' Hd Hd'. assert (d' = d) as -> by congruence.
      apply grown_refl. }
  destruct (tasks s !! i) as [t|] eqn:Hi.
  2: { split; [done|]. intros id d d' Hd Hd'.
       assert (d' = d) as -> by congruence. apply grown_refl. }
  assert (task_ok (world s) t) as Ht by (eapply Forall_lookup_1; eauto).
  assert (task_tracks (world s) t) as Htt by (eapply Forall_lookup_1; eauto).
  destruct t as [c|j c|j]; cbn [step_task].
  { cbn in Ht. destruct c; try done; cbn [step_prog world tasks];
      by apply Hidle. }
  2: { cbn [world tasks]. by apply Hidle. }
  destruct c as [r|msg|X e k]; cbn [step_prog].
  1,2: cbn [world tasks]; by apply Hidle.
  destruct Ht as (Hlt & m1 & [Hallow1 Hnext1] & Hm1). specialize (Hm1 eq_refl).
  destruct Htt as (m & [Hallow Hnext] & Hc). specialize (Hc eq_refl).
  destruct (job_handle env (job_target j) e (world s) m1 Hok Hm1 Hallow1)
    as (_ & _ & Hsp & Hother & _ & _).
  (* the record of the job, and the copy of the job after the effect *)
  assert ((∀ d d', db (world s) !! job_target j = Some d →
                   db (handle env e (world s)).1 !! job_target j = Some d' →
                   grown d d') ∧
          ∀ x, (handle env e (world s)).2 = Some x →
               ∃ m', track_next (job_target j) m X e x m' ∧
                     copy_holds m' (handle env e (world s)).1 (job_target j))
    as [Hown Hcopy].
  { clear Hnext Hnext1 Hother Hsp.
    destruct e; cbn [job_allow] in Hallow1; try done;
      cbn [handle track_allow track_next] in *.
    - (* Save *)
      destruct Hallow1 as [-> _]. destruct Hallow as (dm & -> & Hg).
      match goal with
      | |- context [match ?x with Some _ => _ | None => _ end] =>
          destruct x as [dold|] eqn:Hold
      end; cbn [fst snd].
      + destruct (Hc dm eq_refl) as [Hn|Hs]; [congruence|].
        assert (dold = dm) as -> by congruence. split.
        * intros d0 d' [= <-]. cbn [persist db].
          rewrite lookup_insert_eq. by intros [= <-].
        * intros x [= <-]. exists (Some d). split; [done|].
          intros d0 [= <-]. right. apply lookup_insert_eq.
      + split; [done|]. intros x [= <-]. exists (Some dm). split; [done|].
        intros d0 [= <-]. by left.
    - (* FindById *)
      destruct Hallow1 as [-> _]. cbn [fst snd]. split.
      + intros d d' Hd Hd'. assert (d' = d) as -> by congruence.
        apply grown_refl.
      + intros x [= <-]. exists (db (world s) !! job_target j).
        split; [done|]. intros d0 Hd0. by right.
    - (* Mkdir *)
      destruct (fs (world s) !! d); cbn [fst snd with_fs db];
        (split; [intros d1 d' Hd Hd'; assert (d' = d1) as -> by congruence;
                 apply grown_refl|]);
        intros x _; by exists m.
    - (* WriteFile *)
      destruct (fs (world s) !! d); cbn [fst snd with_fs db];
        (split; [intros d1 d' Hd Hd'; assert (d' = d1) as -> by congruence;
                 apply grown_refl|]);
        intros x _; by exists m.
    - (* Rm *)
      cbn [fst snd with_fs db].
      split; [intros d1 d' Hd Hd'; assert (d' = d1) as -> by congruence;
              apply grown_refl|].
      intros x _; by exists m.
    - (* Access *)
      destruct (fs (world s) !! d); cbn [fst snd with_fs db];
        (split; [intros d1 d' Hd Hd'; assert (d' = d1) as -> by congruence;
                 apply grown_refl|]);
        intros x _; by exists m.
    - (* Exec *)
      cbn [fst snd db].
      split; [intros d1 d' Hd Hd'; assert (d' = d1) as -> by congruence;
              apply grown_refl|].
      intros x _; by exists m.
    - (* JsonParse *)
      cbn [fst snd db].
      split; [intros d1 d' Hd Hd'; assert (d' = d1) as -> by congruence;
              apply grown_refl|].
      intros x _; by exists m.
    - (* Now *)
      cbn [fst snd db].
      split; [intros d1 d' Hd Hd'; assert (d' = d1) as -> by congruence;
              apply grown_refl|].
      intros x _; by exists m. }
  assert (∀ t',
            task_tracks (handle env e (world s)).1 t' →
            Forall (task_tracks (handle env e (world s)).1)
              (<[i := t']> (tasks s) ++ [])) as Hrest.
  { intros t' Ht'. rewrite app_nil_r. apply Forall_lookup. intros i2 t2 Hi2.
    destruct (decide (i = i2)) as [<-|Hne].
    { rewrite list_lookup_insert_eq in Hi2 by (eapply lookup_lt_Some; eauto).
      by injection Hi2 as <-. }
    rewrite list_lookup_insert_ne in Hi2 by done.
    assert (task_tracks (world s) t2) as Ht2
      by (eapply Forall_lookup_1; eauto).
    destruct t2 as [c2|j2 c2|j2]; [done| |done].
    destruct Ht2 as (m2 & Hp2 & Hc2). exists m2. split; [done|]. intros Hf.
    apply (copy_holds_same m2 (world s)); [|by apply Hc2].
    apply Hother. intros Heq. apply Hne.
    apply (Hex i i2 (Working j (Vis e k)) (Working j2 c2) j j2 Hi Hi2);
      [done|cbn; by rewrite Hf|done]. }
  assert (∀ (id : ObjectId) d d',
            db (world s) !! id = Some d →
            db (handle env e (world s)).1 !! id = Some d' → grown d d')
    as Hgrown.
  { intros id d d' Hd Hd'.
    destruct (decide (id = job_target j)) as [->|Hne]; [by eapply Hown|].
    rewrite Hother in Hd' by done. assert (d' = d) as -> by congruence.
    apply grown_refl. }
  rewrite Hsp.
  destruct (handle env e (world s)) as [w' [x|]]; cbn [fst snd world tasks] in *.
  - split; [|done]. apply Hrest.
    destruct (Hcopy x eq_refl) as (m' & Hn' & Hc').
    exists m'. split; [by apply Hnext|done].
  - split; [|done]. by apply Hrest.
Qed.

Lemma tracked_events env evs s (id : ObjectId) d d' :
  forallb serial_event evs = true →
  serial_ok s → Forall (task_tracks (world s)) (tasks s) →
  db (world s) !! id = Some d →
  db (world (exec_events env evs s)) !! id = Some d' → grown d d'.
Proof.
  revert s d. induction evs as [|ev evs IH]; intros s d Hser Hs Htr Hd Hd'.
  { cbn in Hd'. assert (d' = d) as -> by congruence. apply grown_refl. }
  cbn in Hser. apply andb_true_iff in Hser as [Hev Hser].
  change (exec_events env (ev :: evs) s)
    with (exec_events env evs (apply_event env s ev)) in Hd'.
  assert (serial_ok (apply_event env s ev) ∧
          Forall (task_tracks (world (apply_event env s ev)))
            (tasks (apply_event env s ev)) ∧
          ∀ d1, db (world (apply_event env s ev)) !! id = Some d1 →
                grown d d1) as (Hs' & Htr' & Hg).
  { destruct ev as [r|i|r]; [done| |].
    - split; [by apply serial_ok_step|].
      destruct (tracked_step env s i Hs Htr) as [? Hg]. split; [done|].
      intros d1. by apply Hg.
    - split; [by apply serial_ok_serve|].
      split; [by apply tracked_serve|].
      intros d1. by apply handler_grown. }
  destruct (db (world (apply_event env s ev)) !! id) as [d1|] eqn:Hd1.
  - eapply grown_trans; [by apply Hg|]. by eapply IH.
  - exfalso.
    destruct (absent_stays_event env s ev id Hs Hev) as [Hle _].
    assert (id < next_oid (world s))%nat as Hlt.
    { destruct Hs as ((Hdom & _) & _). apply Hdom. by eexists. }
    rewrite (absent_stays_events env evs (apply_event env s ev) id) in Hd';
      [done|done|done|lia|done].
Qed.



(** ** Requests that are not carried out *)

(** A request changes the collection and starts a job only when it is
    answered with success: a request that is answered with an error status
    (400, 404 or 500), or that is never answered, stores nothing, changes
    no record and starts no job. *)
Theorem failed_requests_change_nothing env w r :
  let o := run env (handler r) w in
  (∀ resp, outcome o = Returned resp → is_success resp = false →
           db (final o) = db w ∧ spawned o = []) ∧
  (outcome o = Blocked → db (final o) = db w ∧ spawned o = []).
Proof.
  intros o. subst o. destruct r as [req|project user|id user];
    cbn [handler].
  - destruct (createDeployment_effect env w req)
      as [(Hdb & Hsp & _)|(id & d & _ & _ & _ & _ & _ & Ho)].
    + by split.
    + rewrite Ho. split; [|done]. by intros resp [= <-].
  - unfold rollback. destruct project as [project|]; run_eval; [|done].
    destruct (find_one (db w) (matches project user deployed))
      as [[id d]|] eqn:Hf; run_eval; [|done].
    apply find_one_Some in Hf as [Hd _]. run_steps.
    split; [|done]. by intros resp [= <-].
  - rewrite deleteDeployment_run.
    destruct (db w !! id) as [d|] eqn:Hd;
      [destruct (bool_decide (userId d = user))|]; cbn [final outcome spawned];
      (split; [|done]); try done.
    by intros resp [= <-].
Qed.

(** ** The deployment time *)

Lemma round_seconds_nearest ms :
  1000 * round_seconds ms - 500 ≤ ms < 1000 * round_seconds ms + 500.
Proof.
  unfold round_seconds.
  pose proof (Z.div_mod (ms + 500) 1000 ltac:(lia)) as Hdiv.
  pose proof (Z.mod_pos_bound (ms + 500) 1000 ltac:(lia)) as Hmod.
  lia.
Qed.

(** The deployment time of a deployment that succeeds is the time from the
    start of the job, read before the record is set to deploying, to the
    moment after the deployment date is taken, in whole seconds: the
    nearest to the milliseconds elapsed, a half counting upwards. *)
Theorem deployment_time_is_elapsed_seconds env w id d :
  db w !! id = Some d → deploy_succeeds env w d →
  let elapsed :=
    clock env (3 + clock_reads w) - clock env (clock_reads w) in
  ∃ d' t,
    db (final (run env (processDeployment id) w)) !! id = Some d' ∧
    status d' = deployed ∧
    deployedAt d' = Some (clock env (2 + clock_reads w)) ∧
    deploymentTime d' = Some t ∧
    1000 * t - 500 ≤ elapsed < 1000 * t + 500.
Proof.
  intros Hd (Happly & text & outs & Hout & Hparse) elapsed. subst elapsed.
  destruct (processDeployment_deployed_run env w id d text outs Hd Happly
              Hout Hparse) as (_ & _ & -> & _).
  eexists _, _. split; [reflexivity|]. cbn. repeat split; try done.
  all: apply round_seconds_nearest.
Qed.

Lemma deployment_time_is_elapsed_seconds_witness :
  ∃ d', db (final (run env_all_ok (processDeployment 0%nat)
                     (world_with pending [pending]))) !! 0%nat = Some d' ∧
        deploymentTime d' = Some 3.
Proof.
  destruct (deployment_time_is_elapsed_seconds env_all_ok
              (world_with pending [pending]) 0%nat (demo pending))
    as (d' & t & Hd' & _ & _ & Ht & Hlo & Hhi).
  - reflexivity.
  - split; [repeat split; by eexists|]. exists "{}", (JObj []). by split.
  - exists d'. split; [done|]. rewrite Ht. f_equal.
    cbn in Hlo, Hhi. unfold steady_clock in Hlo, Hhi. lia.
Defined.
